(** * Recording assistant: scripted playback and recording session

    A shallow embedding of the session logic of the recording assistant
    (the script that loads the KYC script, records the webcam, narrates the
    script line groups with speech synthesis and drives the capture
    sub-flow), followed by the properties of its specification.

    The page keeps its session in global variables; they become the fields
    of [State] and every function of the page becomes a function on
    [State].  Browser services are modelled by what the page hands to them:
    - the speech engine holds the utterances whose [onend]/[onerror] event
      is still to be delivered ([speechQueue]); [speechSynthesis.cancel()]
      silences them but their event still reaches the page, and both
      handlers run the same callback;
    - the media recorder counts the [stop()] calls it received and the
      [stop] events it still owes;
    - [alert], [fetch('/api/save-captures')] and [speechSynthesis.speak]
      append to logs ([alerts], [captureUploads], [narrated]).
    The timer display, the download and the progress bars read the session
    without changing it; they are functions of their own
    ([updateTimerDisplay], [downloadVideo], [updateProgressBars]). Status
    texts and the submission of the metadata form are left out. *)

From Stdlib Require DecimalString DecimalNat.
From Stdlib Require Import String Ascii List Arith Bool Lia.
From Equations Require Import Equations.
From Equations.Prop Require Import Logic.
Import ListNotations.
Local Open Scope string_scope.
Local Open Scope list_scope.
Local Open Scope nat_scope.

(** ** Script document *)

(** One entry of [script_lines]. [action_required] is [None] for a missing
    or null field. *)
Record Line := mkLine {
  text : string;
  group_with_next : bool;
  capture_mode : bool;
  action_required : option string;
  auto_terminate : bool
}.

Record ScriptSection := mkSection {
  title : string;
  section_auto_terminate : bool;
  script_lines : list Line
}.

Record Script := mkScript {
  sections : list ScriptSection
}.

(** ** Captured images, recorder, speech *)

(** The values [currentCaptureType] takes: ['pan'] and ['aadhaar']
    ([None] is the initial [null]). *)
Inductive DocType := pan | aadhaar.

Definition DocType_eqb (a b : DocType) : bool :=
  match a, b with
  | pan, pan | aadhaar, aadhaar => true
  | _, _ => false
  end.

(** [a === b] on capture types, [null] included. *)
Definition captureType_eqb (a b : option DocType) : bool :=
  match a, b with
  | None, None => true
  | Some x, Some y => DocType_eqb x y
  | _, _ => false
  end.

Record CapturedImage := mkImage {
  type : option DocType;
  timestamp : nat;
  data : string
}.

(** A recorded chunk is its bytes; a blob is the concatenation of chunks. *)
Definition Chunk := list nat.
Definition Blob := list nat.

Record MediaRecorder := mkRecorder {
  started : bool;
  stopCalls : nat;
  stopEventsDue : nat
}.

(** The closure passed to [speakText] by [playNextLine]: the variables it
    captured. *)
Record Callback := mkCallback {
  lastLineIndex : nat;
  isAutoTerminate : bool;
  isCaptureMode : bool;
  showDocument : bool
}.

Record Utterance := mkUtterance {
  utterance_text : string;
  utterance_callback : Callback;
  cancelled : bool
}.

(** What one call of [speechSynthesis.speak] narrated: the section, the
    indices of the grouped lines and the combined text. *)
Record Narration := mkNarration {
  narration_section : nat;
  narration_lines : list nat;
  narration_text : string
}.

Inductive Alert :=
| AlertAllowWebcam
| AlertCouldNotStart.

(** ** Page elements *)

(** [true] means displayed for overlays and buttons of the capture flow,
    and disabled for the three [*_disabled] buttons. *)
Record Dom := mkDom {
  start_btn_disabled : bool;
  stop_btn_disabled : bool;
  download_btn_disabled : bool;
  video_overlay : bool;
  capture_overlay : bool;
  document_indicator : bool;
  capture_status : bool;
  capture_btn : bool;
  retake_btn : bool;
  capture_next_btn : bool;
  document_text : option DocType;
  metadata_form : bool;
  fullscreen : bool;
  progress_full : bool
}.

Definition with_start_btn_disabled (v : bool) (d : Dom) : Dom :=
  mkDom v (stop_btn_disabled d) (download_btn_disabled d) (video_overlay d)
    (capture_overlay d) (document_indicator d) (capture_status d)
    (capture_btn d) (retake_btn d) (capture_next_btn d) (document_text d)
    (metadata_form d) (fullscreen d) (progress_full d).

Definition with_stop_btn_disabled (v : bool) (d : Dom) : Dom :=
  mkDom (start_btn_disabled d) v (download_btn_disabled d) (video_overlay d)
    (capture_overlay d) (document_indicator d) (capture_status d)
    (capture_btn d) (retake_btn d) (capture_next_btn d) (document_text d)
    (metadata_form d) (fullscreen d) (progress_full d).

Definition with_download_btn_disabled (v : bool) (d : Dom) : Dom :=
  mkDom (start_btn_disabled d) (stop_btn_disabled d) v (video_overlay d)
    (capture_overlay d) (document_indicator d) (capture_status d)
    (capture_btn d) (retake_btn d) (capture_next_btn d) (document_text d)
    (metadata_form d) (fullscreen d) (progress_full d).

Definition with_video_overlay (v : bool) (d : Dom) : Dom :=
  mkDom (start_btn_disabled d) (stop_btn_disabled d)
    (download_btn_disabled d) v (capture_overlay d) (document_indicator d)
    (capture_status d) (capture_btn d) (retake_btn d) (capture_next_btn d)
    (document_text d) (metadata_form d) (fullscreen d) (progress_full d).

Definition with_capture_overlay (v : bool) (d : Dom) : Dom :=
  mkDom (start_btn_disabled d) (stop_btn_disabled d)
    (download_btn_disabled d) (video_overlay d) v (document_indicator d)
    (capture_status d) (capture_btn d) (retake_btn d) (capture_next_btn d)
    (document_text d) (metadata_form d) (fullscreen d) (progress_full d).

Definition with_document_indicator (v : bool) (d : Dom) : Dom :=
  mkDom (start_btn_disabled d) (stop_btn_disabled d)
    (download_btn_disabled d) (video_overlay d) (capture_overlay d) v
    (capture_status d) (capture_btn d) (retake_btn d) (capture_next_btn d)
    (document_text d) (metadata_form d) (fullscreen d) (progress_full d).

Definition with_capture_status (v : bool) (d : Dom) : Dom :=
  mkDom (start_btn_disabled d) (stop_btn_disabled d)
    (download_btn_disabled d) (video_overlay d) (capture_overlay d)
    (document_indicator d) v (capture_btn d) (retake_btn d)
    (capture_next_btn d) (document_text d) (metadata_form d) (fullscreen d)
    (progress_full d).

Definition with_capture_btn (v : bool) (d : Dom) : Dom :=
  mkDom (start_btn_disabled d) (stop_btn_disabled d)
    (download_btn_disabled d) (video_overlay d) (capture_overlay d)
    (document_indicator d) (capture_status d) v (retake_btn d)
    (capture_next_btn d) (document_text d) (metadata_form d) (fullscreen d)
    (progress_full d).

Definition with_retake_btn (v : bool) (d : Dom) : Dom :=
  mkDom (start_btn_disabled d) (stop_btn_disabled d)
    (download_btn_disabled d) (video_overlay d) (capture_overlay d)
    (document_indicator d) (capture_status d) (capture_btn d) v
    (capture_next_btn d) (document_text d) (metadata_form d) (fullscreen d)
    (progress_full d).

Definition with_capture_next_btn (v : bool) (d : Dom) : Dom :=
  mkDom (start_btn_disabled d) (stop_btn_disabled d)
    (download_btn_disabled d) (video_overlay d) (capture_overlay d)
    (document_indicator d) (capture_status d) (capture_btn d) (retake_btn d)
    v (document_text d) (metadata_form d) (fullscreen d) (progress_full d).

Definition with_document_text (v : option DocType) (d : Dom) : Dom :=
  mkDom (start_btn_disabled d) (stop_btn_disabled d)
    (download_btn_disabled d) (video_overlay d) (capture_overlay d)
    (document_indicator d) (capture_status d) (capture_btn d) (retake_btn d)
    (capture_next_btn d) v (metadata_form d) (fullscreen d)
    (progress_full d).

Definition with_metadata_form (v : bool) (d : Dom) : Dom :=
  mkDom (start_btn_disabled d) (stop_btn_disabled d)
    (download_btn_disabled d) (video_overlay d) (capture_overlay d)
    (document_indicator d) (capture_status d) (capture_btn d) (retake_btn d)
    (capture_next_btn d) (document_text d) v (fullscreen d)
    (progress_full d).

Definition with_fullscreen (v : bool) (d : Dom) : Dom :=
  mkDom (start_btn_disabled d) (stop_btn_disabled d)
    (download_btn_disabled d) (video_overlay d) (capture_overlay d)
    (document_indicator d) (capture_status d) (capture_btn d) (retake_btn d)
    (capture_next_btn d) (document_text d) (metadata_form d) v
    (progress_full d).

Definition with_progress_full (v : bool) (d : Dom) : Dom :=
  mkDom (start_btn_disabled d) (stop_btn_disabled d)
    (download_btn_disabled d) (video_overlay d) (capture_overlay d)
    (document_indicator d) (capture_status d) (capture_btn d) (retake_btn d)
    (capture_next_btn d) (document_text d) (metadata_form d) (fullscreen d)
    v.

(** ** Session state: the global variables of the page *)

Record State := mkState {
  scriptData : option Script;
  currentSectionIndex : nat;
  currentLineIndex : nat;
  timerInterval : bool;
  isRecording : bool;
  mediaRecorder : option MediaRecorder;
  recordedChunks : list Chunk;
  stream : bool;
  videoBlob : option Blob;
  speechQueue : list Utterance;
  isAutoPlaying : bool;
  capturedImages : list CapturedImage;
  currentCaptureType : option DocType;
  dom : Dom;
  narrated : list Narration;
  alerts : list Alert;
  captureUploads : list (list CapturedImage)
}.

Definition set_scriptData (v : option Script) (st : State) : State :=
  mkState v (currentSectionIndex st) (currentLineIndex st)
    (timerInterval st) (isRecording st) (mediaRecorder st)
    (recordedChunks st) (stream st) (videoBlob st) (speechQueue st)
    (isAutoPlaying st) (capturedImages st) (currentCaptureType st) (dom st)
    (narrated st) (alerts st) (captureUploads st).

Definition set_currentSectionIndex (v : nat) (st : State) : State :=
  mkState (scriptData st) v (currentLineIndex st) (timerInterval st)
    (isRecording st) (mediaRecorder st) (recordedChunks st) (stream st)
    (videoBlob st) (speechQueue st) (isAutoPlaying st) (capturedImages st)
    (currentCaptureType st) (dom st) (narrated st) (alerts st)
    (captureUploads st).

Definition set_currentLineIndex (v : nat) (st : State) : State :=
  mkState (scriptData st) (currentSectionIndex st) v (timerInterval st)
    (isRecording st) (mediaRecorder st) (recordedChunks st) (stream st)
    (videoBlob st) (speechQueue st) (isAutoPlaying st) (capturedImages st)
    (currentCaptureType st) (dom st) (narrated st) (alerts st)
    (captureUploads st).

Definition set_timerInterval (v : bool) (st : State) : State :=
  mkState (scriptData st) (currentSectionIndex st) (currentLineIndex st) v
    (isRecording st) (mediaRecorder st) (recordedChunks st) (stream st)
    (videoBlob st) (speechQueue st) (isAutoPlaying st) (capturedImages st)
    (currentCaptureType st) (dom st) (narrated st) (alerts st)
    (captureUploads st).

Definition set_isRecording (v : bool) (st : State) : State :=
  mkState (scriptData st) (currentSectionIndex st) (currentLineIndex st)
    (timerInterval st) v (mediaRecorder st) (recordedChunks st) (stream st)
    (videoBlob st) (speechQueue st) (isAutoPlaying st) (capturedImages st)
    (currentCaptureType st) (dom st) (narrated st) (alerts st)
    (captureUploads st).

Definition set_mediaRecorder (v : option MediaRecorder) (st : State) : State :=
  mkState (scriptData st) (currentSectionIndex st) (currentLineIndex st)
    (timerInterval st) (isRecording st) v (recordedChunks st) (stream st)
    (videoBlob st) (speechQueue st) (isAutoPlaying st) (capturedImages st)
    (currentCaptureType st) (dom st) (narrated st) (alerts st)
    (captureUploads st).

Definition set_recordedChunks (v : list Chunk) (st : State) : State :=
  mkState (scriptData st) (currentSectionIndex st) (currentLineIndex st)
    (timerInterval st) (isRecording st) (mediaRecorder st) v (stream st)
    (videoBlob st) (speechQueue st) (isAutoPlaying st) (capturedImages st)
    (currentCaptureType st) (dom st) (narrated st) (alerts st)
    (captureUploads st).

Definition set_stream (v : bool) (st : State) : State :=
  mkState (scriptData st) (currentSectionIndex st) (currentLineIndex st)
    (timerInterval st) (isRecording st) (mediaRecorder st)
    (recordedChunks st) v (videoBlob st) (speechQueue st) (isAutoPlaying st)
    (capturedImages st) (currentCaptureType st) (dom st) (narrated st)
    (alerts st) (captureUploads st).

Definition set_videoBlob (v : option Blob) (st : State) : State :=
  mkState (scriptData st) (currentSectionIndex st) (currentLineIndex st)
    (timerInterval st) (isRecording st) (mediaRecorder st)
    (recordedChunks st) (stream st) v (speechQueue st) (isAutoPlaying st)
    (capturedImages st) (currentCaptureType st) (dom st) (narrated st)
    (alerts st) (captureUploads st).

Definition set_speechQueue (v : list Utterance) (st : State) : State :=
  mkState (scriptData st) (currentSectionIndex st) (currentLineIndex st)
    (timerInterval st) (isRecording st) (mediaRecorder st)
    (recordedChunks st) (stream st) (videoBlob st) v (isAutoPlaying st)
    (capturedImages st) (currentCaptureType st) (dom st) (narrated st)
    (alerts st) (captureUploads st).

Definition set_isAutoPlaying (v : bool) (st : State) : State :=
  mkState (scriptData st) (currentSectionIndex st) (currentLineIndex st)
    (timerInterval st) (isRecording st) (mediaRecorder st)
    (recordedChunks st) (stream st) (videoBlob st) (speechQueue st) v
    (capturedImages st) (currentCaptureType st) (dom st) (narrated st)
    (alerts st) (captureUploads st).

Definition set_capturedImages (v : list CapturedImage) (st : State) : State :=
  mkState (scriptData st) (currentSectionIndex st) (currentLineIndex st)
    (timerInterval st) (isRecording st) (mediaRecorder st)
    (recordedChunks st) (stream st) (videoBlob st) (speechQueue st)
    (isAutoPlaying st) v (currentCaptureType st) (dom st) (narrated st)
    (alerts st) (captureUploads st).

Definition set_currentCaptureType (v : option DocType) (st : State) : State :=
  mkState (scriptData st) (currentSectionIndex st) (currentLineIndex st)
    (timerInterval st) (isRecording st) (mediaRecorder st)
    (recordedChunks st) (stream st) (videoBlob st) (speechQueue st)
    (isAutoPlaying st) (capturedImages st) v (dom st) (narrated st)
    (alerts st) (captureUploads st).

Definition set_dom (v : Dom) (st : State) : State :=
  mkState (scriptData st) (currentSectionIndex st) (currentLineIndex st)
    (timerInterval st) (isRecording st) (mediaRecorder st)
    (recordedChunks st) (stream st) (videoBlob st) (speechQueue st)
    (isAutoPlaying st) (capturedImages st) (currentCaptureType st) v
    (narrated st) (alerts st) (captureUploads st).

Definition set_narrated (v : list Narration) (st : State) : State :=
  mkState (scriptData st) (currentSectionIndex st) (currentLineIndex st)
    (timerInterval st) (isRecording st) (mediaRecorder st)
    (recordedChunks st) (stream st) (videoBlob st) (speechQueue st)
    (isAutoPlaying st) (capturedImages st) (currentCaptureType st) (dom st)
    v (alerts st) (captureUploads st).

Definition set_alerts (v : list Alert) (st : State) : State :=
  mkState (scriptData st) (currentSectionIndex st) (currentLineIndex st)
    (timerInterval st) (isRecording st) (mediaRecorder st)
    (recordedChunks st) (stream st) (videoBlob st) (speechQueue st)
    (isAutoPlaying st) (capturedImages st) (currentCaptureType st) (dom st)
    (narrated st) v (captureUploads st).

Definition set_captureUploads (v : list (list CapturedImage)) (st : State) : State :=
  mkState (scriptData st) (currentSectionIndex st) (currentLineIndex st)
    (timerInterval st) (isRecording st) (mediaRecorder st)
    (recordedChunks st) (stream st) (videoBlob st) (speechQueue st)
    (isAutoPlaying st) (capturedImages st) (currentCaptureType st) (dom st)
    (narrated st) (alerts st) v.

(** A handler either returns or is aborted by a [TypeError]; the
    assignments made before the throw stay. *)
Inductive Completion :=
| Returned (st : State)
| Threw (st : State).

Definition stateOf (c : Completion) : State :=
  match c with
  | Returned st => st
  | Threw st => st
  end.

(** ** The functions of the page *)

Definition on_dom (f : Dom -> Dom) (st : State) : State :=
  set_dom (f (dom st)) st.

(** [hideAllOverlays] *)
Definition hideAllOverlays (st : State) : State :=
  on_dom (fun d =>
    with_capture_status false
      (with_document_indicator false
        (with_capture_overlay false
          (with_video_overlay false d)))) st.

(** [speechSynthesis.cancel()]: every utterance still held by the engine
    stops being spoken. *)
Definition cancelUtterance (u : Utterance) : Utterance :=
  mkUtterance (utterance_text u) (utterance_callback u) true.

Definition speechSynthesis_cancel (st : State) : State :=
  set_speechQueue (map cancelUtterance (speechQueue st)) st.

(** [text.replace(/pat/g, rep)] for a literal pattern: [skip] counts the
    characters of a match still to be dropped. *)
Fixpoint replaceAll_from (pat rep : string) (skip : nat) (s : string) : string :=
  match s with
  | EmptyString => EmptyString
  | String c rest =>
      match skip with
      | S k => replaceAll_from pat rep k rest
      | 0 =>
          if String.prefix pat s
          then (rep ++ replaceAll_from pat rep (String.length pat - 1) rest)%string
          else String c (replaceAll_from pat rep 0 rest)
      end
  end.

Definition replaceAll (pat rep s : string) : string :=
  replaceAll_from pat rep 0 s.

Definition replacePlaceholders (t : string) : string :=
  replaceAll "[Read address]" "123 Main Street, Mumbai, Maharashtra, 400001"
    (replaceAll "[Bank/NBFC Name]" "our organization"
      (replaceAll "[Bank Name]" "our bank"
        (replaceAll "[Customer Name]" "valued customer" t))).

(** [speakText(text, callback)] *)
Definition speakText (t : string) (callback : Callback) (st : State) : State :=
  let st := speechSynthesis_cancel st in
  let t := replacePlaceholders t in
  set_speechQueue (speechQueue st ++ [mkUtterance t callback false]) st.

(** [saveCapturedImages]: the request body sent to [/api/save-captures]. *)
Definition saveCapturedImages (st : State) : State :=
  set_captureUploads (captureUploads st ++ [capturedImages st]) st.

Definition recorder_stop (r : MediaRecorder) : MediaRecorder :=
  mkRecorder (started r) (S (stopCalls r)) (S (stopEventsDue r)).

(** [stopRecording] *)
Definition stopRecording (st : State) : State :=
  match mediaRecorder st with
  | Some r =>
      if isRecording st then
        let st := set_isAutoPlaying false st in
        let st := speechSynthesis_cancel st in
        let st := set_mediaRecorder (Some (recorder_stop r)) st in
        let st := set_isRecording false st in
        let st := set_timerInterval false st in
        let st := on_dom (with_stop_btn_disabled true) st in
        let st := hideAllOverlays st in
        let st := on_dom (with_fullscreen false) st in
        let st := on_dom (with_progress_full true) st in
        match capturedImages st with
        | [] => st
        | _ :: _ => saveCapturedImages st
        end
      else st
  | None => st
  end.

(** The loop of [collectGroupedLines], over the lines of the current
    section from index [idx]. *)
Equations? collectFrom (lines : list Line) (idx : nat) : list (Line * nat)
  by wf (length lines - idx) lt :=
collectFrom lines idx with inspect (nth_error lines idx) := {
  | exist _ (Some line) Hline with group_with_next line := {
      | true => (line, idx) :: collectFrom lines (S idx)
      | false => [(line, idx)] }
  | exist _ None _ => [] }.
Proof.
  assert (idx < length lines) by (apply nth_error_Some; congruence). lia.
Qed.

(** [collectGroupedLines]: [None] is the [TypeError] of reading
    [script_lines] of a missing script or section. *)
Definition collectGroupedLines (st : State) : option (list (Line * nat)) :=
  match scriptData st with
  | None => None
  | Some sd =>
      match nth_error (sections sd) (currentSectionIndex st) with
      | None => None
      | Some section =>
          Some (collectFrom (script_lines section) (currentLineIndex st))
      end
  end.

(** The document loop of [playNextLine]: one iteration updates
    [showDocument], [documentType] and [currentCaptureType] together. *)
Definition documentOf (line : Line) : option DocType :=
  match action_required line with
  | Some a =>
      if String.eqb a "customer_shows_pan" then Some pan
      else if String.eqb a "customer_shows_aadhaar" then Some aadhaar
      else None
  | None => None
  end.

Definition DocumentVars : Type := (bool * option DocType * option DocType)%type.

Definition documentStep (vars : DocumentVars) (item : Line * nat) : DocumentVars :=
  match documentOf (fst item) with
  | Some d => (true, Some d, Some d)
  | None => vars
  end.

Definition documentLoop (groupedLines : list (Line * nat))
    (captureType : option DocType) : DocumentVars :=
  fold_left documentStep groupedLines (false, None, captureType).

(** [groupedLines.map(item => item.line.text).join('. ')] *)
Definition combineText (groupedLines : list (Line * nat)) : string :=
  String.concat ". " (map (fun item => text (fst item)) groupedLines).

(** [groupedLines[groupedLines.length - 1]] *)
Definition lastItem (groupedLines : list (Line * nat)) : option (Line * nat) :=
  nth_error groupedLines (length groupedLines - 1).

(** The part of [playNextLine] after the end-of-section test: group the
    lines at the cursor and speak them. [speakGrouped] is the code that
    follows the reads of [lastLine] and [lastLineIndex]. *)
Definition speakGrouped (section : ScriptSection)
    (groupedLines : list (Line * nat)) (lastLine : Line) (lastIndex : nat)
    (st : State) : State :=
  let st := hideAllOverlays st in
  let combinedText := combineText groupedLines in
  let captureMode := capture_mode lastLine in
  let '(showDoc, documentType, captureType) :=
    documentLoop groupedLines (currentCaptureType st) in
  let st := set_currentCaptureType captureType st in
  let st :=
    match documentType with
    | Some d => on_dom (with_document_text (Some d)) st
    | None => st
    end in
  let autoTerminate :=
    section_auto_terminate section || auto_terminate lastLine in
  let st :=
    set_narrated
      (narrated st ++
         [mkNarration (currentSectionIndex st) (map snd groupedLines)
            (replacePlaceholders combinedText)]) st in
  speakText combinedText
    (mkCallback lastIndex autoTerminate captureMode showDoc) st.

Definition speakGroup (section : ScriptSection) (st : State) : Completion :=
  let groupedLines := collectFrom (script_lines section) (currentLineIndex st) in
  match lastItem groupedLines with
  | None => Threw st
  | Some (lastLine, lastIndex) =>
      Returned (speakGrouped section groupedLines lastLine lastIndex st)
  end.

(** Sections from the cursor's section to the end of the script. *)
Definition sectionsLeft (st : State) : nat :=
  match scriptData st with
  | Some sd => length (sections sd) - currentSectionIndex st
  | None => 0
  end.

Definition enterNextSection (st : State) : State :=
  set_currentLineIndex 0 (set_currentSectionIndex (S (currentSectionIndex st)) st).

(** The branch of [playNextLine] taken when the last section is exhausted:
    auto-play off, overlays hidden, recording stopped. *)
Definition finishScript (st : State) : State :=
  stopRecording (hideAllOverlays (set_isAutoPlaying false (enterNextSection st))).

(** [playNextLine] *)
Equations? playNextLine (st : State) : Completion by wf (sectionsLeft st) lt :=
playNextLine st with inspect (scriptData st) := {
  | exist _ None _ => Returned st
  | exist _ (Some sd) Hsd with isAutoPlaying st := {
      | false => Returned st
      | true with nth_error (sections sd) (currentSectionIndex st) := {
          | None => Threw st
          | Some section
              with (length (script_lines section) <=? currentLineIndex st) := {
              | false => speakGroup section st
              | true
                  with inspect
                         (length (sections sd) <=? S (currentSectionIndex st)) := {
                  | exist _ true _ => Returned (finishScript st)
                  | exist _ false Hmore => playNextLine (enterNextSection st) } } } } }.
Proof.
  unfold sectionsLeft. cbn. rewrite Hsd.
  apply Nat.leb_gt in Hmore. lia.
Qed.

(** The callback given to [speakText] by [playNextLine], run by the
    utterance's [onend] or [onerror]. *)
Definition showCaptureControls (showDoc : bool) (d : Dom) : Dom :=
  let d := if showDoc then with_document_indicator true d else d in
  with_capture_status false
    (with_capture_next_btn false
      (with_retake_btn false
        (with_capture_btn true
          (with_capture_overlay true d)))).

Definition runCallback (cb : Callback) (st : State) : Completion :=
  let st := set_currentLineIndex (lastLineIndex cb) st in
  if isAutoTerminate cb then
    playNextLine (set_currentLineIndex (S (currentLineIndex st)) st)
  else if isCaptureMode cb then
    Returned (on_dom (showCaptureControls (showDocument cb)) st)
  else
    Returned (on_dom (with_video_overlay true) st).

(** [handleNextQuestion] *)
Definition handleNextQuestion (st : State) : Completion :=
  if isAutoPlaying st then
    let st := hideAllOverlays st in
    playNextLine (set_currentLineIndex (S (currentLineIndex st)) st)
  else Returned st.

(** [handleCaptureNext] *)
Definition handleCaptureNext (st : State) : Completion :=
  if isAutoPlaying st then
    let st := hideAllOverlays st in
    playNextLine (set_currentLineIndex (S (currentLineIndex st)) st)
  else Returned st.

(** [captureImage]: [now] is [Date.now()] and [imageData] the frame drawn
    on the canvas. *)
Definition captureImage (now : nat) (imageData : string) (st : State) : State :=
  let st :=
    set_capturedImages
      (capturedImages st ++ [mkImage (currentCaptureType st) now imageData]) st in
  on_dom (fun d =>
    with_capture_next_btn true
      (with_retake_btn true
        (with_capture_btn false
          (with_capture_status true d)))) st.

(** [capturedImages.findIndex(img => img.type === currentCaptureType)]:
    the index of the first match, [None] for [-1]. *)
Fixpoint findIndex {A} (p : A -> bool) (l : list A) : option nat :=
  match l with
  | [] => None
  | x :: rest =>
      if p x then Some 0
      else match findIndex p rest with
           | Some i => Some (S i)
           | None => None
           end
  end.

(** [l.splice(i, 1)] *)
Definition splice1 {A} (i : nat) (l : list A) : list A :=
  firstn i l ++ skipn (S i) l.

(** [retakeImage] *)
Definition retakeImage (st : State) : State :=
  let st :=
    match findIndex (fun img => captureType_eqb (type img) (currentCaptureType st))
            (capturedImages st) with
    | Some lastIndex => set_capturedImages (splice1 lastIndex (capturedImages st)) st
    | None => st
    end in
  on_dom (fun d =>
    with_capture_next_btn false
      (with_retake_btn false
        (with_capture_btn true
          (with_capture_status false d)))) st.

(** [loadScript]: [response] is the parsed body of [/api/get-script],
    [None] when the fetch or the parse throws (the error is only written to
    the console). *)
Definition loadScript (response : option Script) (st : State) : State :=
  match response with
  | Some sd => set_scriptData (Some sd) st
  | None => st
  end.

Definition alert (a : Alert) (st : State) : State :=
  set_alerts (alerts st ++ [a]) st.

(** [startRecording]: [recorderOk] is whether [new MediaRecorder] accepts
    the stream and mime type; every exception of the body is caught and
    reported with an alert. *)
Definition startRecording (recorderOk : bool) (st : State) : State :=
  if negb (stream st) then alert AlertAllowWebcam st
  else
    let st := set_recordedChunks [] st in
    let st := set_capturedImages [] st in
    if negb recorderOk then alert AlertCouldNotStart st
    else
      let st := set_mediaRecorder (Some (mkRecorder true 0 0)) st in
      let st := set_isRecording true st in
      let st := on_dom (with_start_btn_disabled true) st in
      let st := on_dom (with_stop_btn_disabled false) st in
      let st := set_timerInterval true st in
      let st := on_dom (with_fullscreen true) st in
      let st := set_isAutoPlaying true st in
      let st := set_currentSectionIndex 0 st in
      let st := set_currentLineIndex 0 st in
      match playNextLine st with
      | Returned st => st
      | Threw st => alert AlertCouldNotStart st
      end.

(** [mediaRecorder.ondataavailable] *)
Definition onDataAvailable (chunk : Chunk) (st : State) : State :=
  if 0 <? length chunk then set_recordedChunks (recordedChunks st ++ [chunk]) st
  else st.

(** [mediaRecorder.onstop] *)
Definition onStop (st : State) : State :=
  let st := set_videoBlob (Some (concat (recordedChunks st))) st in
  let st := on_dom (with_download_btn_disabled false) st in
  on_dom (with_metadata_form true) st.

(** ** Events *)

(** What the browser can dispatch to the page. *)
Inductive Event :=
| ScriptResponse (response : option Script)
| ClickStart (recorderOk : bool)
| ClickStop
| ClickNext
| ClickCapture (now : nat) (imageData : string)
| ClickRetake
| ClickCaptureNext
| SpeechEvent (i : nat)
| DataAvailable (chunk : Chunk)
| RecorderStop.

(** The handler run for an event. [SpeechEvent i] is the [end] or [error]
    event of the [i]-th utterance held by the engine, which then forgets
    it; [RecorderStop] is a [stop] event the recorder owes. *)
Definition handle (e : Event) (st : State) : State :=
  match e with
  | ScriptResponse response => loadScript response st
  | ClickStart recorderOk => startRecording recorderOk st
  | ClickStop => stopRecording st
  | ClickNext => stateOf (handleNextQuestion st)
  | ClickCapture now imageData => captureImage now imageData st
  | ClickRetake => retakeImage st
  | ClickCaptureNext => stateOf (handleCaptureNext st)
  | SpeechEvent i =>
      match nth_error (speechQueue st) i with
      | Some u =>
          stateOf (runCallback (utterance_callback u)
                     (set_speechQueue (splice1 i (speechQueue st)) st))
      | None => st
      end
  | DataAvailable chunk => onDataAvailable chunk st
  | RecorderStop =>
      match mediaRecorder st with
      | Some r =>
          onStop (set_mediaRecorder
                    (Some (mkRecorder (started r) (stopCalls r)
                             (pred (stopEventsDue r)))) st)
      | None => st
      end
  end.

(** Modelled from the spec: the markup of the page, which places the
    buttons, is not among the sources. The specification has the user's
    "next" awaited in [AwaitingAdvance] and "capture", "retake" and
    "confirm" in the capture sub-flow only; on the page these states are the
    two overlays ([playNextLine] shows the video overlay for the "regular
    Next button" and the capture overlay for the "capture buttons", and
    hides both while it speaks). So the Next button is taken to live in the
    video overlay and the three capture buttons in the capture overlay.

    When the browser can dispatch the event: a disabled button gets no
    click, a button inside a hidden overlay cannot be clicked, the speech
    engine reports utterances it holds, the recorder reports data while it
    exists and a stop it owes. *)
Definition deliverable (e : Event) (st : State) : bool :=
  match e with
  | ScriptResponse _ => true
  | ClickStart _ => negb (start_btn_disabled (dom st))
  | ClickStop => negb (stop_btn_disabled (dom st))
  | ClickNext => video_overlay (dom st)
  | ClickCapture _ _ => capture_overlay (dom st) && capture_btn (dom st)
  | ClickRetake => capture_overlay (dom st) && retake_btn (dom st)
  | ClickCaptureNext => capture_overlay (dom st) && capture_next_btn (dom st)
  | SpeechEvent i => i <? length (speechQueue st)
  | DataAvailable _ =>
      match mediaRecorder st with
      | Some _ => true
      | None => false
      end
  | RecorderStop =>
      match mediaRecorder st with
      | Some r => 0 <? stopEventsDue r
      | None => false
      end
  end.

Definition step (st : State) (e : Event) : State :=
  if deliverable e st then handle e st else st.

Definition run (events : list Event) (st : State) : State :=
  fold_left step events st.

(** Modelled from the spec: the markup of the page is not among the
    sources; a session is created [Idle]. The page as loaded, before any
    event: the global variables at their initial values, nothing recorded,
    nothing spoken, overlays hidden, Start enabled, Stop and Download
    disabled. [hasStream] is the outcome of [initializeWebcam]. *)
Definition pageLoaded (hasStream : bool) : State :=
  mkState None 0 0 false false None [] hasStream None [] false [] None
    (mkDom false true true false false false false true false false None
       false false false)
    [] [] [].

(** ** Timer, download and progress bars *)

(** These read the session but do not change it. *)


(** [String(n)] for a count [n]: its decimal digits. *)
Definition numberToString (n : nat) : string :=
  DecimalString.NilEmpty.string_of_uint (Nat.to_uint n).

(** [s.padStart(2, '0')] *)
Definition padStart2 (s : string) : string :=
  match String.length s with
  | 0 => "00"
  | 1 => String "0" s
  | _ => s
  end.

(** [updateTimerDisplay]: the text written to the timer for [seconds]. *)
Definition updateTimerDisplay (seconds : nat) : string :=
  let minutes := seconds / 60 in
  let secs := seconds mod 60 in
  (padStart2 (numberToString minutes) ++ ":" ++ padStart2 (numberToString secs))%string.

(** [updateTimer]: one tick; the new count and the text shown. The tick
    also calls [updateProgressBars], which reads the session only. *)
Definition updateTimer (seconds : nat) : nat * string :=
  (S seconds, updateTimerDisplay (S seconds)).


(** What [downloadVideo] does when clicked at time [now]: the alert for a
    missing video, or the download of the blob under a file name that is
    also written to the metadata form. *)
Inductive DownloadOutcome :=
| NoVideoAlert
| Downloaded (filename : string) (content : Blob).

(** [downloadVideo] *)
Definition downloadVideo (now : nat) (st : State) : DownloadOutcome :=
  match videoBlob st with
  | None => NoVideoAlert
  | Some blob =>
      Downloaded ("video_kyc_" ++ numberToString now ++ ".webm")%string blob
  end.


(** The width [updateProgressBars] gives to a bar: [100%], [0%], or
    [(line / total) * 100] percent, kept as the two operands of the
    division. *)
Inductive BarWidth :=
| Full
| Part (line total : nat)
| Empty.

(** [updateProgressBars]: the widths for the bars of sections [0], [1],
    ..., as far as the page has such bars; [None] when it returns at the
    missing script. *)
Definition updateProgressBars (st : State) : option (list BarWidth) :=
  match scriptData st with
  | None => None
  | Some sd =>
      Some (map (fun item =>
                   let '(i, section) := item in
                   if i <? currentSectionIndex st then Full
                   else if i =? currentSectionIndex st
                        then Part (currentLineIndex st) (length (script_lines section))
                        else Empty)
              (combine (seq 0 (length (sections sd))) (sections sd)))
  end.


(** * Vocabulary of the properties *)

(** ** Groups, cursors and sessions *)

(** The group found at [idx]: [S n] consecutive lines, all but the last
    flagged [group_with_next]. *)
Definition groupOf (lines : list Line) (idx n : nat) : list (Line * nat) :=
  combine (firstn (S n) (skipn idx lines)) (seq idx (S n)).

(** The cursor [(currentSectionIndex, currentLineIndex)]. *)
Definition cursor (st : State) : nat * nat :=
  (currentSectionIndex st, currentLineIndex st).

(** Events other than the arrival of a script. *)
Definition noScriptArrives (e : Event) : bool :=
  match e with
  | ScriptResponse (Some _) => false
  | _ => true
  end.

(** Lexicographic order on cursors. *)
Definition cursor_le (a b : nat * nat) : Prop :=
  fst a < fst b \/ (fst a = fst b /\ snd a <= snd b).

(** The callback the speech engine holds for the group [groupedLines] of
    [section] ending in [lastLine]. *)
Definition callbackOf (section : ScriptSection) (groupedLines : list (Line * nat))
    (lastLine : Line) (lastIndex : nat) (captureType : option DocType) : Callback :=
  mkCallback lastIndex
    (section_auto_terminate section || auto_terminate lastLine)
    (capture_mode lastLine)
    (fst (fst (documentLoop groupedLines captureType))).

(** A session in progress: Start is disabled, and the speech engine holds
    at most one utterance; while it holds one the page shows no overlay and
    the utterance's group ends at or after the cursor. *)
Definition inSession (st : State) : Prop :=
  start_btn_disabled (dom st) = true /\
  match speechQueue st with
  | [] => True
  | [u] =>
      currentLineIndex st <= lastLineIndex (utterance_callback u) /\
      video_overlay (dom st) = false /\
      capture_overlay (dom st) = false
  | _ :: _ :: _ => False
  end.

(** ** Scripts that differ in flags that do not count *)

(** Two line lists that agree on texts, [group_with_next] and
    [action_required] everywhere, and on [capture_mode] and
    [auto_terminate] wherever a group can end: at a line without
    [group_with_next] and at the last line of the section. The flags of the
    other lines are free. *)
Fixpoint linesAgree (la lb : list Line) : Prop :=
  match la, lb with
  | [], [] => True
  | a :: la', b :: lb' =>
      text a = text b /\
      group_with_next a = group_with_next b /\
      action_required a = action_required b /\
      (group_with_next a = false \/ la' = [] ->
       capture_mode a = capture_mode b /\ auto_terminate a = auto_terminate b) /\
      linesAgree la' lb'
  | _, _ => False
  end.

Definition sectionAgree (a b : ScriptSection) : Prop :=
  section_auto_terminate a = section_auto_terminate b /\
  linesAgree (script_lines a) (script_lines b).

Definition scriptAgree (a b : Script) : Prop :=
  Forall2 sectionAgree (sections a) (sections b).

(** The same comparison as a test. *)
Definition tag_eqb (a b : option string) : bool :=
  match a, b with
  | Some x, Some y => String.eqb x y
  | None, None => true
  | _, _ => false
  end.

Fixpoint sameButInnerFlags (la lb : list Line) : bool :=
  match la, lb with
  | [], [] => true
  | a :: la', b :: lb' =>
      String.eqb (text a) (text b) &&
      Bool.eqb (group_with_next a) (group_with_next b) &&
      tag_eqb (action_required a) (action_required b) &&
      (if group_with_next a && negb (length la' =? 0) then true
       else Bool.eqb (capture_mode a) (capture_mode b) &&
            Bool.eqb (auto_terminate a) (auto_terminate b)) &&
      sameButInnerFlags la' lb'
  | _, _ => false
  end.

Definition sameSection (a b : ScriptSection) : bool :=
  Bool.eqb (section_auto_terminate a) (section_auto_terminate b) &&
  sameButInnerFlags (script_lines a) (script_lines b).

Fixpoint sameSections (la lb : list ScriptSection) : bool :=
  match la, lb with
  | [], [] => true
  | a :: la', b :: lb' => sameSection a b && sameSections la' lb'
  | _, _ => false
  end.

Definition sameScript (a b : Script) : bool :=
  sameSections (sections a) (sections b).

(** The document of the last line of the group that carries a recognised
    tag, as the amended C3 words it. *)
Fixpoint lastDocument (groupedLines : list (Line * nat)) : option DocType :=
  match groupedLines with
  | [] => None
  | item :: rest =>
      match lastDocument rest with
      | Some d => Some d
      | None => documentOf (fst item)
      end
  end.

(** What [playNextLine] reads of a group: per line the text, the document
    tag and the index; of the last line also the two flags. *)
Definition lineView (item : Line * nat) : string * option string * nat :=
  (text (fst item), action_required (fst item), snd item).

Definition lastFlags (groupedLines : list (Line * nat)) : option (bool * bool * nat) :=
  match lastItem groupedLines with
  | Some (line, index) => Some (capture_mode line, auto_terminate line, index)
  | None => None
  end.

Definition mapCompletion (f : State -> State) (c : Completion) : Completion :=
  match c with
  | Returned st => Returned (f st)
  | Threw st => Threw (f st)
  end.

(** ** Traversal of the whole script *)


(** The positions [(section, line)] of the lines of [secs], in order, the
    first section being number [s]. *)
Fixpoint positionsFrom (s : nat) (secs : list ScriptSection) : list (nat * nat) :=
  match secs with
  | [] => []
  | section :: rest =>
      map (pair s) (seq 0 (length (script_lines section))) ++
      positionsFrom (S s) rest
  end.

Definition allLines (sd : Script) : list (nat * nat) :=
  positionsFrom 0 (sections sd).

(** The positions from the cursor [c] to the end of the script. *)
Definition remaining (sd : Script) (c : nat * nat) : list (nat * nat) :=
  match nth_error (sections sd) (fst c) with
  | Some section =>
      map (pair (fst c)) (seq (snd c) (length (script_lines section) - snd c))
  | None => []
  end ++ positionsFrom (S (fst c)) (skipn (S (fst c)) (sections sd)).

(** The positions of the lines narrated so far, in the order spoken. *)
Definition narratedLines (st : State) : list (nat * nat) :=
  flat_map (fun n => map (pair (narration_section n)) (narration_lines n))
    (narrated st).

(** A session that is auto-playing the script [sd] while recording. *)
Definition playing (sd : Script) (st : State) : Prop :=
  scriptData st = Some sd /\
  isAutoPlaying st = true /\
  isRecording st = true /\
  exists r, mediaRecorder st = Some r.

(** The session after the end of the script. *)
Definition finished (sd : Script) (st : State) : Prop :=
  isAutoPlaying st = false /\
  isRecording st = false /\
  speechQueue st = [] /\
  video_overlay (dom st) = false /\
  capture_overlay (dom st) = false /\
  cursor st = (length (sections sd), 0).

(** A session on the script [sd] with any flags: what has been narrated is
    an initial part of the script, all of it once the cursor is past the
    last section; while the page auto-plays, the rest starts one past the
    unit being spoken or awaited, which lies inside the cursor's section. *)
Definition following (sd : Script) (before : list (nat * nat)) (st : State) : Prop :=
  scriptData st = Some sd /\
  start_btn_disabled (dom st) = true /\
  exists rest,
    narratedLines st ++ rest = before ++ allLines sd /\
    (currentSectionIndex st = length (sections sd) -> rest = []) /\
    (isAutoPlaying st = true ->
     isRecording st = true /\
     (exists r, mediaRecorder st = Some r) /\
     exists section,
       nth_error (sections sd) (currentSectionIndex st) = Some section /\
       match speechQueue st with
       | [] =>
           currentLineIndex st < length (script_lines section) /\
           rest = remaining sd (currentSectionIndex st, S (currentLineIndex st))
       | [u] =>
           video_overlay (dom st) = false /\
           capture_overlay (dom st) = false /\
           currentLineIndex st <= lastLineIndex (utterance_callback u) /\
           lastLineIndex (utterance_callback u) < length (script_lines section) /\
           rest = remaining sd (currentSectionIndex st,
                                S (lastLineIndex (utterance_callback u)))
       | _ :: _ :: _ => False
       end).

(** A user who always does what the page waits for: lets the utterance
    end, clicks Next when the Next overlay shows, captures and confirms when
    the capture overlay shows. *)
Definition cooperate (st : State) : option Event :=
  match speechQueue st with
  | _ :: _ => Some (SpeechEvent 0)
  | [] =>
      if video_overlay (dom st) then Some ClickNext
      else if capture_overlay (dom st) then
        if capture_btn (dom st) then
          Some (ClickCapture (length (capturedImages st)) "frame")
        else if capture_next_btn (dom st) then Some ClickCaptureNext
        else None
      else None
  end.

Fixpoint drive (n : nat) (st : State) : State :=
  match n with
  | 0 => st
  | S k =>
      match cooperate st with
      | Some e => drive k (step st e)
      | None => st
      end
  end.

(** ** Narration units *)

(** The grouping as the specification words it, over the lines of a section
    from index [idx]: a unit is a maximal run of consecutive lines of which
    every line but the last has [group_with_next]; [pending] holds the
    indices of the unit being collected. *)
Fixpoint groupsOf (lines : list Line) (idx : nat) (pending : list nat)
    : list (list nat) :=
  match lines with
  | [] =>
      match pending with
      | [] => []
      | _ :: _ => [pending]
      end
  | line :: rest =>
      if group_with_next line then groupsOf rest (S idx) (pending ++ [idx])
      else (pending ++ [idx]) :: groupsOf rest (S idx) []
  end.

(** The units of [secs], each with the number of its section, the first
    section being number [s]. *)
Fixpoint unitsFrom (s : nat) (secs : list ScriptSection) : list (nat * list nat) :=
  match secs with
  | [] => []
  | section :: rest =>
      map (pair s) (groupsOf (script_lines section) 0 []) ++ unitsFrom (S s) rest
  end.

Definition allUnits (sd : Script) : list (nat * list nat) :=
  unitsFrom 0 (sections sd).

(** The units from the cursor [c] to the end of the script. *)
Definition remainingUnits (sd : Script) (c : nat * nat) : list (nat * list nat) :=
  match nth_error (sections sd) (fst c) with
  | Some section =>
      map (pair (fst c)) (groupsOf (skipn (snd c) (script_lines section)) (snd c) [])
  | None => []
  end ++ unitsFrom (S (fst c)) (skipn (S (fst c)) (sections sd)).

(** The units narrated so far: section and line indices of each utterance,
    in the order spoken. *)
Definition narratedUnits (st : State) : list (nat * list nat) :=
  map (fun n => (narration_section n, narration_lines n)) (narrated st).

(** ** Pages and scripts of the examples *)

(** The page with a webcam stream and the script [sd] loaded. *)
Definition readyPage (sd : Script) : State :=
  loadScript (Some sd) (pageLoaded true).

(** A script with a two-line group, an empty section, two capture lines
    and a closing section flagged [auto_terminate]. *)
Definition demoScript : Script :=
  mkScript
    [ mkSection "Intro" false
        [ mkLine "Hello [Customer Name]" true false None false;
          mkLine "Welcome to [Bank Name]" false false None false ];
      mkSection "Empty" false [];
      mkSection "Documents" false
        [ mkLine "Show PAN" false true (Some "customer_shows_pan") false;
          mkLine "Show PAN again" false true None false ];
      mkSection "Closing" true
        [ mkLine "Thanks" false false None false;
          mkLine "Bye" false false None false ] ].

(** A script whose first line carries [auto_terminate] and is followed by
    another line. *)
Definition earlyTerminateScript : Script :=
  mkScript
    [ mkSection "Only" false
        [ mkLine "Goodbye" false false None true;
          mkLine "One more thing" false false None false ] ].

(** Two scripts with the same narration where the first line of the group
    carries a document tag in one and none in the other. *)
Definition taggedFirstLine (tag : option string) : Script :=
  mkScript
    [ mkSection "Documents" false
        [ mkLine "Please hold up your card" true false tag false;
          mkLine "Keep it steady" false true None false ] ].

(** Two scripts that differ only in the flags of the first line of a
    two-line group. *)
Definition innerFlagsScript (flag : bool) : Script :=
  mkScript
    [ mkSection "Documents" false
        [ mkLine "Please hold up your card" true flag
            (Some "customer_shows_pan") flag;
          mkLine "Keep it steady" false true None false ] ].

(** A script without [auto_terminate]: a two-line group, an empty section
    and two capture lines. *)
Definition plainScript : Script :=
  mkScript
    [ mkSection "Intro" false
        [ mkLine "Hello [Customer Name]" true false None false;
          mkLine "Welcome to [Bank Name]" false false None false ];
      mkSection "Empty" false [];
      mkSection "Documents" false
        [ mkLine "Show PAN" false true (Some "customer_shows_pan") false;
          mkLine "Show Aadhaar" false true (Some "customer_shows_aadhaar") false ] ].

(** ** Controls of a recording *)

(** The controls agree with the recording: the timer runs, narration
    auto-plays and Stop is enabled exactly while recording; a recorder
    exists only once Start is disabled, and it has been stopped once if the
    recording is over and never while it lasts. *)
Definition controlsAgree (st : State) : Prop :=
  timerInterval st = isRecording st /\
  isAutoPlaying st = isRecording st /\
  stop_btn_disabled (dom st) = negb (isRecording st) /\
  match mediaRecorder st with
  | Some r =>
      start_btn_disabled (dom st) = true /\
      stopCalls r = (if isRecording st then 0 else 1) /\
      stopEventsDue r <= stopCalls r
  | None => isRecording st = false
  end.

(** ** The recorded video *)

(** The data the recorder delivers in [events] and [ondataavailable]
    keeps: the chunks that are not empty, in order. *)
Definition chunksOf (events : list Event) : list Chunk :=
  flat_map (fun e =>
              match e with
              | DataAvailable chunk => if 0 <? length chunk then [chunk] else []
              | _ => []
              end) events.

(** A recording that is over and whose recorder has reported its stop. *)
Definition settled (st : State) : Prop :=
  start_btn_disabled (dom st) = true /\
  isRecording st = false /\
  isAutoPlaying st = false /\
  exists r, mediaRecorder st = Some r /\ stopEventsDue r = 0.

(** ** The upload of the captured images *)

(** A session that has sent at most one request to [/api/save-captures]
    beyond those in [base], with at least one image, and not before the
    recording was over. *)
Definition uploadedOnce (base : list (list CapturedImage)) (st : State) : Prop :=
  start_btn_disabled (dom st) = true /\
  (captureUploads st = base \/
   (isRecording st = false /\
    exists images, images <> [] /\ captureUploads st = base ++ [images])).

(** ** What the page shows *)

(** The last captured image is of the document being captured. *)
Definition capturePending (st : State) : Prop :=
  exists images image,
    capturedImages st = images ++ [image] /\
    type image = currentCaptureType st.

(** What the page shows fits what it is doing. Before Start nothing is
    spoken or shown. The speech engine holds at most one utterance, and no
    overlay is shown while it holds one. The two overlays are never shown
    together, and the document indicator and the capture status only inside
    the capture overlay. In the capture overlay either Capture alone is
    offered, or Retake and Confirm with the status, and then an image of
    the current document has been captured. *)
Definition displaySound (st : State) : Prop :=
  (start_btn_disabled (dom st) = false ->
   speechQueue st = [] /\ isAutoPlaying st = false /\
   video_overlay (dom st) = false /\ capture_overlay (dom st) = false) /\
  match speechQueue st with
  | [] => True
  | [_] => video_overlay (dom st) = false /\ capture_overlay (dom st) = false
  | _ :: _ :: _ => False
  end /\
  (video_overlay (dom st) = true -> capture_overlay (dom st) = false) /\
  (capture_overlay (dom st) = false ->
   document_indicator (dom st) = false /\ capture_status (dom st) = false) /\
  (capture_overlay (dom st) = true ->
   capture_btn (dom st) = negb (capture_next_btn (dom st)) /\
   retake_btn (dom st) = capture_next_btn (dom st) /\
   capture_status (dom st) = capture_next_btn (dom st) /\
   (capture_next_btn (dom st) = true -> capturePending st)).

(** ** Narration texts with placeholders *)

(** A narration text cut into pieces: plain text and the four placeholders
    [speakText] knows. *)
Inductive Piece :=
| Plain (s : string)
| CustomerName
| BankName
| BankNBFCName
| ReadAddress.

(** The piece as written in the script. *)
Definition written (p : Piece) : string :=
  match p with
  | Plain s => s
  | CustomerName => "[Customer Name]"
  | BankName => "[Bank Name]"
  | BankNBFCName => "[Bank/NBFC Name]"
  | ReadAddress => "[Read address]"
  end.

(** The piece as it is to be spoken. *)
Definition spoken (p : Piece) : string :=
  match p with
  | Plain s => s
  | CustomerName => "valued customer"
  | BankName => "our bank"
  | BankNBFCName => "our organization"
  | ReadAddress => "123 Main Street, Mumbai, Maharashtra, 400001"
  end.

Definition joined (f : Piece -> string) (pieces : list Piece) : string :=
  fold_right (fun p s => (f p ++ s)%string) EmptyString pieces.

(** No opening bracket occurs in [s]. *)
Fixpoint bracketFree (s : string) : bool :=
  match s with
  | EmptyString => true
  | String c rest => negb (Ascii.eqb c "[") && bracketFree rest
  end.

(** Every opening bracket of the text starts one of the placeholders. *)
Definition plainPieces (pieces : list Piece) : bool :=
  forallb (fun p => match p with Plain s => bracketFree s | _ => true end) pieces.

(** The text after the first [k] replacements of [speakText]. *)
Definition afterPass (k : nat) (p : Piece) : string :=
  match p with
  | Plain s => s
  | CustomerName => if 1 <=? k then spoken p else written p
  | BankName => if 2 <=? k then spoken p else written p
  | BankNBFCName => if 3 <=? k then spoken p else written p
  | ReadAddress => if 4 <=? k then spoken p else written p
  end.

(** ** Timer, download and progress bars *)

(** The number a string of decimal digits denotes. *)
Definition readNumber (s : string) : option nat :=
  option_map Nat.of_uint (DecimalString.NilEmpty.uint_of_string s).

(** The Download button is enabled only when there is a video. *)
Definition downloadReady (st : State) : Prop :=
  download_btn_disabled (dom st) = false -> exists blob, videoBlob st = Some blob.

(** A width that is a percentage between 0 and 100: the division is
    defined and its result at most one. *)
Definition properWidth (w : BarWidth) : Prop :=
  match w with
  | Part line total => 0 < total /\ line <= total
  | Full | Empty => True
  end.

(** The cursor lies inside its section, and so does the end of every unit
    the speech engine still holds. *)
Definition withinSection (sd : Script) (st : State) : Prop :=
  match nth_error (sections sd) (currentSectionIndex st) with
  | None => True
  | Some section =>
      0 < length (script_lines section) /\
      currentLineIndex st <= length (script_lines section) /\
      Forall (fun u => lastLineIndex (utterance_callback u) <
                       length (script_lines section))
        (speechQueue st)
  end.


(** * Properties *)

(** ** Grouping *)

Example collectFrom_ex :
  map snd (collectFrom [mkLine "a" true false None false;
                        mkLine "b" false false None false;
                        mkLine "c" false false None false] 0) = [0; 1].
Proof. reflexivity. Qed.

Lemma collectFrom_step (lines : list Line) (idx : nat) :
  collectFrom lines idx =
  match nth_error lines idx with
  | Some line =>
      if group_with_next line then (line, idx) :: collectFrom lines (S idx)
      else [(line, idx)]
  | None => []
  end.
Proof.
  funelim (collectFrom lines idx);
    match goal with
    | E : nth_error _ _ = _ |- _ => rewrite E
    end;
    try match goal with
    | E : group_with_next _ = _ |- _ => rewrite E
    end; reflexivity.
Qed.


Lemma skipn_nth_error_cons {A} (l : list A) (i : nat) (x : A) :
  nth_error l i = Some x -> skipn i l = x :: skipn (S i) l.
Proof.
  revert i. induction l as [|y l IH]; intros [|i] H; simpl in *; try discriminate.
  - congruence.
  - apply IH. exact H.
Qed.

Lemma collectFrom_group (lines : list Line) (idx : nat) :
  idx < length lines ->
  exists n,
    idx + n < length lines /\
    collectFrom lines idx = groupOf lines idx n /\
    (forall j line, j < n -> nth_error lines (idx + j) = Some line ->
                    group_with_next line = true) /\
    (forall line, nth_error lines (idx + n) = Some line ->
                  group_with_next line = false \/ idx + n + 1 = length lines).
Proof.
  remember (length lines - idx) as m eqn:Hm.
  revert idx Hm. induction m as [|m IH]; intros idx Hm Hlt; [lia|].
  rewrite collectFrom_step.
  destruct (nth_error lines idx) as [line|] eqn:Hline;
    [|apply nth_error_None in Hline; lia].
  destruct (group_with_next line) eqn:Hg.
  - destruct (Nat.eq_dec (S idx) (length lines)) as [Hend|Hmore].
    + exists 0. rewrite Nat.add_0_r. repeat split.
      * exact Hlt.
      * rewrite collectFrom_step.
        assert (Hnone : nth_error lines (S idx) = None)
          by (apply nth_error_None; lia).
        rewrite Hnone. unfold groupOf.
        rewrite (skipn_nth_error_cons _ _ _ Hline). reflexivity.
      * intros j l Hj. lia.
      * intros l _. right. lia.
    + destruct (IH (S idx)) as [n [Hn [Heq [Hall Hlast]]]]; try lia.
      exists (S n). repeat split.
      * lia.
      * rewrite Heq. unfold groupOf.
        rewrite (skipn_nth_error_cons _ _ _ Hline). reflexivity.
      * intros j l Hj Hnth. destruct j as [|j].
        -- rewrite Nat.add_0_r in Hnth. congruence.
        -- apply (Hall j l); [lia|].
           replace (S idx + j) with (idx + S j) by lia. exact Hnth.
      * intros l Hnth.
        replace (idx + S n) with (S idx + n) in * by lia.
        destruct (Hlast l Hnth); [left; assumption | right; lia].
  - exists 0. rewrite Nat.add_0_r. repeat split.
    + exact Hlt.
    + unfold groupOf. rewrite (skipn_nth_error_cons _ _ _ Hline). reflexivity.
    + intros j l Hj. lia.
    + intros l Hnth. left. congruence.
Qed.

Lemma map_fst_combine {A B} (la : list A) (lb : list B) :
  length la = length lb -> map fst (combine la lb) = la.
Proof.
  revert lb. induction la as [|a la IH]; intros [|b lb] H; simpl in *;
    try discriminate; [reflexivity|].
  f_equal. apply IH. congruence.
Qed.

Lemma map_snd_combine {A B} (la : list A) (lb : list B) :
  length la = length lb -> map snd (combine la lb) = lb.
Proof.
  revert lb. induction la as [|a la IH]; intros [|b lb] H; simpl in *;
    try discriminate; [reflexivity|].
  f_equal. apply IH. congruence.
Qed.

Lemma groupOf_indices (lines : list Line) (idx n : nat) :
  idx + n < length lines ->
  map snd (groupOf lines idx n) = seq idx (S n).
Proof.
  intros H. unfold groupOf. apply map_snd_combine.
  rewrite length_seq, length_firstn, length_skipn. lia.
Qed.

Lemma groupOf_lines (lines : list Line) (idx n : nat) :
  idx + n < length lines ->
  map fst (groupOf lines idx n) = firstn (S n) (skipn idx lines).
Proof.
  intros H. unfold groupOf. apply map_fst_combine.
  rewrite length_seq, length_firstn, length_skipn. lia.
Qed.

Lemma groupOf_length (lines : list Line) (idx n : nat) :
  idx + n < length lines -> length (groupOf lines idx n) = S n.
Proof.
  intros H. rewrite <- (length_map snd), groupOf_indices by exact H.
  apply length_seq.
Qed.

Lemma groupOf_nth (lines : list Line) (idx n j : nat) (line : Line) :
  idx + n < length lines -> j <= n ->
  nth_error lines (idx + j) = Some line ->
  nth_error (groupOf lines idx n) j = Some (line, idx + j).
Proof.
  intros Hn Hj Hline.
  assert (Hlen : j < length (groupOf lines idx n))
    by (rewrite groupOf_length by exact Hn; lia).
  destruct (nth_error (groupOf lines idx n) j) as [[l i]|] eqn:E;
    [|apply nth_error_None in E; lia].
  assert (Hi : nth_error (map snd (groupOf lines idx n)) j = Some i)
    by (rewrite nth_error_map, E; reflexivity).
  assert (Hl : nth_error (map fst (groupOf lines idx n)) j = Some l)
    by (rewrite nth_error_map, E; reflexivity).
  rewrite groupOf_indices in Hi by exact Hn.
  rewrite groupOf_lines in Hl by exact Hn.
  rewrite nth_error_seq in Hi.
  destruct (Nat.ltb_spec j (S n)) as [_|Hbad]; [|lia].
  rewrite nth_error_firstn in Hl.
  destruct (Nat.ltb_spec j (S n)) as [_|Hbad]; [|lia].
  rewrite nth_error_skipn in Hl.
  congruence.
Qed.

Lemma groupOf_lastItem (lines : list Line) (idx n : nat) (line : Line) :
  idx + n < length lines ->
  nth_error lines (idx + n) = Some line ->
  lastItem (groupOf lines idx n) = Some (line, idx + n).
Proof.
  intros Hn Hline. unfold lastItem.
  rewrite groupOf_length by exact Hn.
  replace (S n - 1) with n by lia.
  apply groupOf_nth; auto.
Qed.

(** C6. For a cursor inside a section, [collectGroupedLines] returns (the
    loop is a total function) the [S n] consecutive lines from the cursor,
    each paired with its index: every line before the last has
    [group_with_next] set, the last one has it cleared or is the last line
    of the section; the indices are the consecutive [idx .. idx + n], so no
    line is visited twice and all of them lie inside the current section. *)
Theorem collectGroupedLines_spec (st : State) (sd : Script) (section : ScriptSection) :
  scriptData st = Some sd ->
  nth_error (sections sd) (currentSectionIndex st) = Some section ->
  currentLineIndex st < length (script_lines section) ->
  let lines := script_lines section in
  let idx := currentLineIndex st in
  exists n groupedLines,
    collectGroupedLines st = Some groupedLines /\
    idx + n < length lines /\
    map fst groupedLines = firstn (S n) (skipn idx lines) /\
    map snd groupedLines = seq idx (S n) /\
    NoDup (map snd groupedLines) /\
    (forall item, In item groupedLines ->
       nth_error lines (snd item) = Some (fst item) /\
       idx <= snd item < length lines) /\
    (forall j line, j < n -> nth_error lines (idx + j) = Some line ->
       group_with_next line = true) /\
    (forall line, nth_error lines (idx + n) = Some line ->
       group_with_next line = false \/ idx + n + 1 = length lines).
Proof.
  intros Hsd Hsec Hlt lines idx.
  destruct (collectFrom_group lines idx Hlt) as [n [Hn [Heq [Hall Hlast]]]].
  exists n, (groupOf lines idx n).
  unfold collectGroupedLines. rewrite Hsd, Hsec. fold lines idx. rewrite Heq.
  repeat split.
  - exact Hn.
  - apply groupOf_lines; exact Hn.
  - apply groupOf_indices; exact Hn.
  - rewrite groupOf_indices by exact Hn. apply seq_NoDup.
  - destruct (In_nth_error _ _ H) as [j Hj].
    assert (Hjn : j < S n).
    { rewrite <- (groupOf_length lines idx n Hn).
      apply nth_error_Some. congruence. }
    destruct (nth_error lines (idx + j)) as [line|] eqn:Hline;
      [|apply nth_error_None in Hline; lia].
    rewrite (groupOf_nth lines idx n j line Hn) in Hj by (auto; lia).
    injection Hj as <-. exact Hline.
  - destruct (In_nth_error _ _ H) as [j Hj].
    assert (Hjn : j < S n).
    { rewrite <- (groupOf_length lines idx n Hn).
      apply nth_error_Some. congruence. }
    destruct (nth_error lines (idx + j)) as [line|] eqn:Hline;
      [|apply nth_error_None in Hline; lia].
    rewrite (groupOf_nth lines idx n j line Hn) in Hj by (auto; lia).
    injection Hj as <-. simpl. lia.
  - destruct (In_nth_error _ _ H) as [j Hj].
    assert (Hjn : j < S n).
    { rewrite <- (groupOf_length lines idx n Hn).
      apply nth_error_Some. congruence. }
    destruct (nth_error lines (idx + j)) as [line|] eqn:Hline;
      [|apply nth_error_None in Hline; lia].
    rewrite (groupOf_nth lines idx n j line Hn) in Hj by (auto; lia).
    injection Hj as <-. simpl. lia.
  - exact Hall.
  - exact Hlast.
Qed.

Lemma collectGroupedLines_spec_witness :
  exists n groupedLines,
    collectGroupedLines (readyPage demoScript) = Some groupedLines /\
    0 + n < 2 /\
    map fst groupedLines =
      firstn (S n)
        [ mkLine "Hello [Customer Name]" true false None false;
          mkLine "Welcome to [Bank Name]" false false None false ] /\
    map snd groupedLines = seq 0 (S n) /\
    NoDup (map snd groupedLines) /\
    (forall item, In item groupedLines ->
       nth_error
         [ mkLine "Hello [Customer Name]" true false None false;
           mkLine "Welcome to [Bank Name]" false false None false ]
         (snd item) = Some (fst item) /\
       0 <= snd item < 2) /\
    (forall j line, j < n ->
       nth_error
         [ mkLine "Hello [Customer Name]" true false None false;
           mkLine "Welcome to [Bank Name]" false false None false ]
         (0 + j) = Some line ->
       group_with_next line = true) /\
    (forall line,
       nth_error
         [ mkLine "Hello [Customer Name]" true false None false;
           mkLine "Welcome to [Bank Name]" false false None false ]
         (0 + n) = Some line ->
       group_with_next line = false \/ 0 + n + 1 = 2).
Proof.
  apply (collectGroupedLines_spec (readyPage demoScript) demoScript
           (mkSection "Intro" false
              [ mkLine "Hello [Customer Name]" true false None false;
                mkLine "Welcome to [Bank Name]" false false None false ])).
  - reflexivity.
  - reflexivity.
  - simpl. lia.
Defined.

(** ** Unfolding and induction for [playNextLine] *)

Lemma playNextLine_step (st : State) :
  playNextLine st =
  match scriptData st with
  | None => Returned st
  | Some sd =>
      if isAutoPlaying st then
        match nth_error (sections sd) (currentSectionIndex st) with
        | None => Threw st
        | Some section =>
            if length (script_lines section) <=? currentLineIndex st then
              if length (sections sd) <=? S (currentSectionIndex st)
              then Returned (finishScript st)
              else playNextLine (enterNextSection st)
            else speakGroup section st
        end
      else Returned st
  end.
Proof.
  funelim (playNextLine st);
    repeat match goal with
    | E : scriptData _ = _ |- _ => rewrite E
    | E : isAutoPlaying _ = _ |- _ => rewrite E
    | E : nth_error _ _ = _ |- _ => rewrite E
    | E : (_ <=? _) = _ |- _ => rewrite E
    end; reflexivity.
Qed.

Section PlayNextLineInduction.

Variable P : State -> Completion -> Prop.

Hypothesis noScript : forall st,
  scriptData st = None -> P st (Returned st).
Hypothesis notPlaying : forall st,
  isAutoPlaying st = false -> P st (Returned st).
Hypothesis noSection : forall st sd,
  scriptData st = Some sd -> isAutoPlaying st = true ->
  nth_error (sections sd) (currentSectionIndex st) = None ->
  P st (Threw st).
Hypothesis speak : forall st sd section,
  scriptData st = Some sd -> isAutoPlaying st = true ->
  nth_error (sections sd) (currentSectionIndex st) = Some section ->
  currentLineIndex st < length (script_lines section) ->
  P st (speakGroup section st).
Hypothesis finish : forall st sd section,
  scriptData st = Some sd -> isAutoPlaying st = true ->
  nth_error (sections sd) (currentSectionIndex st) = Some section ->
  length (script_lines section) <= currentLineIndex st ->
  length (sections sd) <= S (currentSectionIndex st) ->
  P st (Returned (finishScript st)).
Hypothesis nextSection : forall st sd section,
  scriptData st = Some sd -> isAutoPlaying st = true ->
  nth_error (sections sd) (currentSectionIndex st) = Some section ->
  length (script_lines section) <= currentLineIndex st ->
  S (currentSectionIndex st) < length (sections sd) ->
  P (enterNextSection st) (playNextLine (enterNextSection st)) ->
  P st (playNextLine (enterNextSection st)).

Lemma playNextLine_cases (st : State) : P st (playNextLine st).
Proof.
  remember (sectionsLeft st) as m eqn:Hm.
  revert st Hm. induction m as [m IH] using lt_wf_ind. intros st Hm.
  rewrite playNextLine_step.
  destruct (scriptData st) as [sd|] eqn:Hsd; [|auto].
  destruct (isAutoPlaying st) eqn:Hplay; [|auto].
  destruct (nth_error (sections sd) (currentSectionIndex st))
    as [section|] eqn:Hsec; [|eauto].
  destruct (Nat.leb_spec (length (script_lines section)) (currentLineIndex st))
    as [Hend|Hin]; [|eauto].
  destruct (Nat.leb_spec (length (sections sd)) (S (currentSectionIndex st)))
    as [Hlast|Hmore]; [eauto|].
  eapply nextSection; eauto.
  eapply IH; [|reflexivity].
  subst m. unfold sectionsLeft. cbn. rewrite Hsd. lia.
Qed.

End PlayNextLineInduction.

(** ** User signals outside auto-play *)

Lemma playNextLine_not_playing (st : State) :
  isAutoPlaying st = false -> playNextLine st = Returned st.
Proof.
  intros H. rewrite playNextLine_step, H. destruct (scriptData st); reflexivity.
Qed.

Lemma playNextLine_no_script (st : State) :
  scriptData st = None -> playNextLine st = Returned st.
Proof.
  intros H. rewrite playNextLine_step, H. reflexivity.
Qed.

Lemma stopRecording_ends_autoplay (st : State) (r : MediaRecorder) :
  mediaRecorder st = Some r -> isRecording st = true ->
  isAutoPlaying (stopRecording st) = false.
Proof.
  intros Hr Hrec. unfold stopRecording. rewrite Hr, Hrec. cbn.
  destruct (capturedImages st); reflexivity.
Qed.

Lemma finishScript_ends_autoplay (st : State) :
  isAutoPlaying (finishScript st) = false.
Proof.
  unfold finishScript, stopRecording. cbn.
  destruct (mediaRecorder st); [|reflexivity].
  destruct (isRecording st); [|reflexivity].
  destruct (capturedImages st); reflexivity.
Qed.

(** C10. When auto-play is off, [handleNextQuestion] and
    [handleCaptureNext] return at their first line: the state is the one
    they were called with, so the cursor is unchanged, nothing is handed to
    the speech engine and nothing is narrated. *)
Theorem next_signals_ignored_without_autoplay (st : State) :
  isAutoPlaying st = false ->
  handleNextQuestion st = Returned st /\
  handleCaptureNext st = Returned st /\
  cursor (handle ClickNext st) = cursor st /\
  cursor (handle ClickCaptureNext st) = cursor st /\
  speechQueue (handle ClickNext st) = speechQueue st /\
  speechQueue (handle ClickCaptureNext st) = speechQueue st /\
  narrated (handle ClickNext st) = narrated st /\
  narrated (handle ClickCaptureNext st) = narrated st.
Proof.
  intros H.
  assert (Hn : handleNextQuestion st = Returned st)
    by (unfold handleNextQuestion; rewrite H; reflexivity).
  assert (Hc : handleCaptureNext st = Returned st)
    by (unfold handleCaptureNext; rewrite H; reflexivity).
  cbn [handle]. rewrite Hn, Hc. cbn [stateOf]. repeat split.
Qed.

Lemma next_signals_ignored_without_autoplay_witness :
  handleNextQuestion (readyPage demoScript) = Returned (readyPage demoScript) /\
  handleCaptureNext (readyPage demoScript) = Returned (readyPage demoScript) /\
  cursor (handle ClickNext (readyPage demoScript)) = cursor (readyPage demoScript) /\
  cursor (handle ClickCaptureNext (readyPage demoScript)) =
    cursor (readyPage demoScript) /\
  speechQueue (handle ClickNext (readyPage demoScript)) =
    speechQueue (readyPage demoScript) /\
  speechQueue (handle ClickCaptureNext (readyPage demoScript)) =
    speechQueue (readyPage demoScript) /\
  narrated (handle ClickNext (readyPage demoScript)) =
    narrated (readyPage demoScript) /\
  narrated (handle ClickCaptureNext (readyPage demoScript)) =
    narrated (readyPage demoScript).
Proof.
  apply (next_signals_ignored_without_autoplay (readyPage demoScript)).
  reflexivity.
Defined.

(** ** Capture and retake *)

Lemma findIndex_app_fresh {A} (p : A -> bool) (l : list A) (x : A) :
  forallb (fun y => negb (p y)) l = true -> p x = true ->
  findIndex p (l ++ [x]) = Some (length l).
Proof.
  intros Hl Hx. induction l as [|y l IH]; simpl in *.
  - rewrite Hx. reflexivity.
  - apply andb_prop in Hl. destruct Hl as [Hy Hl].
    apply negb_true_iff in Hy. rewrite Hy, (IH Hl). reflexivity.
Qed.

Lemma splice1_last {A} (l : list A) (x : A) :
  splice1 (length l) (l ++ [x]) = l.
Proof.
  unfold splice1. induction l as [|y l IH]; simpl; [reflexivity|].
  f_equal. exact IH.
Qed.

Lemma captureType_eqb_refl (t : option DocType) : captureType_eqb t t = true.
Proof. destruct t as [[|]|]; reflexivity. Qed.

(** Where the claim of C4 does hold: no image of the active type is in the
    list when the capture is taken. *)
Lemma retake_undoes_capture_of_fresh_type (st : State) (now : nat) (frame : string) :
  forallb (fun img => negb (captureType_eqb (type img) (currentCaptureType st)))
    (capturedImages st) = true ->
  capturedImages (retakeImage (captureImage now frame st)) = capturedImages st.
Proof.
  intros Hfresh. unfold retakeImage, captureImage. cbn.
  rewrite (findIndex_app_fresh _ _ _ Hfresh) by apply captureType_eqb_refl.
  cbn. apply splice1_last.
Qed.

(** C4. [retakeImage] looks the image up with [findIndex], which returns
    the first image of the active type, not the one just captured. With a
    PAN image already in the list, capture followed by retake removes the
    earlier image and keeps the new one; the session below reaches that
    state through the page's own events (two capture lines for the same
    document). *)
Theorem retake_after_capture_removes_earlier_image :
  let st :=
    set_currentCaptureType (Some pan)
      (set_capturedImages [mkImage (Some pan) 1 "first"] (readyPage demoScript)) in
  capturedImages (retakeImage (captureImage 2 "second" st)) =
    [mkImage (Some pan) 2 "second"] /\
  let confirmed :=
    run [ ScriptResponse (Some demoScript); ClickStart true; SpeechEvent 0;
          ClickNext; SpeechEvent 0; ClickCapture 5 "first"; ClickCaptureNext;
          SpeechEvent 0 ] (pageLoaded true) in
  capturedImages confirmed = [mkImage (Some pan) 5 "first"] /\
  capturedImages (run [ClickCapture 6 "second"; ClickRetake] confirmed) =
    [mkImage (Some pan) 6 "second"].
Proof. vm_compute. repeat split. Qed.

(** ** Auto-terminate *)

(** C1. The callback of an auto-terminate unit adds one to the line index
    and calls [playNextLine]; that ends the session only if the script is
    exhausted there. With a line after the flagged one, the session goes on:
    after the flagged unit completes the page is still recording and
    auto-playing and has started narrating the next line. *)
Theorem auto_terminate_line_continues_with_next_line :
  let st :=
    run [ScriptResponse (Some earlyTerminateScript); ClickStart true; SpeechEvent 0]
      (pageLoaded true) in
  isRecording st = true /\
  isAutoPlaying st = true /\
  cursor st = (0, 1) /\
  map narration_lines (narrated st) = [[0]; [1]] /\
  map utterance_text (speechQueue st) = ["One more thing"%string].
Proof. vm_compute. repeat split. Qed.

(** ** A script that fails to load *)

Ltac stopRecording_cases st :=
  unfold stopRecording;
  destruct (mediaRecorder st) as [?r|];
  [ destruct (isRecording st);
    [ cbn; destruct (capturedImages st) eqn:?Himages | ] | ].

Lemma stopRecording_keeps_script (st : State) :
  scriptData (stopRecording st) = scriptData st /\
  narrated (stopRecording st) = narrated st.
Proof. stopRecording_cases st; split; reflexivity. Qed.

Lemma step_without_script (st : State) (e : Event) :
  scriptData st = None -> noScriptArrives e = true ->
  scriptData (step st e) = None /\ narrated (step st e) = narrated st.
Proof.
  intros Hsd He. unfold step.
  destruct (deliverable e st); [|auto].
  destruct e as [[sd|]|ok| | |now frame| | |i|chunk|]; cbn [handle];
    try discriminate.
  - auto.
  - unfold startRecording.
    destruct (stream st); cbn [negb]; [|auto].
    destruct ok; cbn [negb]; [|auto].
    rewrite playNextLine_no_script by exact Hsd. auto.
  - destruct (stopRecording_keeps_script st) as [-> ->]. auto.
  - unfold handleNextQuestion. destruct (isAutoPlaying st); [|auto].
    rewrite playNextLine_no_script by exact Hsd. auto.
  - auto.
  - unfold retakeImage. destruct (findIndex _ _); auto.
  - unfold handleCaptureNext. destruct (isAutoPlaying st); [|auto].
    rewrite playNextLine_no_script by exact Hsd. auto.
  - destruct (nth_error (speechQueue st) i) as [u|]; [|auto].
    unfold runCallback.
    destruct (isAutoTerminate (utterance_callback u)).
    + rewrite playNextLine_no_script by exact Hsd. auto.
    + destruct (isCaptureMode (utterance_callback u)); auto.
  - unfold onDataAvailable. destruct (0 <? length chunk); auto.
  - destruct (mediaRecorder st); auto.
Qed.

Lemma run_without_script (events : list Event) (st : State) :
  scriptData st = None -> forallb noScriptArrives events = true ->
  scriptData (run events st) = None /\ narrated (run events st) = narrated st.
Proof.
  revert st. induction events as [|e events IH]; intros st Hsd Hev; [auto|].
  simpl in Hev. apply andb_prop in Hev. destruct Hev as [He Hev].
  destruct (step_without_script st e Hsd He) as [Hsd' Hnar].
  destruct (IH (step st e) Hsd' Hev) as [H1 H2].
  simpl. split; congruence.
Qed.

(** The claim of C2 fails: after a failed script load nothing is reported
    to the user and Start engages the recorder all the same. *)
Lemma failed_script_load_still_records :
  let st := run [ScriptResponse None; ClickStart true] (pageLoaded true) in
  scriptData st = None /\
  alerts st = [] /\
  isRecording st = true /\
  mediaRecorder st = Some (mkRecorder true 0 0).
Proof. vm_compute. repeat split. Qed.

(** C2, amended. A failed load leaves the page as it was (the error goes
    to the console only) and does not block Start: with a stream and a
    recorder, [startRecording] starts the recorder without any alert. What
    the missing script prevents is narration: nothing is handed to the
    speech engine by Start, and nothing is narrated by any later event for
    as long as no script arrives. *)
Theorem failed_script_load_only_silences_narration
    (st : State) (recorderOk : bool) (events : list Event) :
  scriptData st = None ->
  forallb noScriptArrives events = true ->
  loadScript None st = st /\
  speechQueue (startRecording recorderOk st) = speechQueue st /\
  narrated (run events (startRecording recorderOk st)) = narrated st /\
  (stream st = true -> recorderOk = true ->
   isRecording (startRecording recorderOk st) = true /\
   mediaRecorder (startRecording recorderOk st) = Some (mkRecorder true 0 0) /\
   alerts (startRecording recorderOk st) = alerts st /\
   cursor (startRecording recorderOk st) = (0, 0)).
Proof.
  intros Hsd Hev.
  assert (Hstart : scriptData (startRecording recorderOk st) = None /\
                   narrated (startRecording recorderOk st) = narrated st).
  { unfold startRecording.
    destruct (stream st); cbn [negb]; [|auto].
    destruct recorderOk; cbn [negb]; [|auto].
    rewrite playNextLine_no_script by exact Hsd. auto. }
  destruct Hstart as [Hsd' Hnar].
  split; [reflexivity|]. split; [|split].
  - unfold startRecording.
    destruct (stream st); cbn [negb]; [|reflexivity].
    destruct recorderOk; cbn [negb]; [|reflexivity].
    rewrite playNextLine_no_script by exact Hsd. reflexivity.
  - destruct (run_without_script events _ Hsd' Hev) as [_ ->]. exact Hnar.
  - intros Hstream ->. unfold startRecording. rewrite Hstream. cbn [negb].
    rewrite playNextLine_no_script by exact Hsd. repeat split.
Qed.

Lemma failed_script_load_only_silences_narration_witness :
  loadScript None (pageLoaded true) = pageLoaded true /\
  speechQueue (startRecording true (pageLoaded true)) =
    speechQueue (pageLoaded true) /\
  narrated (run [SpeechEvent 0; ClickNext; ClickStop]
              (startRecording true (pageLoaded true))) =
    narrated (pageLoaded true) /\
  (stream (pageLoaded true) = true -> true = true ->
   isRecording (startRecording true (pageLoaded true)) = true /\
   mediaRecorder (startRecording true (pageLoaded true)) =
     Some (mkRecorder true 0 0) /\
   alerts (startRecording true (pageLoaded true)) = alerts (pageLoaded true) /\
   cursor (startRecording true (pageLoaded true)) = (0, 0)).
Proof.
  apply (failed_script_load_only_silences_narration (pageLoaded true) true
           [SpeechEvent 0; ClickNext; ClickStop]).
  - reflexivity.
  - reflexivity.
Defined.

(** ** What [playNextLine] leaves in place *)

Lemma speakGrouped_fields (section : ScriptSection)
    (groupedLines : list (Line * nat)) (lastLine : Line) (lastIndex : nat)
    (st : State) :
  let st' := speakGrouped section groupedLines lastLine lastIndex st in
  cursor st' = cursor st /\
  scriptData st' = scriptData st /\
  isAutoPlaying st' = isAutoPlaying st /\
  isRecording st' = isRecording st /\
  mediaRecorder st' = mediaRecorder st /\
  capturedImages st' = capturedImages st /\
  start_btn_disabled (dom st') = start_btn_disabled (dom st) /\
  video_overlay (dom st') = false /\
  capture_overlay (dom st') = false /\
  speechQueue st' =
    map cancelUtterance (speechQueue st) ++
    [mkUtterance (replacePlaceholders (combineText groupedLines))
       (callbackOf section groupedLines lastLine lastIndex (currentCaptureType st))
       false] /\
  narrated st' =
    narrated st ++
    [mkNarration (currentSectionIndex st) (map snd groupedLines)
       (replacePlaceholders (combineText groupedLines))].
Proof.
  unfold speakGrouped, callbackOf. cbn.
  destruct (documentLoop groupedLines (currentCaptureType st)) as [[showDoc [d|]] ct];
    cbn; repeat split.
Qed.

Lemma speakGroup_returns (section : ScriptSection) (st : State) :
  currentLineIndex st < length (script_lines section) ->
  let lines := script_lines section in
  let idx := currentLineIndex st in
  exists n lastLine,
    idx + n < length lines /\
    nth_error lines (idx + n) = Some lastLine /\
    (forall j line, j < n -> nth_error lines (idx + j) = Some line ->
       group_with_next line = true) /\
    (group_with_next lastLine = false \/ idx + n + 1 = length lines) /\
    speakGroup section st =
      Returned (speakGrouped section (groupOf lines idx n) lastLine (idx + n) st).
Proof.
  intros Hlt lines idx.
  destruct (collectFrom_group lines idx Hlt) as [n [Hn [Heq [Hall Hlast]]]].
  destruct (nth_error lines (idx + n)) as [lastLine|] eqn:Hline;
    [|apply nth_error_None in Hline; lia].
  exists n, lastLine. repeat split; auto.
  unfold speakGroup. fold lines idx. rewrite Heq.
  rewrite (groupOf_lastItem lines idx n lastLine Hn Hline). reflexivity.
Qed.

Lemma stopRecording_fields (st : State) :
  cursor (stopRecording st) = cursor st /\
  scriptData (stopRecording st) = scriptData st /\
  narrated (stopRecording st) = narrated st /\
  capturedImages (stopRecording st) = capturedImages st /\
  recordedChunks (stopRecording st) = recordedChunks st /\
  start_btn_disabled (dom (stopRecording st)) = start_btn_disabled (dom st) /\
  map utterance_callback (speechQueue (stopRecording st)) =
    map utterance_callback (speechQueue st) /\
  (isAutoPlaying st = false -> isAutoPlaying (stopRecording st) = false) /\
  (video_overlay (dom st) = false -> video_overlay (dom (stopRecording st)) = false) /\
  (capture_overlay (dom st) = false ->
   capture_overlay (dom (stopRecording st)) = false).
Proof.
  assert (Hq : map utterance_callback (map cancelUtterance (speechQueue st)) =
               map utterance_callback (speechQueue st))
    by (rewrite map_map; reflexivity).
  stopRecording_cases st; cbn; repeat split; auto.
Qed.

Lemma finishScript_fields (st : State) :
  cursor (finishScript st) = (S (currentSectionIndex st), 0) /\
  scriptData (finishScript st) = scriptData st /\
  narrated (finishScript st) = narrated st /\
  isAutoPlaying (finishScript st) = false /\
  start_btn_disabled (dom (finishScript st)) = start_btn_disabled (dom st) /\
  video_overlay (dom (finishScript st)) = false /\
  capture_overlay (dom (finishScript st)) = false /\
  map utterance_callback (speechQueue (finishScript st)) =
    map utterance_callback (speechQueue st).
Proof.
  unfold finishScript.
  set (st1 := hideAllOverlays (set_isAutoPlaying false (enterNextSection st))).
  destruct (stopRecording_fields st1) as
    (Hc & Hsd & Hn & _ & _ & Hb & Hq & Hp & Hv & Hco).
  rewrite Hc, Hsd, Hn, Hb, Hq, Hp, Hv, Hco by reflexivity.
  repeat split.
Qed.

Lemma cursor_le_refl (a : nat * nat) : cursor_le a a.
Proof. right. split; [reflexivity | apply Nat.le_refl]. Qed.

Lemma cursor_le_trans (a b c : nat * nat) :
  cursor_le a b -> cursor_le b c -> cursor_le a c.
Proof. unfold cursor_le. intros [H1|[H1 H2]] [H3|[H3 H4]]; lia. Qed.

Lemma playNextLine_cursor (st : State) :
  cursor_le (cursor st) (cursor (stateOf (playNextLine st))).
Proof.
  apply playNextLine_cases with
    (P := fun st c => cursor_le (cursor st) (cursor (stateOf c)));
    clear st; intros st; intros; cbn [stateOf]; try apply cursor_le_refl.
  - destruct (speakGroup_returns section st) as (n & lastLine & _ & _ & _ & _ & ->);
      [assumption|].
    cbn [stateOf].
    destruct (speakGrouped_fields section
                (groupOf (script_lines section) (currentLineIndex st) n)
                lastLine (currentLineIndex st + n) st) as [-> _].
    apply cursor_le_refl.
  - destruct (finishScript_fields st) as [-> _]. left. cbn. lia.
  - eapply cursor_le_trans; [|eassumption]. left. cbn. lia.
Qed.

Lemma playNextLine_start_btn (st : State) :
  start_btn_disabled (dom (stateOf (playNextLine st))) =
  start_btn_disabled (dom st).
Proof.
  apply playNextLine_cases with
    (P := fun st c => start_btn_disabled (dom (stateOf c)) =
                      start_btn_disabled (dom st));
    clear st; intros st; intros; cbn [stateOf]; try reflexivity.
  - destruct (speakGroup_returns section st) as (n & lastLine & _ & _ & _ & _ & ->);
      [assumption|].
    cbn [stateOf]. apply speakGrouped_fields.
  - apply finishScript_fields.
  - assumption.
Qed.

(** ** Cursor monotonicity *)

Lemma inSession_idle (st : State) :
  start_btn_disabled (dom st) = true -> speechQueue st = [] -> inSession st.
Proof. intros Hb Hq. unfold inSession. rewrite Hq. auto. Qed.

Lemma playNextLine_inSession (st : State) :
  speechQueue st = [] -> start_btn_disabled (dom st) = true ->
  inSession (stateOf (playNextLine st)).
Proof.
  apply playNextLine_cases with
    (P := fun st c => speechQueue st = [] -> start_btn_disabled (dom st) = true ->
                      inSession (stateOf c));
    clear st; intros st; intros; cbn [stateOf]; try (apply inSession_idle; assumption).
  - destruct (speakGroup_returns section st) as (n & lastLine & _ & _ & _ & _ & ->);
      [assumption|].
    cbn [stateOf].
    pose proof (speakGrouped_fields section
                  (groupOf (script_lines section) (currentLineIndex st) n)
                  lastLine (currentLineIndex st + n) st) as Hfields.
    cbv zeta in Hfields.
    remember (speakGrouped section _ lastLine _ st) as st' eqn:Hst'.
    destruct Hfields as (Hc & _ & _ & _ & _ & _ & Hb & Hv & Hco & Hq & _).
    unfold cursor in Hc. injection Hc as _ Hline.
    unfold inSession. rewrite Hb, Hq, Hv, Hco, Hline.
    match goal with E : speechQueue st = [] |- _ => rewrite E end.
    cbn. repeat split; auto. lia.
  - destruct (finishScript_fields st) as (_ & _ & _ & _ & Hb & _ & _ & Hq).
    apply inSession_idle; [congruence|].
    match goal with E : speechQueue st = [] |- _ => rewrite E in Hq end.
    apply map_eq_nil in Hq. exact Hq.
  - match goal with IH : _ -> _ -> inSession _ |- _ => apply IH end; assumption.
Qed.

Lemma inSession_queue (st : State) :
  inSession st ->
  speechQueue st = [] \/
  exists u, speechQueue st = [u] /\
            currentLineIndex st <= lastLineIndex (utterance_callback u) /\
            video_overlay (dom st) = false /\ capture_overlay (dom st) = false.
Proof.
  intros [_ H]. destruct (speechQueue st) as [|u [|v q]]; [auto | | contradiction].
  right. exists u. tauto.
Qed.

Lemma step_inSession (st : State) (e : Event) :
  inSession st ->
  inSession (step st e) /\ cursor_le (cursor st) (cursor (step st e)).
Proof.
  intros Hin. pose proof Hin as [Hb Hshape].
  unfold step. destruct (deliverable e st) eqn:Hd;
    [|split; [assumption | apply cursor_le_refl]].
  destruct e as [response|ok| | |now frame| | |i|chunk|]; cbn [handle deliverable] in *.
  - (* script response *)
    split; [|destruct response; apply cursor_le_refl].
    destruct response; exact Hin.
  - (* start: the button is disabled *)
    rewrite Hb in Hd. discriminate.
  - (* stop *)
    destruct (stopRecording_fields st) as
      (Hc & _ & _ & _ & _ & Hb' & Hq & _ & Hv & Hco).
    split; [|rewrite Hc; apply cursor_le_refl].
    unfold inSession. rewrite Hb'. split; [assumption|].
    unfold cursor in Hc. injection Hc as _ Hline.
    destruct (inSession_queue st Hin) as [E|(u & E & Hle & Hv0 & Hc0)];
      rewrite E in Hq.
    + apply map_eq_nil in Hq. rewrite Hq. exact I.
    + destruct (speechQueue (stopRecording st)) as [|u' [|v q]];
        try discriminate.
      injection Hq as Hq. rewrite Hq, Hline. auto.
  - (* next *)
    destruct (inSession_queue st Hin) as [E|(u & _ & _ & Hv0 & _)];
      [|congruence].
    unfold handleNextQuestion. destruct (isAutoPlaying st);
      [|split; [assumption | apply cursor_le_refl]].
    set (st1 := set_currentLineIndex _ _). split.
    + apply playNextLine_inSession; assumption.
    + apply cursor_le_trans with (cursor st1);
        [right; cbn; lia | apply playNextLine_cursor].
  - (* capture *)
    split; [|apply cursor_le_refl].
    destruct (inSession_queue st Hin) as [E|(u & _ & _ & _ & Hc0)].
    + apply inSession_idle; assumption.
    + rewrite Hc0 in Hd. discriminate.
  - (* retake *)
    destruct (inSession_queue st Hin) as [E|(u & _ & _ & _ & Hc0)];
      [|rewrite Hc0 in Hd; discriminate].
    unfold retakeImage. destruct (findIndex _ _);
      (split; [apply inSession_idle; assumption | apply cursor_le_refl]).
  - (* capture next *)
    destruct (inSession_queue st Hin) as [E|(u & _ & _ & _ & Hc0)];
      [|rewrite Hc0 in Hd; discriminate].
    unfold handleCaptureNext. destruct (isAutoPlaying st);
      [|split; [assumption | apply cursor_le_refl]].
    set (st1 := set_currentLineIndex _ _). split.
    + apply playNextLine_inSession; assumption.
    + apply cursor_le_trans with (cursor st1);
        [right; cbn; lia | apply playNextLine_cursor].
  - (* speech event *)
    apply Nat.ltb_lt in Hd.
    destruct (inSession_queue st Hin) as [E|(u & E & Hle & _ & _)];
      rewrite E in *; [cbn in Hd; lia|].
    destruct i as [|i]; [|cbn in Hd; lia].
    cbn [nth_error splice1 firstn skipn app].
    unfold runCallback.
    set (st1 := set_currentLineIndex (lastLineIndex (utterance_callback u))
                  (set_speechQueue [] st)).
    assert (H1 : cursor_le (cursor st) (cursor st1)) by (right; cbn; lia).
    destruct (isAutoTerminate (utterance_callback u)).
    + set (st2 := set_currentLineIndex _ st1). split.
      * apply playNextLine_inSession; [reflexivity | assumption].
      * apply cursor_le_trans with (cursor st2); [|apply playNextLine_cursor].
        apply cursor_le_trans with (cursor st1); [assumption | right; cbn; lia].
    + destruct (isCaptureMode (utterance_callback u)); cbn [stateOf];
        (split; [apply inSession_idle; [|reflexivity] | exact H1]).
      * destruct (showDocument (utterance_callback u)); exact Hb.
      * exact Hb.
  - (* data *)
    unfold onDataAvailable. destruct (0 <? length chunk);
      (split; [exact Hin | apply cursor_le_refl]).
  - (* recorder stop event *)
    destruct (mediaRecorder st); (split; [exact Hin | apply cursor_le_refl]).
Qed.

Lemma run_inSession (events : list Event) (st : State) :
  inSession st ->
  inSession (run events st) /\ cursor_le (cursor st) (cursor (run events st)).
Proof.
  revert st. induction events as [|e events IH]; intros st Hin.
  - split; [assumption | apply cursor_le_refl].
  - destruct (step_inSession st e Hin) as [Hin' Hle].
    destruct (IH _ Hin') as [Hin'' Hle'].
    split; [exact Hin''|]. eapply cursor_le_trans; eassumption.
Qed.

Lemma startRecording_inSession (st : State) :
  stream st = true -> speechQueue st = [] ->
  inSession (startRecording true st).
Proof.
  intros Hs Hq. unfold startRecording. rewrite Hs. cbn [negb].
  set (st1 := set_currentLineIndex 0 _).
  pose proof (playNextLine_inSession st1 Hq eq_refl) as Hin.
  destruct (playNextLine st1) as [st2|st2]; cbn [stateOf] in Hin; exact Hin.
Qed.

(** C7. From Start on, whatever events the browser delivers (speech
    completions, Next and capture-flow clicks, and also Stop, recorder and
    script events), the cursor never moves back in lexicographic order; in
    particular the section index never decreases. *)
Theorem cursor_never_moves_back (st0 : State) (before after : list Event) :
  stream st0 = true -> speechQueue st0 = [] ->
  cursor_le (cursor (run before (startRecording true st0)))
            (cursor (run (before ++ after) (startRecording true st0))) /\
  currentSectionIndex (run before (startRecording true st0)) <=
  currentSectionIndex (run (before ++ after) (startRecording true st0)).
Proof.
  intros Hs Hq.
  pose proof (startRecording_inSession st0 Hs Hq) as Hin.
  destruct (run_inSession before _ Hin) as [Hin' _].
  destruct (run_inSession after _ Hin') as [_ Hle].
  unfold run in *. rewrite fold_left_app.
  split; [exact Hle|].
  destruct Hle as [Hlt|[Heq _]]; cbn in *; lia.
Qed.

Lemma cursor_never_moves_back_witness :
  cursor_le
    (cursor (run [SpeechEvent 0; ClickNext]
               (startRecording true (readyPage demoScript))))
    (cursor (run ([SpeechEvent 0; ClickNext] ++
                  [SpeechEvent 0; ClickCapture 5 "pan"; ClickCaptureNext])
               (startRecording true (readyPage demoScript)))) /\
  currentSectionIndex
    (run [SpeechEvent 0; ClickNext] (startRecording true (readyPage demoScript))) <=
  currentSectionIndex
    (run ([SpeechEvent 0; ClickNext] ++
          [SpeechEvent 0; ClickCapture 5 "pan"; ClickCaptureNext])
       (startRecording true (readyPage demoScript))).
Proof.
  apply (cursor_never_moves_back (readyPage demoScript)
           [SpeechEvent 0; ClickNext]
           [SpeechEvent 0; ClickCapture 5 "pan"; ClickCaptureNext]).
  - reflexivity.
  - reflexivity.
Defined.

(** ** Stop *)

Lemma stopRecording_when_recording (st : State) (r : MediaRecorder) :
  mediaRecorder st = Some r -> isRecording st = true ->
  isAutoPlaying (stopRecording st) = false /\
  isRecording (stopRecording st) = false /\
  mediaRecorder (stopRecording st) = Some (recorder_stop r) /\
  speechQueue (stopRecording st) = map cancelUtterance (speechQueue st).
Proof.
  intros Hr Hrec. unfold stopRecording. rewrite Hr, Hrec. cbn.
  destruct (capturedImages st); repeat split.
Qed.

Lemma stopRecording_when_idle (st : State) :
  mediaRecorder st = None \/ isRecording st = false -> stopRecording st = st.
Proof.
  intros [H|H]; unfold stopRecording; rewrite H; [reflexivity|].
  destruct (mediaRecorder st); reflexivity.
Qed.

Lemma stopRecording_idempotent (st : State) :
  stopRecording (stopRecording st) = stopRecording st.
Proof.
  destruct (mediaRecorder st) as [r|] eqn:Hr.
  - destruct (isRecording st) eqn:Hrec.
    + apply stopRecording_when_idle. right.
      apply (stopRecording_when_recording st r Hr Hrec).
    + rewrite (stopRecording_when_idle st) by auto.
      apply stopRecording_when_idle. auto.
  - rewrite (stopRecording_when_idle st) by auto.
    apply stopRecording_when_idle. auto.
Qed.

Lemma runCallback_not_playing (cb : Callback) (st : State) :
  isAutoPlaying st = false ->
  let st' := stateOf (runCallback cb st) in
  isAutoPlaying st' = false /\
  isRecording st' = isRecording st /\
  mediaRecorder st' = mediaRecorder st /\
  narrated st' = narrated st /\
  speechQueue st' = speechQueue st /\
  currentSectionIndex st' = currentSectionIndex st /\
  start_btn_disabled (dom st') = start_btn_disabled (dom st).
Proof.
  intros Hp. unfold runCallback.
  destruct (isAutoTerminate cb).
  - rewrite playNextLine_not_playing by exact Hp. cbn. repeat split. exact Hp.
  - destruct (isCaptureMode cb); cbn; repeat split; try exact Hp.
    destruct (showDocument cb); reflexivity.
Qed.

Lemma step_after_stop (st : State) (e : Event) :
  isAutoPlaying st = false -> start_btn_disabled (dom st) = true ->
  isAutoPlaying (step st e) = false /\
  start_btn_disabled (dom (step st e)) = true /\
  narrated (step st e) = narrated st /\
  length (speechQueue (step st e)) <= length (speechQueue st).
Proof.
  intros Hp Hb. unfold step.
  destruct (deliverable e st) eqn:Hd; [|auto].
  destruct e as [response|ok| | |now frame| | |i|chunk|]; cbn [handle deliverable] in *.
  - destruct response; auto.
  - rewrite Hb in Hd. discriminate.
  - destruct (stopRecording_fields st) as (_ & _ & Hn & _ & _ & Hb' & Hq & Hp' & _).
    repeat split; auto; try congruence.
    rewrite <- (length_map utterance_callback), Hq, length_map. auto.
  - unfold handleNextQuestion. rewrite Hp. auto.
  - cbn. auto.
  - unfold retakeImage. destruct (findIndex _ _); cbn; auto.
  - unfold handleCaptureNext. rewrite Hp. auto.
  - destruct (nth_error (speechQueue st) i) as [u|] eqn:Hu; [|auto].
    destruct (runCallback_not_playing (utterance_callback u)
                (set_speechQueue (splice1 i (speechQueue st)) st) Hp)
      as (H1 & _ & _ & H4 & H5 & _ & H7).
    rewrite H1, H4, H5, H7. cbn. repeat split; auto.
    unfold splice1. rewrite length_app, length_firstn, length_skipn. lia.
  - unfold onDataAvailable. destruct (0 <? length chunk); cbn; auto.
  - destruct (mediaRecorder st); cbn; auto.
Qed.

Lemma run_after_stop (events : list Event) (st : State) :
  isAutoPlaying st = false -> start_btn_disabled (dom st) = true ->
  isAutoPlaying (run events st) = false /\
  narrated (run events st) = narrated st /\
  length (speechQueue (run events st)) <= length (speechQueue st).
Proof.
  revert st. induction events as [|e events IH]; intros st Hp Hb; [auto|].
  destruct (step_after_stop st e Hp Hb) as (Hp' & Hb' & Hn & Hl).
  destruct (IH _ Hp' Hb') as (H1 & H2 & H3).
  change (run (e :: events) st) with (run events (step st e)).
  repeat split; [assumption | congruence | lia].
Qed.

(** The claim of C9 fails where it says the late callback leaves the
    cursor alone: stopped while the first group (lines 0 and 1) is being
    spoken, the page moves the line index to 1 and shows the Next overlay
    when the utterance's event arrives. *)
Lemma late_callback_moves_cursor_after_stop :
  let stopped :=
    run [ScriptResponse (Some demoScript); ClickStart true; ClickStop]
      (pageLoaded true) in
  isRecording stopped = false /\
  isAutoPlaying stopped = false /\
  cursor stopped = (0, 0) /\
  cursor (step stopped (SpeechEvent 0)) = (0, 1) /\
  video_overlay (dom (step stopped (SpeechEvent 0))) = true.
Proof. vm_compute. repeat split. Qed.

(** C9, amended. Stop while recording turns auto-play off, cancels every
    utterance the engine holds and stops the recorder once; a second Stop
    changes nothing. From then on no event makes the page narrate again or
    hand a new utterance to the engine. A completion callback that arrives
    late starts no narration and leaves auto-play, the recording state and
    the section index alone (it still writes the line index and shows an
    overlay). *)
Theorem nothing_is_narrated_after_stop
    (st : State) (r : MediaRecorder) (events : list Event) (cb : Callback) :
  mediaRecorder st = Some r -> isRecording st = true ->
  start_btn_disabled (dom st) = true ->
  isAutoPlaying (stopRecording st) = false /\
  Forall (fun u => cancelled u = true) (speechQueue (stopRecording st)) /\
  mediaRecorder (stopRecording st) = Some (recorder_stop r) /\
  stopRecording (stopRecording st) = stopRecording st /\
  narrated (run events (stopRecording st)) = narrated st /\
  length (speechQueue (run events (stopRecording st))) <= length (speechQueue st) /\
  narrated (stateOf (runCallback cb (stopRecording st))) = narrated st /\
  speechQueue (stateOf (runCallback cb (stopRecording st))) =
    speechQueue (stopRecording st) /\
  isAutoPlaying (stateOf (runCallback cb (stopRecording st))) = false /\
  isRecording (stateOf (runCallback cb (stopRecording st))) = false /\
  currentSectionIndex (stateOf (runCallback cb (stopRecording st))) =
    currentSectionIndex st.
Proof.
  intros Hr Hrec Hb.
  destruct (stopRecording_when_recording st r Hr Hrec) as (Hp & Hrec' & Hr' & Hq).
  destruct (stopRecording_fields st) as (Hc & _ & Hn & _ & _ & Hb' & _).
  rewrite Hb in Hb'.
  destruct (run_after_stop events _ Hp Hb') as (_ & Hn' & Hl).
  destruct (runCallback_not_playing cb _ Hp) as (H1 & H2 & _ & H4 & H5 & H6 & _).
  unfold cursor in Hc. injection Hc as Hsec _.
  repeat split; try congruence.
  - rewrite Hq. apply Forall_forall. intros u Hu.
    apply in_map_iff in Hu. destruct Hu as [v [<- _]]. reflexivity.
  - apply stopRecording_idempotent.
  - rewrite Hq, length_map in Hl. exact Hl.
Qed.

Lemma nothing_is_narrated_after_stop_witness :
  let st := startRecording true (readyPage demoScript) in
  let r := mkRecorder true 0 0 in
  let events := [SpeechEvent 0; ClickNext; ClickStart true; ClickCaptureNext] in
  let cb := mkCallback 1 true false false in
  isAutoPlaying (stopRecording st) = false /\
  Forall (fun u => cancelled u = true) (speechQueue (stopRecording st)) /\
  mediaRecorder (stopRecording st) = Some (recorder_stop r) /\
  stopRecording (stopRecording st) = stopRecording st /\
  narrated (run events (stopRecording st)) = narrated st /\
  length (speechQueue (run events (stopRecording st))) <= length (speechQueue st) /\
  narrated (stateOf (runCallback cb (stopRecording st))) = narrated st /\
  speechQueue (stateOf (runCallback cb (stopRecording st))) =
    speechQueue (stopRecording st) /\
  isAutoPlaying (stateOf (runCallback cb (stopRecording st))) = false /\
  isRecording (stateOf (runCallback cb (stopRecording st))) = false /\
  currentSectionIndex (stateOf (runCallback cb (stopRecording st))) =
    currentSectionIndex st.
Proof.
  apply (nothing_is_narrated_after_stop
           (startRecording true (readyPage demoScript)) (mkRecorder true 0 0)
           [SpeechEvent 0; ClickNext; ClickStart true; ClickCaptureNext]
           (mkCallback 1 true false false)).
  - vm_compute. reflexivity.
  - vm_compute. reflexivity.
  - vm_compute. reflexivity.
Defined.

(** Where the claim of C1 does hold: the flagged unit ends the last
    section of the script. Its callback then finds the script exhausted and
    ends the session at once. *)
Lemma auto_terminate_unit_at_script_end
    (sd : Script) (section : ScriptSection) (cb : Callback) (st : State) :
  scriptData st = Some sd -> isAutoPlaying st = true ->
  nth_error (sections sd) (currentSectionIndex st) = Some section ->
  length (sections sd) <= S (currentSectionIndex st) ->
  isAutoTerminate cb = true ->
  length (script_lines section) <= S (lastLineIndex cb) ->
  exists st',
    runCallback cb st = Returned st' /\
    isAutoPlaying st' = false /\
    narrated st' = narrated st /\
    (forall r, mediaRecorder st = Some r -> isRecording st = true ->
               isRecording st' = false).
Proof.
  intros Hsd Hp Hsec Hlast Hterm Hend. unfold runCallback. rewrite Hterm.
  set (st1 := set_currentLineIndex _ (set_currentLineIndex _ st)).
  exists (finishScript st1). split; [|split; [|split]].
  - rewrite playNextLine_step.
    change (scriptData st1) with (scriptData st).
    change (isAutoPlaying st1) with (isAutoPlaying st).
    change (currentSectionIndex st1) with (currentSectionIndex st).
    change (currentLineIndex st1) with (S (lastLineIndex cb)).
    rewrite Hsd, Hp, Hsec.
    destruct (Nat.leb_spec (length (script_lines section)) (S (lastLineIndex cb)));
      [|lia].
    destruct (Nat.leb_spec (length (sections sd)) (S (currentSectionIndex st)));
      [reflexivity | lia].
  - apply finishScript_ends_autoplay.
  - destruct (finishScript_fields st1) as (_ & _ & Hn & _). exact Hn.
  - intros r Hr Hrec. unfold finishScript.
    apply (stopRecording_when_recording
             (hideAllOverlays (set_isAutoPlaying false (enterNextSection st1))) r);
      assumption.
Qed.

(** ** Recording lifecycle *)

Lemma step_keeps_start_disabled (st : State) (e : Event) :
  start_btn_disabled (dom st) = true ->
  start_btn_disabled (dom (step st e)) = true.
Proof.
  intros Hb. unfold step. destruct (deliverable e st) eqn:Hd; [|exact Hb].
  destruct e as [response|ok| | |now frame| | |i|chunk|]; cbn [handle deliverable] in *.
  - destruct response; exact Hb.
  - rewrite Hb in Hd. discriminate.
  - destruct (stopRecording_fields st) as (_ & _ & _ & _ & _ & -> & _). exact Hb.
  - unfold handleNextQuestion. destruct (isAutoPlaying st); [|exact Hb].
    rewrite playNextLine_start_btn. exact Hb.
  - exact Hb.
  - unfold retakeImage. destruct (findIndex _ _); exact Hb.
  - unfold handleCaptureNext. destruct (isAutoPlaying st); [|exact Hb].
    rewrite playNextLine_start_btn. exact Hb.
  - destruct (nth_error (speechQueue st) i) as [u|]; [|exact Hb].
    unfold runCallback. destruct (isAutoTerminate (utterance_callback u)).
    + rewrite playNextLine_start_btn. exact Hb.
    + destruct (isCaptureMode (utterance_callback u)); [|exact Hb].
      cbn. destruct (showDocument (utterance_callback u)); exact Hb.
  - unfold onDataAvailable. destruct (0 <? length chunk); exact Hb.
  - destruct (mediaRecorder st); exact Hb.
Qed.

Lemma run_keeps_start_disabled (events : list Event) (st : State) :
  start_btn_disabled (dom st) = true ->
  start_btn_disabled (dom (run events st)) = true.
Proof.
  revert st. induction events as [|e events IH]; intros st Hb; [exact Hb|].
  apply (IH (step st e)). apply step_keeps_start_disabled. exact Hb.
Qed.

Lemma startRecording_disables_start (st : State) :
  stream st = true ->
  start_btn_disabled (dom (startRecording true st)) = true.
Proof.
  intros Hs. unfold startRecording. rewrite Hs. cbn [negb].
  set (st1 := set_currentLineIndex 0 _).
  pose proof (playNextLine_start_btn st1) as H.
  destruct (playNextLine st1); cbn [stateOf] in H; cbn; rewrite H; reflexivity.
Qed.

(** The claim of C5 fails for [startRecording] itself: called on a page
    that is recording, it empties the chunk buffer and starts over. *)
Lemma startRecording_while_recording_starts_over :
  let st :=
    run [ScriptResponse (Some demoScript); ClickStart true;
         DataAvailable [1; 2; 3]; SpeechEvent 0; ClickNext]
      (pageLoaded true) in
  isRecording st = true /\
  recordedChunks st = [[1; 2; 3]] /\
  cursor st = (2, 0) /\
  recordedChunks (startRecording true st) = [] /\
  cursor (startRecording true st) = (0, 0) /\
  length (speechQueue (startRecording true st)) = 2.
Proof. vm_compute. repeat split. Qed.

(** C5, amended. [stopRecording] is guarded by its own test: while not
    recording it changes nothing, and called twice it stops the recorder
    once, the second call changing nothing; a recorder that owed no stop
    event then owes exactly one, which builds the blob from the recorded
    chunks. [startRecording] has no such test; re-entry is prevented by the
    Start button, which it disables and nothing enables again: during a
    session a click on Start is not delivered and the state, with the
    recording and its chunks, stays as it is. *)
Theorem recording_reentry_is_guarded
    (idle recording page : State) (r : MediaRecorder)
    (events : list Event) (recorderOk : bool) :
  mediaRecorder idle = None \/ isRecording idle = false ->
  mediaRecorder recording = Some r -> isRecording recording = true ->
  stopEventsDue r = 0 ->
  stream page = true ->
  stopRecording idle = idle /\
  isRecording (stopRecording recording) = false /\
  mediaRecorder (stopRecording recording) =
    Some (mkRecorder (started r) (S (stopCalls r)) 1) /\
  stopRecording (stopRecording recording) = stopRecording recording /\
  deliverable RecorderStop (stopRecording (stopRecording recording)) = true /\
  videoBlob (handle RecorderStop (stopRecording (stopRecording recording))) =
    Some (concat (recordedChunks recording)) /\
  deliverable RecorderStop
    (handle RecorderStop (stopRecording (stopRecording recording))) = false /\
  start_btn_disabled (dom (run events (startRecording true page))) = true /\
  step (run events (startRecording true page)) (ClickStart recorderOk) =
    run events (startRecording true page).
Proof.
  intros Hidle Hr Hrec Hdue Hs.
  destruct (stopRecording_when_recording recording r Hr Hrec) as (_ & H1 & H2 & _).
  destruct (stopRecording_fields recording) as (_ & _ & _ & _ & Hchunks & _).
  assert (Hb : start_btn_disabled (dom (run events (startRecording true page))) = true)
    by (apply run_keeps_start_disabled, startRecording_disables_start; exact Hs).
  rewrite stopRecording_idempotent.
  unfold recorder_stop in H2. rewrite Hdue in H2.
  cbn [deliverable handle]. rewrite H2. cbn.
  repeat split.
  - apply stopRecording_when_idle. exact Hidle.
  - exact H1.
  - rewrite Hchunks. reflexivity.
  - exact Hb.
  - unfold step. cbn [deliverable]. rewrite Hb. reflexivity.
Qed.

Lemma recording_reentry_is_guarded_witness :
  stopRecording (pageLoaded true) = pageLoaded true /\
  isRecording (stopRecording (startRecording true (readyPage demoScript))) = false /\
  mediaRecorder (stopRecording (startRecording true (readyPage demoScript))) =
    Some (mkRecorder (started (mkRecorder true 0 0))
            (S (stopCalls (mkRecorder true 0 0))) 1) /\
  stopRecording (stopRecording (startRecording true (readyPage demoScript))) =
    stopRecording (startRecording true (readyPage demoScript)) /\
  deliverable RecorderStop
    (stopRecording (stopRecording (startRecording true (readyPage demoScript)))) =
    true /\
  videoBlob
    (handle RecorderStop
       (stopRecording (stopRecording (startRecording true (readyPage demoScript))))) =
    Some (concat (recordedChunks (startRecording true (readyPage demoScript)))) /\
  deliverable RecorderStop
    (handle RecorderStop
       (stopRecording (stopRecording (startRecording true (readyPage demoScript))))) =
    false /\
  start_btn_disabled
    (dom (run [DataAvailable [7]; SpeechEvent 0]
            (startRecording true (readyPage demoScript)))) = true /\
  step (run [DataAvailable [7]; SpeechEvent 0]
          (startRecording true (readyPage demoScript))) (ClickStart true) =
    run [DataAvailable [7]; SpeechEvent 0]
      (startRecording true (readyPage demoScript)).
Proof.
  apply (recording_reentry_is_guarded (pageLoaded true)
           (startRecording true (readyPage demoScript))
           (readyPage demoScript) (mkRecorder true 0 0)
           [DataAvailable [7]; SpeechEvent 0] true).
  - left. reflexivity.
  - vm_compute. reflexivity.
  - vm_compute. reflexivity.
  - reflexivity.
  - reflexivity.
Defined.

(** ** Which flags of a group count *)

(** The claim of C3 fails for the document tag: the loop of
    [playNextLine] reads [action_required] of every line of the group. A
    tag on the first line of a two-line group decides whether the document
    indicator is shown after the narration and which capture type is
    active. *)
Lemma document_tag_of_earlier_line_counts :
  let events tag :=
    [ScriptResponse (Some (taggedFirstLine tag)); ClickStart true; SpeechEvent 0] in
  let tagged := run (events (Some "customer_shows_pan"%string)) (pageLoaded true) in
  let plain := run (events None) (pageLoaded true) in
  map narration_lines (narrated tagged) = [[0; 1]] /\
  map narration_lines (narrated plain) = [[0; 1]] /\
  document_indicator (dom tagged) = true /\
  currentCaptureType tagged = Some pan /\
  document_indicator (dom plain) = false /\
  currentCaptureType plain = None.
Proof. vm_compute. repeat split. Qed.

Lemma lastItem_cons (x y : Line * nat) (l : list (Line * nat)) :
  lastItem (x :: y :: l) = lastItem (y :: l).
Proof. unfold lastItem. cbn [length]. rewrite !Nat.sub_1_r. reflexivity. Qed.

Lemma linesAgree_length (la lb : list Line) :
  linesAgree la lb -> length la = length lb.
Proof.
  revert lb. induction la as [|a la IH]; intros [|b lb] H; cbn in *;
    try contradiction; [reflexivity|].
  f_equal. apply IH. tauto.
Qed.

Lemma linesAgree_nth (la lb : list Line) (i : nat) (a : Line) :
  linesAgree la lb -> nth_error la i = Some a ->
  exists b,
    nth_error lb i = Some b /\
    text a = text b /\
    group_with_next a = group_with_next b /\
    action_required a = action_required b /\
    (group_with_next a = false \/ S i = length la ->
     capture_mode a = capture_mode b /\ auto_terminate a = auto_terminate b).
Proof.
  revert lb i. induction la as [|x la IH]; intros [|y lb] i H Hnth;
    cbn in H; try contradiction; [destruct i; discriminate|].
  destruct H as (Ht & Hg & Ha & Hf & Hrest).
  destruct i as [|i]; cbn in Hnth.
  - injection Hnth as <-. exists y.
    split; [reflexivity|]. split; [exact Ht|]. split; [exact Hg|].
    split; [exact Ha|].
    intros [Hgw|Hlen]; apply Hf; [left; exact Hgw|].
    right. destruct la; [reflexivity | cbn in Hlen; lia].
  - destruct (IH lb i Hrest Hnth) as (b & Hb & H1 & H2 & H3 & H4).
    exists b.
    split; [exact Hb|]. split; [exact H1|]. split; [exact H2|].
    split; [exact H3|].
    intros [Hgw|Hlen]; apply H4; [left; exact Hgw|].
    right. cbn in Hlen. lia.
Qed.

Lemma collectFrom_same (la lb : list Line) (idx : nat) :
  linesAgree la lb ->
  map lineView (collectFrom la idx) = map lineView (collectFrom lb idx) /\
  lastFlags (collectFrom la idx) = lastFlags (collectFrom lb idx).
Proof.
  intros Hsame.
  pose proof (linesAgree_length la lb Hsame) as Hlen.
  remember (length la - idx) as m eqn:Hm.
  revert idx Hm. induction m as [m IH] using lt_wf_ind. intros idx Hm.
  rewrite (collectFrom_step la idx), (collectFrom_step lb idx).
  destruct (nth_error la idx) as [a|] eqn:Ha.
  - destruct (linesAgree_nth la lb idx a Hsame Ha)
      as (b & Hb & Ht & Hg & Hact & Hflags).
    rewrite Hb, <- Hg.
    assert (Hidx : idx < length la) by (apply nth_error_Some; congruence).
    destruct (group_with_next a) eqn:Hgw.
    + destruct (IH (length la - S idx)) with (idx := S idx) as [Hv Hl];
        [lia | reflexivity |].
      split; [cbn [map]; unfold lineView at 1 3; cbn; congruence|].
      rewrite (collectFrom_step la (S idx)), (collectFrom_step lb (S idx)) in *.
      destruct (nth_error la (S idx)) as [a'|] eqn:Ha'.
      * destruct (linesAgree_nth la lb (S idx) a' Hsame Ha')
          as (b' & Hb' & _ & Hg' & _).
        rewrite Hb' in *. rewrite <- Hg' in *.
        destruct (group_with_next a');
          unfold lastFlags in *; rewrite !lastItem_cons; exact Hl.
      * assert (Hnone : nth_error lb (S idx) = None)
          by (apply nth_error_None; apply nth_error_None in Ha'; lia).
        rewrite Hnone. unfold lastFlags, lastItem. cbn.
        apply nth_error_None in Ha'.
        destruct Hflags as [-> ->]; [right; lia | reflexivity].
    + split; [cbn [map]; unfold lineView; cbn; congruence|].
      unfold lastFlags, lastItem. cbn.
      destruct Hflags as [-> ->]; [left; reflexivity | reflexivity].
  - assert (Hnone : nth_error lb idx = None)
      by (apply nth_error_None; apply nth_error_None in Ha; lia).
    rewrite Hnone. split; reflexivity.
Qed.

Lemma lineView_indices (g1 g2 : list (Line * nat)) :
  map lineView g1 = map lineView g2 -> map snd g1 = map snd g2.
Proof.
  intros H. apply (f_equal (map snd)) in H. rewrite !map_map in H. exact H.
Qed.

Lemma lineView_texts (g1 g2 : list (Line * nat)) :
  map lineView g1 = map lineView g2 -> combineText g1 = combineText g2.
Proof.
  intros H. unfold combineText. f_equal.
  apply (f_equal (map (fun v => fst (fst v)))) in H.
  rewrite !map_map in H. exact H.
Qed.

Lemma lineView_documents (g1 g2 : list (Line * nat)) (vars : DocumentVars) :
  map lineView g1 = map lineView g2 ->
  fold_left documentStep g1 vars = fold_left documentStep g2 vars.
Proof.
  revert g2 vars. induction g1 as [|x g1 IH]; intros [|y g2] vars H;
    cbn in H; try discriminate; [reflexivity|].
  injection H as Htext Hact Hidx Hrest. cbn [fold_left].
  assert (Hstep : documentStep vars x = documentStep vars y).
  { unfold documentStep, documentOf. rewrite Hact. reflexivity. }
  rewrite Hstep. apply IH. exact Hrest.
Qed.

Lemma speakGroup_same (s1 s2 : ScriptSection) (sd : option Script) (st : State) :
  sectionAgree s1 s2 ->
  speakGroup s2 (set_scriptData sd st) =
  mapCompletion (set_scriptData sd) (speakGroup s1 st).
Proof.
  intros [Hauto Hlines]. unfold speakGroup.
  change (currentLineIndex (set_scriptData sd st)) with (currentLineIndex st).
  destruct (collectFrom_same _ _ (currentLineIndex st) Hlines) as [Hview Hlast].
  set (g1 := collectFrom (script_lines s1) (currentLineIndex st)) in *.
  set (g2 := collectFrom (script_lines s2) (currentLineIndex st)) in *.
  unfold lastFlags in Hlast.
  destruct (lastItem g1) as [[l1 i1]|], (lastItem g2) as [[l2 i2]|];
    try discriminate; [|reflexivity].
  injection Hlast as Hcap Hterm Hidx. cbn [mapCompletion]. f_equal.
  unfold speakGrouped, documentLoop.
  change (currentCaptureType (hideAllOverlays (set_scriptData sd st)))
    with (currentCaptureType (hideAllOverlays st)).
  rewrite <- (lineView_documents g1 g2 _ Hview).
  rewrite <- (lineView_texts g1 g2 Hview), <- (lineView_indices g1 g2 Hview).
  rewrite <- Hauto, <- Hcap, <- Hterm, <- Hidx.
  destruct (fold_left documentStep g1 _) as [[showDoc [d|]] ct]; reflexivity.
Qed.

Lemma stopRecording_same (sd : option Script) (st : State) :
  stopRecording (set_scriptData sd st) = set_scriptData sd (stopRecording st).
Proof.
  unfold stopRecording. cbn.
  destruct (mediaRecorder st); [|reflexivity].
  destruct (isRecording st); [|reflexivity].
  destruct (capturedImages st); reflexivity.
Qed.

Lemma scriptAgree_nth (sd1 sd2 : Script) (i : nat) :
  scriptAgree sd1 sd2 ->
  length (sections sd1) = length (sections sd2) /\
  match nth_error (sections sd1) i, nth_error (sections sd2) i with
  | Some s1, Some s2 => sectionAgree s1 s2
  | None, None => True
  | _, _ => False
  end.
Proof.
  unfold scriptAgree. generalize (sections sd1) (sections sd2). intros l1 l2 H.
  revert i. induction H as [|s1 s2 l1 l2 Hs Hrest IH]; intros i.
  - split; [reflexivity|]. destruct i; exact I.
  - destruct (IH 0) as [Hlen _]. split; [cbn; congruence|].
    destruct i as [|i]; cbn; [exact Hs | apply IH].
Qed.

Lemma playNextLine_same (sd1 sd2 : Script) (st : State) :
  scriptAgree sd1 sd2 -> scriptData st = Some sd1 ->
  playNextLine (set_scriptData (Some sd2) st) =
  mapCompletion (set_scriptData (Some sd2)) (playNextLine st).
Proof.
  intros Hsame.
  apply playNextLine_cases with
    (P := fun st c => scriptData st = Some sd1 ->
                      playNextLine (set_scriptData (Some sd2) st) =
                      mapCompletion (set_scriptData (Some sd2)) c);
    clear st; intros st; intros;
    rewrite (playNextLine_step (set_scriptData (Some sd2) st));
    cbn [scriptData set_scriptData isAutoPlaying currentSectionIndex
         currentLineIndex];
    try congruence;
    repeat match goal with
    | E : isAutoPlaying st = _ |- _ => rewrite E
    end; try reflexivity;
    match goal with
    | E : scriptData st = Some ?sd, E' : scriptData st = Some sd1 |- _ =>
        assert (sd = sd1) by congruence; subst sd
    end;
    destruct (scriptAgree_nth sd1 sd2 (currentSectionIndex st) Hsame) as [Hlen Hnth];
    match goal with
    | E : nth_error (sections sd1) _ = _ |- _ => rewrite E in Hnth
    end;
    destruct (nth_error (sections sd2) (currentSectionIndex st)) as [s2|];
    try contradiction; try reflexivity;
    pose proof (linesAgree_length _ _ (proj2 Hnth)) as Hlines;
    rewrite <- Hlines, <- Hlen.
  - destruct (Nat.leb_spec (length (script_lines section)) (currentLineIndex st));
      [lia|].
    apply speakGroup_same. exact Hnth.
  - destruct (Nat.leb_spec (length (script_lines section)) (currentLineIndex st));
      [|lia].
    destruct (Nat.leb_spec (length (sections sd1)) (S (currentSectionIndex st)));
      [|lia].
    cbn [mapCompletion]. f_equal. unfold finishScript.
    apply (stopRecording_same (Some sd2)
             (hideAllOverlays (set_isAutoPlaying false (enterNextSection st)))).
  - destruct (Nat.leb_spec (length (script_lines section)) (currentLineIndex st));
      [|lia].
    destruct (Nat.leb_spec (length (sections sd1)) (S (currentSectionIndex st)));
      [lia|].
    match goal with IH : _ -> playNextLine _ = _ |- _ => apply IH end.
    assumption.
Qed.

Lemma playNextLine_script (st : State) :
  scriptData (stateOf (playNextLine st)) = scriptData st.
Proof.
  apply playNextLine_cases with
    (P := fun st c => scriptData (stateOf c) = scriptData st);
    clear st; intros st; intros; cbn [stateOf]; try reflexivity.
  - destruct (speakGroup_returns section st) as (n & lastLine & _ & _ & _ & _ & ->);
      [assumption|].
    cbn [stateOf]. apply speakGrouped_fields.
  - apply finishScript_fields.
  - assumption.
Qed.

Lemma step_script (st : State) (e : Event) :
  noScriptArrives e = true -> scriptData (step st e) = scriptData st.
Proof.
  intros He. unfold step. destruct (deliverable e st); [|reflexivity].
  destruct e as [[sd|]|ok| | |now frame| | |i|chunk|]; cbn [handle];
    try discriminate; try reflexivity.
  - unfold startRecording.
    destruct (stream st); cbn [negb]; [|reflexivity].
    destruct ok; cbn [negb]; [|reflexivity].
    set (st1 := set_currentLineIndex 0 _).
    pose proof (playNextLine_script st1) as H.
    destruct (playNextLine st1); cbn [stateOf] in H; cbn; exact H.
  - apply stopRecording_fields.
  - unfold handleNextQuestion. destruct (isAutoPlaying st); [|reflexivity].
    rewrite playNextLine_script. reflexivity.
  - unfold retakeImage. destruct (findIndex _ _); reflexivity.
  - unfold handleCaptureNext. destruct (isAutoPlaying st); [|reflexivity].
    rewrite playNextLine_script. reflexivity.
  - destruct (nth_error (speechQueue st) i) as [u|]; [|reflexivity].
    unfold runCallback. destruct (isAutoTerminate (utterance_callback u)).
    + rewrite playNextLine_script. reflexivity.
    + destruct (isCaptureMode (utterance_callback u)); reflexivity.
  - unfold onDataAvailable. destruct (0 <? length chunk); reflexivity.
  - destruct (mediaRecorder st); reflexivity.
Qed.

Ltac same_playNextLine sd1 sd2 Hsame Hsd :=
  match goal with
  | |- context [playNextLine ?b] =>
      lazymatch b with
      | context [set_scriptData] => fail
      | _ =>
          let st1 := fresh "st1" in
          set (st1 := b);
          match goal with
          | |- context [playNextLine ?a] =>
              lazymatch a with
              | context [set_scriptData] =>
                  change a with (set_scriptData (Some sd2) st1)
              end
          end;
          rewrite (playNextLine_same sd1 sd2 st1 Hsame
                     (Hsd : scriptData st1 = Some sd1));
          destruct (playNextLine st1); reflexivity
      end
  end.

Lemma step_same (sd1 sd2 : Script) (st : State) (e : Event) :
  scriptAgree sd1 sd2 -> scriptData st = Some sd1 -> noScriptArrives e = true ->
  step (set_scriptData (Some sd2) st) e = set_scriptData (Some sd2) (step st e).
Proof.
  intros Hsame Hsd He. unfold step.
  replace (deliverable e (set_scriptData (Some sd2) st)) with (deliverable e st)
    by (destruct e; reflexivity).
  destruct (deliverable e st); [|reflexivity].
  destruct e as [[sd|]|ok| | |now frame| | |i|chunk|]; cbn [handle];
    try discriminate; try reflexivity.
  - unfold startRecording. cbn [stream set_scriptData].
    destruct (stream st); cbn [negb]; [|reflexivity].
    destruct ok; cbn [negb]; [|reflexivity].
    same_playNextLine sd1 sd2 Hsame Hsd.
  - apply stopRecording_same.
  - unfold handleNextQuestion. cbn [isAutoPlaying set_scriptData].
    destruct (isAutoPlaying st); [|reflexivity].
    same_playNextLine sd1 sd2 Hsame Hsd.
  - unfold retakeImage. cbn [capturedImages currentCaptureType set_scriptData].
    destruct (findIndex _ _); reflexivity.
  - unfold handleCaptureNext. cbn [isAutoPlaying set_scriptData].
    destruct (isAutoPlaying st); [|reflexivity].
    same_playNextLine sd1 sd2 Hsame Hsd.
  - cbn [speechQueue set_scriptData].
    destruct (nth_error (speechQueue st) i) as [u|]; [|reflexivity].
    unfold runCallback. destruct (isAutoTerminate (utterance_callback u)).
    + same_playNextLine sd1 sd2 Hsame Hsd.
    + destruct (isCaptureMode (utterance_callback u)); reflexivity.
  - unfold onDataAvailable. destruct (0 <? length chunk); reflexivity.
  - cbn [mediaRecorder set_scriptData]. destruct (mediaRecorder st); reflexivity.
Qed.

Lemma tag_eqb_eq (a b : option string) : tag_eqb a b = true -> a = b.
Proof.
  destruct a as [x|], b as [y|]; cbn; try discriminate; [|reflexivity].
  intros H. apply String.eqb_eq in H. congruence.
Qed.

Lemma sameButInnerFlags_agree (la lb : list Line) :
  sameButInnerFlags la lb = true -> linesAgree la lb.
Proof.
  revert lb. induction la as [|a la IH]; intros [|b lb] H; cbn in H;
    try discriminate; [exact I|].
  apply andb_prop in H. destruct H as [H Hrest].
  apply andb_prop in H. destruct H as [H Hflags].
  apply andb_prop in H. destruct H as [H Htag].
  apply andb_prop in H. destruct H as [Htext Hgroup].
  cbn [linesAgree].
  split; [apply String.eqb_eq; exact Htext|].
  split; [apply Bool.eqb_prop; exact Hgroup|].
  split; [apply tag_eqb_eq; exact Htag|].
  split; [|apply IH; exact Hrest].
  intros Hend.
  assert (Hinner : group_with_next a && negb (length la =? 0) = false).
  { destruct Hend as [Hg|Hl]; [rewrite Hg; reflexivity|].
    rewrite Hl. apply andb_false_r. }
  rewrite Hinner in Hflags. apply andb_prop in Hflags.
  destruct Hflags as [Hc Ht].
  split; apply Bool.eqb_prop; assumption.
Qed.

Lemma sameScript_agree (sd1 sd2 : Script) :
  sameScript sd1 sd2 = true -> scriptAgree sd1 sd2.
Proof.
  unfold sameScript, scriptAgree.
  generalize (sections sd1) (sections sd2). intros l1.
  induction l1 as [|s1 l1 IH]; intros [|s2 l2] H; cbn in H;
    try discriminate; constructor.
  - apply andb_prop in H. destruct H as [H _].
    apply andb_prop in H. destruct H as [Ha Hl].
    split; [apply Bool.eqb_prop; exact Ha | apply sameButInnerFlags_agree; exact Hl].
  - apply andb_prop in H. destruct H as [_ H]. apply IH. exact H.
Qed.

Lemma documentLoop_from (groupedLines : list (Line * nat)) (vars : DocumentVars) :
  fold_left documentStep groupedLines vars =
  match lastDocument groupedLines with
  | Some d => (true, Some d, Some d)
  | None => vars
  end.
Proof.
  revert vars. induction groupedLines as [|item rest IH]; intros vars; [reflexivity|].
  cbn [fold_left lastDocument]. rewrite IH.
  destruct (lastDocument rest); [reflexivity|].
  unfold documentStep. destruct (documentOf (fst item)); reflexivity.
Qed.

(** What [playNextLine] does with a group, read off [speakGrouped]: the
    document tag that counts and the flags handed to the callback. *)
Lemma speakGrouped_flags (section : ScriptSection)
    (groupedLines : list (Line * nat)) (lastLine : Line) (lastIndex : nat)
    (st : State) :
  let st' := speakGrouped section groupedLines lastLine lastIndex st in
  currentCaptureType st' =
    match lastDocument groupedLines with
    | Some d => Some d
    | None => currentCaptureType st
    end /\
  document_text (dom st') =
    match lastDocument groupedLines with
    | Some d => Some d
    | None => document_text (dom st)
    end /\
  exists u,
    speechQueue st' = map cancelUtterance (speechQueue st) ++ [u] /\
    utterance_callback u =
      mkCallback lastIndex
        (section_auto_terminate section || auto_terminate lastLine)
        (capture_mode lastLine)
        (match lastDocument groupedLines with Some _ => true | None => false end).
Proof.
  unfold speakGrouped, documentLoop. rewrite documentLoop_from.
  destruct (lastDocument groupedLines); cbn; repeat split; eexists; split; reflexivity.
Qed.

(** C3, amended. Of the flags of a group's lines, [capture_mode] and
    [auto_terminate] are read from the last line only (together with the
    section's own [auto_terminate]); [action_required] is read from every
    line of the group, and the last line carrying a recognised tag decides.

    First, two scripts that differ only in [capture_mode] and
    [auto_terminate] of lines that cannot end a group ([sameScript]) run
    identically: whatever the events, the two sessions agree on every field
    of the page other than the script itself. Second, the document loop
    yields the document of the last tagged line of the group
    ([lastDocument]), and leaves the capture type alone when no line is
    tagged. Third, when [playNextLine] speaks the group at the cursor, the
    capture type and the document text become that document, and the
    callback handed to the speech engine carries the index, [capture_mode]
    and [auto_terminate] of the group's last line and whether some line was
    tagged. Fourth, the callback of a capture unit shows the document
    indicator when that flag is set. *)
Theorem flags_of_earlier_lines_do_not_count
    (sd1 sd2 : Script) (st : State) (events : list Event) :
  sameScript sd1 sd2 = true ->
  forallb noScriptArrives events = true ->
  run events (set_scriptData (Some sd2) st) =
  set_scriptData (Some sd2) (run events (set_scriptData (Some sd1) st)) /\
  (forall groupedLines captureType,
     documentLoop groupedLines captureType =
     match lastDocument groupedLines with
     | Some d => (true, Some d, Some d)
     | None => (false, None, captureType)
     end) /\
  (forall st1 sd section,
     scriptData st1 = Some sd -> isAutoPlaying st1 = true ->
     nth_error (sections sd) (currentSectionIndex st1) = Some section ->
     currentLineIndex st1 < length (script_lines section) ->
     exists n lastLine st2,
       nth_error (script_lines section) (currentLineIndex st1 + n) = Some lastLine /\
       collectGroupedLines st1 =
         Some (groupOf (script_lines section) (currentLineIndex st1) n) /\
       playNextLine st1 = Returned st2 /\
       currentCaptureType st2 =
         match lastDocument (groupOf (script_lines section) (currentLineIndex st1) n) with
         | Some d => Some d
         | None => currentCaptureType st1
         end /\
       document_text (dom st2) =
         match lastDocument (groupOf (script_lines section) (currentLineIndex st1) n) with
         | Some d => Some d
         | None => document_text (dom st1)
         end /\
       exists u,
         speechQueue st2 = map cancelUtterance (speechQueue st1) ++ [u] /\
         utterance_callback u =
           mkCallback (currentLineIndex st1 + n)
             (section_auto_terminate section || auto_terminate lastLine)
             (capture_mode lastLine)
             (match lastDocument
                      (groupOf (script_lines section) (currentLineIndex st1) n) with
              | Some _ => true
              | None => false
              end)) /\
  (forall cb st1,
     isAutoTerminate cb = false -> isCaptureMode cb = true ->
     exists st2,
       runCallback cb st1 = Returned st2 /\
       capture_overlay (dom st2) = true /\
       document_indicator (dom st2) =
         (if showDocument cb then true else document_indicator (dom st1))).
Proof.
  intros Hsame Hev. apply sameScript_agree in Hsame.
  split; [|split; [|split]].
  - assert (Hgen : forall st1, scriptData st1 = Some sd1 ->
              run events (set_scriptData (Some sd2) st1) =
              set_scriptData (Some sd2) (run events st1)).
    { induction events as [|e events IH]; intros st1 Hsd; [reflexivity|].
      cbn in Hev. apply andb_prop in Hev. destruct Hev as [He Hev].
      change (run (e :: events) ?s) with (run events (step s e)).
      rewrite (step_same sd1 sd2 st1 e Hsame Hsd He).
      apply IH; [exact Hev|].
      rewrite step_script by exact He. exact Hsd. }
    exact (Hgen (set_scriptData (Some sd1) st) eq_refl).
  - intros groupedLines captureType. unfold documentLoop.
    rewrite documentLoop_from. destruct (lastDocument groupedLines); reflexivity.
  - intros st1 sd section Hsd Hplay Hsec Hin.
    destruct (collectFrom_group (script_lines section) (currentLineIndex st1) Hin)
      as (n & Hn & Hgroup & _).
    destruct (nth_error (script_lines section) (currentLineIndex st1 + n))
      as [lastLine|] eqn:Hlast; [|apply nth_error_None in Hlast; lia].
    exists n, lastLine.
    exists (speakGrouped section
              (groupOf (script_lines section) (currentLineIndex st1) n)
              lastLine (currentLineIndex st1 + n) st1).
    split; [exact Hlast|]. split; [|split].
    + unfold collectGroupedLines. rewrite Hsd, Hsec, Hgroup. reflexivity.
    + rewrite playNextLine_step, Hsd, Hplay, Hsec.
      apply Nat.leb_gt in Hin. rewrite Hin.
      unfold speakGroup. rewrite Hgroup.
      rewrite (groupOf_lastItem _ _ _ lastLine Hn Hlast). reflexivity.
    + apply speakGrouped_flags.
  - intros cb st1 Hterm Hcap. unfold runCallback. rewrite Hterm, Hcap.
    eexists. split; [reflexivity|].
    unfold showCaptureControls. destruct (showDocument cb); cbn; split; reflexivity.
Qed.

Lemma flags_of_earlier_lines_do_not_count_witness :
  run [ClickStart true; SpeechEvent 0; ClickCapture 3 "frame"; ClickCaptureNext]
    (set_scriptData (Some (innerFlagsScript false)) (pageLoaded true)) =
  set_scriptData (Some (innerFlagsScript false))
    (run [ClickStart true; SpeechEvent 0; ClickCapture 3 "frame"; ClickCaptureNext]
       (set_scriptData (Some (innerFlagsScript true)) (pageLoaded true))) /\
  (forall groupedLines captureType,
     documentLoop groupedLines captureType =
     match lastDocument groupedLines with
     | Some d => (true, Some d, Some d)
     | None => (false, None, captureType)
     end) /\
  (forall st1 sd section,
     scriptData st1 = Some sd -> isAutoPlaying st1 = true ->
     nth_error (sections sd) (currentSectionIndex st1) = Some section ->
     currentLineIndex st1 < length (script_lines section) ->
     exists n lastLine st2,
       nth_error (script_lines section) (currentLineIndex st1 + n) = Some lastLine /\
       collectGroupedLines st1 =
         Some (groupOf (script_lines section) (currentLineIndex st1) n) /\
       playNextLine st1 = Returned st2 /\
       currentCaptureType st2 =
         match lastDocument (groupOf (script_lines section) (currentLineIndex st1) n) with
         | Some d => Some d
         | None => currentCaptureType st1
         end /\
       document_text (dom st2) =
         match lastDocument (groupOf (script_lines section) (currentLineIndex st1) n) with
         | Some d => Some d
         | None => document_text (dom st1)
         end /\
       exists u,
         speechQueue st2 = map cancelUtterance (speechQueue st1) ++ [u] /\
         utterance_callback u =
           mkCallback (currentLineIndex st1 + n)
             (section_auto_terminate section || auto_terminate lastLine)
             (capture_mode lastLine)
             (match lastDocument
                      (groupOf (script_lines section) (currentLineIndex st1) n) with
              | Some _ => true
              | None => false
              end)) /\
  (forall cb st1,
     isAutoTerminate cb = false -> isCaptureMode cb = true ->
     exists st2,
       runCallback cb st1 = Returned st2 /\
       capture_overlay (dom st2) = true /\
       document_indicator (dom st2) =
         (if showDocument cb then true else document_indicator (dom st1))).
Proof.
  apply (flags_of_earlier_lines_do_not_count
           (innerFlagsScript true) (innerFlagsScript false) (pageLoaded true)
           [ClickStart true; SpeechEvent 0; ClickCapture 3 "frame"; ClickCaptureNext]).
  - reflexivity.
  - reflexivity.
Defined.

(** A group whose two lines name different documents: the later tag
    decides. *)
Example lastDocument_ex :
  let group :=
    [(mkLine "Show PAN" true false (Some "customer_shows_pan") false, 0);
     (mkLine "Now Aadhaar" true false (Some "customer_shows_aadhaar") false, 1);
     (mkLine "Hold it steady" false true (Some "something_else") false, 2)] in
  lastDocument group = Some aadhaar /\
  documentLoop group (Some pan) = (true, Some aadhaar, Some aadhaar).
Proof. split; reflexivity. Qed.

(** ** Traversal of the whole script *)





Lemma remaining_start (sd : Script) :
  sections sd <> [] -> remaining sd (0, 0) = allLines sd.
Proof.
  intros H. unfold remaining, allLines.
  destruct (sections sd) as [|section rest]; [contradiction|].
  cbn. rewrite Nat.sub_0_r. reflexivity.
Qed.

Lemma remaining_next_section (sd : Script) (s l : nat) (section : ScriptSection) :
  nth_error (sections sd) s = Some section ->
  length (script_lines section) <= l ->
  remaining sd (s, l) = remaining sd (S s, 0).
Proof.
  intros Hsec Hend. unfold remaining. cbn [fst snd]. rewrite Hsec.
  replace (length (script_lines section) - l) with 0 by lia. cbn [seq map app].
  destruct (nth_error (sections sd) (S s)) as [next|] eqn:Hnext.
  - rewrite (skipn_nth_error_cons _ _ _ Hnext). cbn [positionsFrom].
    rewrite Nat.sub_0_r. reflexivity.
  - apply nth_error_None in Hnext.
    rewrite (skipn_all2 (sections sd)) by exact Hnext.
    rewrite (skipn_all2 (sections sd)) by lia. reflexivity.
Qed.

Lemma remaining_past_end (sd : Script) (s l : nat) :
  length (sections sd) <= s -> remaining sd (s, l) = [].
Proof.
  intros H. unfold remaining. cbn [fst snd].
  assert (Hnone : nth_error (sections sd) s = None) by (apply nth_error_None; exact H).
  rewrite Hnone, (skipn_all2 (sections sd)) by lia. reflexivity.
Qed.

Lemma remaining_group (sd : Script) (s l n : nat) (section : ScriptSection) :
  nth_error (sections sd) s = Some section ->
  l + n < length (script_lines section) ->
  remaining sd (s, l) =
  map (pair s) (seq l (S n)) ++ remaining sd (s, S (l + n)).
Proof.
  intros Hsec Hn. unfold remaining. cbn [fst snd]. rewrite Hsec.
  rewrite app_assoc. f_equal. rewrite <- map_app. f_equal.
  replace (length (script_lines section) - l)
    with (S n + (length (script_lines section) - S (l + n))) by lia.
  rewrite seq_app. f_equal. f_equal. lia.
Qed.

Lemma narratedLines_app (st : State) (n : Narration) (st' : State) :
  narrated st' = narrated st ++ [n] ->
  narratedLines st' =
  narratedLines st ++ map (pair (narration_section n)) (narration_lines n).
Proof.
  intros H. unfold narratedLines. rewrite H, flat_map_app. cbn.
  rewrite app_nil_r. reflexivity.
Qed.

Lemma finishScript_finished (sd : Script) (st : State) :
  playing sd st -> speechQueue st = [] ->
  length (sections sd) = S (currentSectionIndex st) ->
  finished sd (finishScript st) /\ narrated (finishScript st) = narrated st.
Proof.
  intros (Hsd & Hp & Hrec & r & Hr) Hq Hlast.
  destruct (finishScript_fields st) as (Hc & _ & Hn & Hp' & _ & Hv & Hco & Hq').
  split; [|exact Hn].
  unfold finished. rewrite Hc, Hp', Hv, Hco, Hlast. repeat split.
  - unfold finishScript.
    apply (stopRecording_when_recording
             (hideAllOverlays (set_isAutoPlaying false (enterNextSection st))) r);
      assumption.
  - rewrite Hq in Hq'. apply map_eq_nil in Hq'. exact Hq'.
Qed.

(** *** Units *)

Lemma groupsOf_group (lines : list Line) (n idx : nat) (pending : list nat)
    (lastLine : Line) :
  idx + n < length lines ->
  (forall j line, j < n -> nth_error lines (idx + j) = Some line ->
                  group_with_next line = true) ->
  nth_error lines (idx + n) = Some lastLine ->
  group_with_next lastLine = false \/ idx + n + 1 = length lines ->
  groupsOf (skipn idx lines) idx pending =
  (pending ++ seq idx (S n)) ::
  groupsOf (skipn (S (idx + n)) lines) (S (idx + n)) [].
Proof.
  revert idx pending. induction n as [|n IH]; intros idx pending Hn Hall Hlast Hend.
  - rewrite Nat.add_0_r in *.
    rewrite (skipn_nth_error_cons _ _ _ Hlast). cbn [groupsOf seq].
    destruct (group_with_next lastLine) eqn:Hg; [|reflexivity].
    destruct Hend as [Hend|Hend]; [discriminate|].
    rewrite (skipn_all2 lines) by lia. cbn [groupsOf].
    destruct (pending ++ [idx]) eqn:E; [|reflexivity].
    destruct pending; discriminate.
  - destruct (nth_error lines idx) as [line|] eqn:Hline;
      [|apply nth_error_None in Hline; lia].
    assert (Hg : group_with_next line = true).
    { apply (Hall 0 line); [lia|]. rewrite Nat.add_0_r. exact Hline. }
    rewrite (skipn_nth_error_cons _ _ _ Hline). cbn [groupsOf]. rewrite Hg.
    rewrite (IH (S idx) (pending ++ [idx])).
    + replace (S idx + n) with (idx + S n) by lia.
      rewrite <- app_assoc. reflexivity.
    + lia.
    + intros j l Hj Hl. apply (Hall (S j) l); [lia|].
      replace (idx + S j) with (S idx + j) by lia. exact Hl.
    + replace (S idx + n) with (idx + S n) by lia. exact Hlast.
    + destruct Hend as [Hend|Hend]; [left; exact Hend | right; lia].
Qed.


Lemma remainingUnits_next_section (sd : Script) (s l : nat) (section : ScriptSection) :
  nth_error (sections sd) s = Some section ->
  length (script_lines section) <= l ->
  remainingUnits sd (s, l) = remainingUnits sd (S s, 0).
Proof.
  intros Hsec Hend. unfold remainingUnits. cbn [fst snd]. rewrite Hsec.
  rewrite (skipn_all2 (script_lines section)) by exact Hend. cbn [groupsOf map app].
  destruct (nth_error (sections sd) (S s)) as [next|] eqn:Hnext.
  - rewrite (skipn_nth_error_cons _ _ _ Hnext). reflexivity.
  - apply nth_error_None in Hnext.
    rewrite (skipn_all2 (sections sd)) by exact Hnext.
    rewrite (skipn_all2 (sections sd)) by lia. reflexivity.
Qed.

Lemma remainingUnits_past_end (sd : Script) (s l : nat) :
  length (sections sd) <= s -> remainingUnits sd (s, l) = [].
Proof.
  intros H. unfold remainingUnits. cbn [fst snd].
  assert (Hnone : nth_error (sections sd) s = None) by (apply nth_error_None; exact H).
  rewrite Hnone, (skipn_all2 (sections sd)) by lia. reflexivity.
Qed.

Lemma remainingUnits_group (sd : Script) (s l n : nat)
    (section : ScriptSection) (lastLine : Line) :
  nth_error (sections sd) s = Some section ->
  l + n < length (script_lines section) ->
  (forall j line, j < n -> nth_error (script_lines section) (l + j) = Some line ->
                  group_with_next line = true) ->
  nth_error (script_lines section) (l + n) = Some lastLine ->
  group_with_next lastLine = false \/ l + n + 1 = length (script_lines section) ->
  remainingUnits sd (s, l) = (s, seq l (S n)) :: remainingUnits sd (s, S (l + n)).
Proof.
  intros Hsec Hn Hall Hlast Hend. unfold remainingUnits. cbn [fst snd]. rewrite Hsec.
  rewrite (groupsOf_group _ n l [] lastLine Hn Hall Hlast Hend). reflexivity.
Qed.

Lemma narratedUnits_app (st : State) (n : Narration) (st' : State) :
  narrated st' = narrated st ++ [n] ->
  narratedUnits st' =
  narratedUnits st ++ [(narration_section n, narration_lines n)].
Proof. intros H. unfold narratedUnits. rewrite H, map_app. reflexivity. Qed.



(** *** One call of [playNextLine] *)

Lemma finishScript_stops (st : State) (r : MediaRecorder) :
  mediaRecorder st = Some r -> isRecording st = true ->
  mediaRecorder (finishScript st) = Some (recorder_stop r) /\
  timerInterval (finishScript st) = false /\
  stop_btn_disabled (dom (finishScript st)) = true.
Proof.
  intros Hr Hrec. unfold finishScript, stopRecording. cbn. rewrite Hr, Hrec.
  destruct (capturedImages st); cbn; auto.
Qed.

(** On a page that is playing the script with nothing being spoken,
    [playNextLine] returns: either nothing is left from the cursor on and
    the session is finished, the recorder stopped; or the group at the next
    line is spoken as one unit. *)
Lemma playNextLine_advances (sd : Script) (st : State) :
  playing sd st -> speechQueue st = [] ->
  currentSectionIndex st < length (sections sd) ->
  exists st',
    playNextLine st = Returned st' /\
    ((remaining sd (cursor st) = [] /\
      finished sd st' /\ narrated st' = narrated st /\
      remainingUnits sd (cursor st) = [] /\
      mediaRecorder st' = option_map recorder_stop (mediaRecorder st) /\
      timerInterval st' = false /\
      stop_btn_disabled (dom st') = true) \/
     (exists u n section,
        playing sd st' /\
        speechQueue st' = [u] /\
        lastLineIndex (utterance_callback u) = currentLineIndex st' + n /\
        nth_error (sections sd) (currentSectionIndex st') = Some section /\
        currentLineIndex st' + n < length (script_lines section) /\
        video_overlay (dom st') = false /\
        capture_overlay (dom st') = false /\
        narratedLines st' =
          narratedLines st ++
          map (pair (currentSectionIndex st')) (seq (currentLineIndex st') (S n)) /\
        remaining sd (cursor st) =
          map (pair (currentSectionIndex st')) (seq (currentLineIndex st') (S n)) ++
          remaining sd (currentSectionIndex st', S (currentLineIndex st' + n)) /\
        narratedUnits st' =
          narratedUnits st ++
          [(currentSectionIndex st', seq (currentLineIndex st') (S n))] /\
        remainingUnits sd (cursor st) =
          (currentSectionIndex st', seq (currentLineIndex st') (S n)) ::
          remainingUnits sd (currentSectionIndex st', S (currentLineIndex st' + n)) /\
        mediaRecorder st' = mediaRecorder st)).
Proof.
  apply playNextLine_cases with
    (P := fun st c =>
       playing sd st -> speechQueue st = [] ->
       currentSectionIndex st < length (sections sd) ->
       exists st',
         c = Returned st' /\
         ((remaining sd (cursor st) = [] /\
           finished sd st' /\ narrated st' = narrated st /\
           remainingUnits sd (cursor st) = [] /\
           mediaRecorder st' = option_map recorder_stop (mediaRecorder st) /\
           timerInterval st' = false /\
           stop_btn_disabled (dom st') = true) \/
          (exists u n section,
             playing sd st' /\
             speechQueue st' = [u] /\
             lastLineIndex (utterance_callback u) = currentLineIndex st' + n /\
             nth_error (sections sd) (currentSectionIndex st') = Some section /\
             currentLineIndex st' + n < length (script_lines section) /\
             video_overlay (dom st') = false /\
             capture_overlay (dom st') = false /\
             narratedLines st' =
               narratedLines st ++
               map (pair (currentSectionIndex st'))
                 (seq (currentLineIndex st') (S n)) /\
             remaining sd (cursor st) =
               map (pair (currentSectionIndex st'))
                 (seq (currentLineIndex st') (S n)) ++
               remaining sd (currentSectionIndex st', S (currentLineIndex st' + n)) /\
             narratedUnits st' =
               narratedUnits st ++
               [(currentSectionIndex st', seq (currentLineIndex st') (S n))] /\
             remainingUnits sd (cursor st) =
               (currentSectionIndex st', seq (currentLineIndex st') (S n)) ::
               remainingUnits sd
                 (currentSectionIndex st', S (currentLineIndex st' + n)) /\
             mediaRecorder st' = mediaRecorder st)));
    clear st.
  - intros st Hnone (Hsd & _). congruence.
  - intros st Hoff (_ & Hp & _). congruence.
  - intros st sd' Hsd' _ Hnone (Hsd & _) _ Hlt.
    assert (sd' = sd) by congruence. subst sd'.
    apply nth_error_None in Hnone. lia.
  - (* a group is spoken *)
    intros st sd' section Hsd' _ Hsec Hin Hplay Hq Hlt.
    assert (sd' = sd) by (destruct Hplay; congruence). subst sd'.
    destruct (speakGroup_returns section st Hin)
      as (n & lastLine & Hn & Hlast & Hall & Hend & Hret).
    pose proof (speakGrouped_fields section
                  (groupOf (script_lines section) (currentLineIndex st) n)
                  lastLine (currentLineIndex st + n) st) as Hfields.
    cbv zeta in Hfields.
    remember (speakGrouped section _ lastLine _ st) as st' eqn:Hst'.
    destruct Hfields as (Hc & Hsd1 & Hp1 & Hr1 & Hm1 & _ & _ & Hv & Hco & Hqueue & Hnar).
    unfold cursor in Hc. injection Hc as Hs' Hl'.
    exists st'. split; [exact Hret|]. right.
    eexists. exists n, section. rewrite Hq in Hqueue. cbn [map app] in Hqueue.
    split; [|split; [exact Hqueue|]].
    { destruct Hplay as (H1 & H2 & H3 & r & H4).
      unfold playing. rewrite Hsd1, Hp1, Hr1, Hm1. eauto. }
    cbn [utterance_callback callbackOf lastLineIndex].
    rewrite Hs', Hl'.
    split; [reflexivity|]. split; [exact Hsec|]. split; [exact Hn|].
    split; [exact Hv|]. split; [exact Hco|].
    split; [|split; [|split; [|split; [|exact Hm1]]]].
    + rewrite (narratedLines_app st _ st' Hnar). cbn [narration_section narration_lines].
      rewrite groupOf_indices by exact Hn. reflexivity.
    + apply (remaining_group sd _ _ n section Hsec Hn).
    + rewrite (narratedUnits_app st _ st' Hnar). cbn [narration_section narration_lines].
      rewrite groupOf_indices by exact Hn. reflexivity.
    + apply (remainingUnits_group sd _ _ n section lastLine Hsec Hn Hall Hlast Hend).
  - (* the script is exhausted *)
    intros st sd' section Hsd' _ Hsec Hend Hlast Hplay Hq Hlt.
    assert (sd' = sd) by (destruct Hplay; congruence). subst sd'.
    exists (finishScript st). split; [reflexivity|]. left.
    destruct (finishScript_finished sd st Hplay Hq) as [Hfin Hnar]; [lia|].
    destruct Hplay as (_ & _ & Hrec & r & Hr).
    destruct (finishScript_stops st r Hr Hrec) as (Hm & Ht & Hstop).
    unfold cursor.
    rewrite (remaining_next_section sd _ _ section Hsec Hend).
    rewrite (remainingUnits_next_section sd _ _ section Hsec Hend).
    rewrite remaining_past_end, remainingUnits_past_end by lia.
    rewrite Hr. cbn [option_map].
    split; [reflexivity|]. split; [exact Hfin|]. split; [exact Hnar|].
    split; [reflexivity|]. split; [exact Hm|]. split; [exact Ht | exact Hstop].
  - (* the next section is entered *)
    intros st sd' section Hsd' _ Hsec Hend Hmore IH Hplay Hq Hlt.
    assert (sd' = sd) by (destruct Hplay; congruence). subst sd'.
    destruct IH as (st' & Hret & Hcases); [exact Hplay | exact Hq | exact Hmore |].
    exists st'. split; [exact Hret|].
    unfold cursor in *.
    rewrite (remaining_next_section sd _ _ section Hsec Hend).
    rewrite (remainingUnits_next_section sd _ _ section Hsec Hend).
    exact Hcases.
Qed.

(** *** A user who answers every overlay *)






(** *** Whatever the user does *)

Lemma playNextLine_following (sd : Script) (before : list (nat * nat)) (st : State) :
  playing sd st -> speechQueue st = [] ->
  start_btn_disabled (dom st) = true ->
  currentSectionIndex st < length (sections sd) ->
  narratedLines st ++ remaining sd (cursor st) = before ++ allLines sd ->
  following sd before (stateOf (playNextLine st)).
Proof.
  intros Hplay Hq Hb Hlt Hnar.
  pose proof (playNextLine_start_btn st) as Hb'.
  pose proof (playNextLine_script st) as Hsd'.
  destruct (playNextLine_advances sd st Hplay Hq Hlt)
    as (st' & Hret & [(Hrem & Hfin & Hnar' & _)|(u & n & section & Hplay' & Hq' & Hlast &
                                                 Hsec & Hn & Hv & Hco & Hnar' & Hrem & _)]);
    rewrite Hret in *; cbn [stateOf] in *.
  - destruct Hfin as (Hp & _ & Hq' & _ & _ & Hc).
    unfold following.
    split; [destruct Hplay; congruence|]. split; [congruence|].
    exists []. rewrite app_nil_r. split; [|split; [reflexivity|congruence]].
    rewrite Hrem, app_nil_r in Hnar. unfold narratedLines in *. congruence.
  - unfold following.
    split; [destruct Hplay'; assumption|]. split; [congruence|].
    eexists. split; [|split].
    + rewrite Hnar', <- app_assoc, <- Hrem. exact Hnar.
    + intros Hk. assert (currentSectionIndex st' < length (sections sd))
        by (apply nth_error_Some; congruence). lia.
    + intros _. destruct Hplay' as (_ & _ & Hrec & Hm).
      split; [exact Hrec|]. split; [exact Hm|].
      exists section. split; [exact Hsec|]. rewrite Hq', Hlast.
      repeat split; auto; lia.
Qed.

Lemma step_not_playing (st : State) (e : Event) :
  isAutoPlaying st = false -> start_btn_disabled (dom st) = true ->
  currentSectionIndex (step st e) = currentSectionIndex st.
Proof.
  intros Hp Hb. unfold step.
  destruct (deliverable e st) eqn:Hd; [|reflexivity].
  destruct e as [response|ok| | |now frame| | |i|chunk|]; cbn [handle deliverable] in *.
  - destruct response; reflexivity.
  - rewrite Hb in Hd. discriminate.
  - destruct (stopRecording_fields st) as (Hc & _). unfold cursor in Hc. congruence.
  - unfold handleNextQuestion. rewrite Hp. reflexivity.
  - reflexivity.
  - unfold retakeImage. destruct (findIndex _ _); reflexivity.
  - unfold handleCaptureNext. rewrite Hp. reflexivity.
  - destruct (nth_error (speechQueue st) i) as [u|]; [|reflexivity].
    destruct (runCallback_not_playing (utterance_callback u)
                (set_speechQueue (splice1 i (speechQueue st)) st) Hp)
      as (_ & _ & _ & _ & _ & H & _).
    exact H.
  - unfold onDataAvailable. destruct (0 <? length chunk); reflexivity.
  - destruct (mediaRecorder st); reflexivity.
Qed.

Lemma following_next (sd : Script) (before : list (nat * nat)) (st : State) :
  following sd before st -> isAutoPlaying st = true -> speechQueue st = [] ->
  following sd before
    (stateOf (playNextLine
                (set_currentLineIndex (S (currentLineIndex (hideAllOverlays st)))
                   (hideAllOverlays st)))).
Proof.
  intros (Hsd & Hb & rest & Hnar & _ & Hshape) Hp Hq.
  destruct (Hshape Hp) as (Hrec & (r & Hm) & section & Hsec & Hcur).
  rewrite Hq in Hcur. destruct Hcur as (_ & ->).
  apply playNextLine_following; auto.
  - unfold playing. cbn. eauto.
  - cbn. apply nth_error_Some. congruence.
Qed.

Lemma step_following (sd : Script) (before : list (nat * nat))
    (st : State) (e : Event) :
  noScriptArrives e = true ->
  following sd before st -> following sd before (step st e).
Proof.
  intros He Hf. pose proof Hf as (Hsd & Hb & rest & Hnar & Hend & Hshape).
  destruct (isAutoPlaying st) eqn:Hp.
  2:{ (* not auto-playing: nothing is narrated any more *)
    destruct (step_after_stop st e Hp Hb) as (Hp' & Hb' & Hn & _).
    pose proof (step_not_playing st e Hp Hb) as Hs.
    pose proof (step_script st e He) as Hsd'.
    unfold following. rewrite Hsd', Hb', Hs. unfold narratedLines. rewrite Hn.
    split; [exact Hsd|]. split; [reflexivity|].
    exists rest. split; [exact Hnar|]. split; [exact Hend|]. congruence. }
  destruct (Hshape eq_refl) as (Hrec & (r & Hm) & section & Hsec & Hcur).
  unfold step. destruct (deliverable e st) eqn:Hd; [|exact Hf].
  destruct e as [[sd'|]|ok| | |now frame| | |i|chunk|];
    cbn [handle deliverable] in *; try discriminate.
  - exact Hf.
  - rewrite Hb in Hd. discriminate.
  - (* stop *)
    destruct (stopRecording_fields st) as (Hc & Hsd' & Hn & _ & _ & Hb' & _).
    destruct (stopRecording_when_recording st r Hm Hrec) as (Hoff & _).
    unfold cursor in Hc. injection Hc as Hs Hl.
    unfold following. rewrite Hsd', Hb', Hs. unfold narratedLines. rewrite Hn.
    split; [exact Hsd|]. split; [exact Hb|].
    exists rest. split; [exact Hnar|]. split; [exact Hend|]. congruence.
  - (* next *)
    destruct (speechQueue st) as [|u [|v q]] eqn:Hq; [| |contradiction].
    + unfold handleNextQuestion. rewrite Hp.
      apply following_next; assumption.
    + destruct Hcur as (Hv & _). congruence.
  - (* capture *)
    destruct (speechQueue st) as [|u [|v q]] eqn:Hq; [| |contradiction].
    + unfold following. cbn. rewrite Hq.
      split; [exact Hsd|]. split; [exact Hb|].
      exists rest. split; [exact Hnar|]. split; [exact Hend|].
      intros _. split; [exact Hrec|]. split; [eauto|]. exists section. auto.
    + destruct Hcur as (_ & Hco & _). rewrite Hco in Hd. discriminate.
  - (* retake *)
    destruct (speechQueue st) as [|u [|v q]] eqn:Hq; [| |contradiction].
    + unfold following, retakeImage. destruct (findIndex _ _); cbn; rewrite Hq;
        (split; [exact Hsd|]; split; [exact Hb|];
         exists rest; split; [exact Hnar|]; split; [exact Hend|];
         intros _; split; [exact Hrec|]; split; [eauto|]; exists section; auto).
    + destruct Hcur as (_ & Hco & _). rewrite Hco in Hd. discriminate.
  - (* capture next *)
    destruct (speechQueue st) as [|u [|v q]] eqn:Hq; [| |contradiction].
    + unfold handleCaptureNext. rewrite Hp.
      apply following_next; assumption.
    + destruct Hcur as (_ & Hco & _). rewrite Hco in Hd. discriminate.
  - (* speech event *)
    apply Nat.ltb_lt in Hd.
    destruct (speechQueue st) as [|u [|v q]] eqn:Hq; [cbn in Hd; lia| |contradiction].
    destruct i as [|i]; [|cbn in Hd; lia].
    destruct Hcur as (Hv & Hco & Hle & Hlast & Hrest).
    cbn [nth_error splice1 firstn skipn app].
    unfold runCallback.
    destruct (isAutoTerminate (utterance_callback u)).
    + apply playNextLine_following.
      * unfold playing. cbn. eauto.
      * reflexivity.
      * exact Hb.
      * cbn. apply nth_error_Some. congruence.
      * unfold narratedLines, cursor in *. cbn [narrated currentSectionIndex currentLineIndex set_currentLineIndex set_speechQueue]. rewrite <- Hrest. exact Hnar.
    + destruct (isCaptureMode (utterance_callback u)); cbn [stateOf];
        unfold following; cbn;
        (split; [exact Hsd|]);
        (split; [try (destruct (showDocument (utterance_callback u))); exact Hb|]);
        exists rest; (split; [exact Hnar|]); (split; [exact Hend|]);
        intros _; (split; [exact Hrec|]); (split; [eauto|]);
        exists section; auto.
  - (* data *)
    unfold onDataAvailable. destruct (0 <? length chunk); exact Hf.
  - (* recorder stop event *)
    rewrite Hm. unfold following. cbn.
    split; [exact Hsd|]. split; [exact Hb|].
    exists rest. split; [exact Hnar|]. split; [exact Hend|].
    intros _. split; [exact Hrec|]. split; [eauto|]. exists section. auto.
Qed.

Lemma run_following (sd : Script) (before : list (nat * nat))
    (events : list Event) (st : State) :
  forallb noScriptArrives events = true ->
  following sd before st -> following sd before (run events st).
Proof.
  revert st. induction events as [|e events IH]; intros st Hev Hf; [exact Hf|].
  cbn in Hev. apply andb_prop in Hev. destruct Hev as [He Hev].
  apply (IH (step st e) Hev). apply step_following; assumption.
Qed.

Lemma startRecording_following (sd : Script) (st0 : State) :
  sections sd <> [] ->
  scriptData st0 = Some sd -> stream st0 = true -> speechQueue st0 = [] ->
  following sd (narratedLines st0) (startRecording true st0).
Proof.
  intros Hne Hsd Hs Hq. unfold startRecording. rewrite Hs. cbn [negb].
  set (st1 := set_currentLineIndex 0 _).
  assert (Hplay : playing sd st1) by (unfold playing; subst st1; cbn; eauto).
  assert (Hlt : currentSectionIndex st1 < length (sections sd))
    by (cbn; destruct (sections sd); [contradiction | cbn; lia]).
  assert (Hf : following sd (narratedLines st0) (stateOf (playNextLine st1))).
  { apply playNextLine_following; auto.
    change (cursor st1) with (0, 0). rewrite remaining_start by exact Hne.
    reflexivity. }
  destruct (playNextLine_advances sd st1 Hplay Hq Hlt) as (st' & Hret & _).
  rewrite Hret in *. exact Hf.
Qed.

(** A script without sections is never narrated: [playNextLine] finds no
    section at the cursor. *)
Lemma step_empty_script (sd : Script) (st : State) (e : Event) :
  scriptData st = Some sd -> sections sd = [] -> noScriptArrives e = true ->
  scriptData (step st e) = Some sd /\ narrated (step st e) = narrated st.
Proof.
  intros Hsd Hnil He.
  assert (Hplay : forall st1, scriptData st1 = Some sd ->
            narrated (stateOf (playNextLine st1)) = narrated st1).
  { intros st1 Hsd1. rewrite playNextLine_step, Hsd1, Hnil.
    destruct (isAutoPlaying st1); [|reflexivity].
    destruct (currentSectionIndex st1); reflexivity. }
  split; [rewrite step_script by exact He; exact Hsd|].
  unfold step. destruct (deliverable e st); [|reflexivity].
  destruct e as [[sd'|]|ok| | |now frame| | |i|chunk|]; cbn [handle];
    try discriminate; try reflexivity.
  - unfold startRecording.
    destruct (stream st); cbn [negb]; [|reflexivity].
    destruct ok; cbn [negb]; [|reflexivity].
    set (st1 := set_currentLineIndex 0 _).
    pose proof (Hplay st1 Hsd) as H.
    destruct (playNextLine st1); cbn [stateOf] in H; cbn; exact H.
  - apply stopRecording_fields.
  - unfold handleNextQuestion. destruct (isAutoPlaying st); [|reflexivity].
    rewrite Hplay by exact Hsd. reflexivity.
  - unfold retakeImage. destruct (findIndex _ _); reflexivity.
  - unfold handleCaptureNext. destruct (isAutoPlaying st); [|reflexivity].
    rewrite Hplay by exact Hsd. reflexivity.
  - destruct (nth_error (speechQueue st) i) as [u|]; [|reflexivity].
    unfold runCallback. destruct (isAutoTerminate (utterance_callback u)).
    + rewrite Hplay by exact Hsd. reflexivity.
    + destruct (isCaptureMode (utterance_callback u)); reflexivity.
  - unfold onDataAvailable. destruct (0 <? length chunk); reflexivity.
  - destruct (mediaRecorder st); reflexivity.
Qed.

Lemma run_empty_script (sd : Script) (events : list Event) (st : State) :
  scriptData st = Some sd -> sections sd = [] ->
  forallb noScriptArrives events = true ->
  narrated (run events st) = narrated st.
Proof.
  intros Hsd Hnil. revert st Hsd.
  induction events as [|e events IH]; intros st Hsd Hev; [reflexivity|].
  cbn in Hev. apply andb_prop in Hev. destruct Hev as [He Hev].
  destruct (step_empty_script sd st e Hsd Hnil He) as [Hsd' Hn].
  change (run (e :: events) st) with (run events (step st e)).
  rewrite (IH _ Hsd' Hev). exact Hn.
Qed.

(** *** The whole script *)





Example plainScript_session :
  let final := drive 12 (startRecording true (readyPage plainScript)) in
  narratedLines final = [(0, 0); (0, 1); (2, 0); (2, 1)] /\
  narratedUnits final = [(0, [0; 1]); (2, [0]); (2, [1])] /\
  allUnits plainScript = [(0, [0; 1]); (2, [0]); (2, [1])] /\
  map narration_text (narrated final) =
    ["Hello valued customer. Welcome to our bank"; "Show PAN"; "Show Aadhaar"]%string /\
  map type (capturedImages final) = [Some pan; Some aadhaar] /\
  cursor final = (3, 0) /\
  isRecording final = false /\
  mediaRecorder final = Some (mkRecorder true 1 1).
Proof. vm_compute. repeat split. Qed.

(** A script without sections: [playNextLine] throws on the missing
    section, [startRecording] reports it, and the recording it has already
    started goes on. *)
Example empty_script_start :
  let st := startRecording true (readyPage (mkScript [])) in
  alerts st = [AlertCouldNotStart] /\
  isRecording st = true /\
  isAutoPlaying st = true /\
  narrated st = [].
Proof. vm_compute. repeat split. Qed.

(** * Further properties *)

(** ** Any script, whatever its flags *)

(** X1. Whatever flags the script carries and whatever the user does, the
    lines narrated in a session are an initial part of the script's lines
    in order: no line is skipped or spoken twice, and once the cursor is
    past the last section every line has been spoken. *)
Theorem narration_follows_the_script
    (sd : Script) (st0 : State) (events : list Event) :
  scriptData st0 = Some sd -> stream st0 = true -> speechQueue st0 = [] ->
  forallb noScriptArrives events = true ->
  exists rest,
    narratedLines (run events (startRecording true st0)) ++ rest =
      narratedLines st0 ++ allLines sd /\
    (currentSectionIndex (run events (startRecording true st0)) =
       length (sections sd) -> rest = []).
Proof.
  intros Hsd Hs Hq Hev.
  destruct (sections sd) as [|section secs] eqn:Hsecs.
  - exists []. split; [|reflexivity].
    pose proof (step_empty_script sd st0 (ClickStart true) Hsd Hsecs eq_refl)
      as [Hsd' Hn].
    assert (Hstart : narrated (startRecording true st0) = narrated st0 /\
                     scriptData (startRecording true st0) = Some sd).
    { unfold step in *. destruct (deliverable (ClickStart true) st0) eqn:Hd.
      - split; assumption.
      - clear Hsd' Hn. unfold startRecording. rewrite Hs. cbn [negb].
        set (st1 := set_currentLineIndex 0 _).
        rewrite (playNextLine_step st1).
        change (scriptData st1) with (scriptData st0). rewrite Hsd, Hsecs. cbn.
        split; [reflexivity | exact Hsd]. }
    destruct Hstart as [Hn0 Hsd0].
    unfold narratedLines, allLines.
    rewrite (run_empty_script sd events _ Hsd0 Hsecs Hev), Hn0, Hsecs.
    reflexivity.
  - assert (Hne : sections sd <> []) by (rewrite Hsecs; discriminate).
    rewrite <- Hsecs.
    pose proof (run_following sd (narratedLines st0) events _ Hev
                  (startRecording_following sd st0 Hne Hsd Hs Hq))
      as (_ & _ & rest & Hnar & Hend & _).
    exists rest. split; assumption.
Qed.

Lemma narration_follows_the_script_witness :
  exists rest,
    narratedLines
      (run [SpeechEvent 0; ClickNext; SpeechEvent 0; ClickStop; SpeechEvent 0]
         (startRecording true (readyPage demoScript))) ++ rest =
      narratedLines (readyPage demoScript) ++ allLines demoScript /\
    (currentSectionIndex
       (run [SpeechEvent 0; ClickNext; SpeechEvent 0; ClickStop; SpeechEvent 0]
          (startRecording true (readyPage demoScript))) =
       length (sections demoScript) -> rest = []).
Proof.
  apply (narration_follows_the_script demoScript (readyPage demoScript)
           [SpeechEvent 0; ClickNext; SpeechEvent 0; ClickStop; SpeechEvent 0]).
  - reflexivity.
  - reflexivity.
  - reflexivity.
  - reflexivity.
Defined.



(** ** Controls of a recording *)

Lemma speakGrouped_controls (section : ScriptSection)
    (groupedLines : list (Line * nat)) (lastLine : Line) (lastIndex : nat)
    (st : State) :
  controlsAgree st ->
  controlsAgree (speakGrouped section groupedLines lastLine lastIndex st).
Proof.
  unfold controlsAgree, speakGrouped.
  destruct (documentLoop groupedLines _) as [[showDoc [d|]] ct]; cbn; auto.
Qed.

Lemma stopRecording_controls (st : State) :
  controlsAgree st -> controlsAgree (stopRecording st).
Proof.
  intros H. unfold stopRecording.
  destruct (mediaRecorder st) as [r|] eqn:Hr; [|exact H].
  destruct (isRecording st) eqn:Hrec; [|exact H].
  unfold controlsAgree in *. rewrite Hr, Hrec in H.
  destruct H as (_ & _ & _ & Hb & Hcalls & Hdue).
  destruct (capturedImages _); cbn; rewrite Hcalls; repeat split; auto; lia.
Qed.

Lemma finishScript_controls (st : State) :
  controlsAgree st -> isAutoPlaying st = true ->
  controlsAgree (finishScript st).
Proof.
  intros (Ht & Hp & Hs & Hm) Hplay. unfold finishScript.
  rewrite Hplay in Hp. symmetry in Hp.
  unfold stopRecording. cbn.
  destruct (mediaRecorder st) as [r|] eqn:Hr; [|congruence].
  rewrite Hp in *. destruct Hm as (Hb & Hcalls & Hdue).
  unfold controlsAgree.
  destruct (capturedImages st); cbn; rewrite Hcalls; repeat split; auto; lia.
Qed.

Lemma playNextLine_controls (st : State) :
  controlsAgree st -> controlsAgree (stateOf (playNextLine st)).
Proof.
  apply playNextLine_cases with
    (P := fun st c => controlsAgree st -> controlsAgree (stateOf c));
    clear st; intros st; intros; cbn [stateOf]; auto.
  - unfold speakGroup. destruct (lastItem _) as [[lastLine lastIndex]|];
      cbn [stateOf]; [apply speakGrouped_controls|]; assumption.
  - apply finishScript_controls; assumption.
Qed.

Lemma step_controls (st : State) (e : Event) :
  controlsAgree st -> controlsAgree (step st e).
Proof.
  intros H. unfold step. destruct (deliverable e st) eqn:Hd; [|exact H].
  destruct e as [response|ok| | |now frame| | |i|chunk|]; cbn [handle deliverable] in *.
  - destruct response; exact H.
  - (* start *)
    apply negb_true_iff in Hd.
    destruct H as (Ht & Hp & Hs & Hm).
    assert (Hnone : mediaRecorder st = None).
    { destruct (mediaRecorder st); [destruct Hm; congruence | reflexivity]. }
    rewrite Hnone in Hm.
    unfold startRecording.
    destruct (stream st); cbn [negb];
      [|unfold controlsAgree; cbn; rewrite Hnone; auto].
    destruct ok; cbn [negb];
      [|unfold controlsAgree; cbn; rewrite Hnone; auto].
    set (st1 := set_currentLineIndex 0 _).
    assert (H1 : controlsAgree st1)
      by (unfold controlsAgree; subst st1; cbn; repeat split; auto).
    apply playNextLine_controls in H1.
    destruct (playNextLine st1); cbn [stateOf] in H1; exact H1.
  - apply stopRecording_controls. exact H.
  - unfold handleNextQuestion. destruct (isAutoPlaying st); [|exact H].
    apply playNextLine_controls. exact H.
  - exact H.
  - unfold retakeImage. destruct (findIndex _ _); exact H.
  - unfold handleCaptureNext. destruct (isAutoPlaying st); [|exact H].
    apply playNextLine_controls. exact H.
  - destruct (nth_error (speechQueue st) i) as [u|]; [|exact H].
    unfold runCallback. destruct (isAutoTerminate (utterance_callback u)).
    + apply playNextLine_controls. exact H.
    + destruct (isCaptureMode (utterance_callback u)); cbn [stateOf];
        [destruct (showDocument (utterance_callback u))|]; exact H.
  - unfold onDataAvailable. destruct (0 <? length chunk); exact H.
  - destruct H as (Ht & Hp & Hs & Hm).
    destruct (mediaRecorder st) as [r|] eqn:Hr;
      [|unfold controlsAgree; rewrite Hr; auto].
    unfold controlsAgree. cbn. destruct Hm as (Hb & Hcalls & Hdue).
    repeat split; auto. lia.
Qed.



(** ** The recorded video *)

Lemma speakGrouped_keeps_recording (section : ScriptSection)
    (groupedLines : list (Line * nat)) (lastLine : Line) (lastIndex : nat)
    (st : State) :
  let st' := speakGrouped section groupedLines lastLine lastIndex st in
  recordedChunks st' = recordedChunks st /\
  videoBlob st' = videoBlob st /\
  download_btn_disabled (dom st') = download_btn_disabled (dom st) /\
  metadata_form (dom st') = metadata_form (dom st) /\
  captureUploads st' = captureUploads st.
Proof.
  unfold speakGrouped.
  destruct (documentLoop groupedLines _) as [[showDoc [d|]] ct]; cbn; auto.
Qed.

Lemma stopRecording_keeps_recording (st : State) :
  recordedChunks (stopRecording st) = recordedChunks st /\
  videoBlob (stopRecording st) = videoBlob st /\
  download_btn_disabled (dom (stopRecording st)) = download_btn_disabled (dom st) /\
  metadata_form (dom (stopRecording st)) = metadata_form (dom st).
Proof. stopRecording_cases st; cbn; auto. Qed.

Lemma playNextLine_keeps_recording (st : State) :
  let st' := stateOf (playNextLine st) in
  recordedChunks st' = recordedChunks st /\
  videoBlob st' = videoBlob st /\
  download_btn_disabled (dom st') = download_btn_disabled (dom st) /\
  metadata_form (dom st') = metadata_form (dom st).
Proof.
  cbv zeta.
  apply playNextLine_cases with
    (P := fun st c =>
            recordedChunks (stateOf c) = recordedChunks st /\
            videoBlob (stateOf c) = videoBlob st /\
            download_btn_disabled (dom (stateOf c)) = download_btn_disabled (dom st) /\
            metadata_form (dom (stateOf c)) = metadata_form (dom st));
    clear st; intros st; intros; cbn [stateOf]; auto.
  - unfold speakGroup. destruct (lastItem _) as [[lastLine lastIndex]|];
      cbn [stateOf]; auto.
    pose proof (speakGrouped_keeps_recording section
                  (collectFrom (script_lines section) (currentLineIndex st))
                  lastLine lastIndex st) as Hk.
    cbv zeta in Hk. tauto.
  - unfold finishScript.
    apply (stopRecording_keeps_recording
             (hideAllOverlays (set_isAutoPlaying false (enterNextSection st)))).
Qed.

Lemma stopRecording_keeps_recorder (st : State) :
  (exists r, mediaRecorder st = Some r) ->
  exists r, mediaRecorder (stopRecording st) = Some r.
Proof.
  intros (r & Hr). unfold stopRecording. rewrite Hr.
  destruct (isRecording st); [|eauto].
  destruct (capturedImages _); cbn; eauto.
Qed.

Lemma playNextLine_keeps_recorder (st : State) :
  (exists r, mediaRecorder st = Some r) ->
  exists r, mediaRecorder (stateOf (playNextLine st)) = Some r.
Proof.
  apply playNextLine_cases with
    (P := fun st c => (exists r, mediaRecorder st = Some r) ->
                      exists r, mediaRecorder (stateOf c) = Some r);
    clear st; intros st; intros; cbn [stateOf]; auto.
  - unfold speakGroup. destruct (lastItem _) as [[lastLine lastIndex]|];
      cbn [stateOf]; auto.
    pose proof (speakGrouped_fields section
                  (collectFrom (script_lines section) (currentLineIndex st))
                  lastLine lastIndex st) as Hk.
    cbv zeta in Hk. destruct Hk as (_ & _ & _ & _ & -> & _). assumption.
  - unfold finishScript. apply stopRecording_keeps_recorder. assumption.
Qed.

Lemma run_controls (events : list Event) (st : State) :
  controlsAgree st -> controlsAgree (run events st).
Proof.
  revert st. induction events as [|e events IH]; intros st H; [exact H|].
  apply (IH (step st e)). apply step_controls. exact H.
Qed.

(** In a session the recorded chunks only grow, by the non-empty data the
    recorder delivers. *)
Lemma step_recordedChunks (st : State) (e : Event) :
  start_btn_disabled (dom st) = true ->
  (exists r, mediaRecorder st = Some r) ->
  recordedChunks (step st e) = recordedChunks st ++ chunksOf [e] /\
  (exists r, mediaRecorder (step st e) = Some r).
Proof.
  intros Hb (r & Hr). unfold step, chunksOf.
  destruct (deliverable e st) eqn:Hd.
  2:{ destruct e; cbn [deliverable] in Hd; try rewrite Hr in Hd;
        try discriminate; cbn; rewrite app_nil_r; eauto. }
  destruct e as [response|ok| | |now frame| | |i|chunk|];
    cbn [handle deliverable flat_map app] in *;
    try rewrite app_nil_r.
  - destruct response; eauto.
  - rewrite Hb in Hd. discriminate.
  - destruct (stopRecording_keeps_recording st) as (-> & _).
    split; [reflexivity|]. apply stopRecording_keeps_recorder. eauto.
  - unfold handleNextQuestion. destruct (isAutoPlaying st); cbn [stateOf]; eauto.
    set (st1 := set_currentLineIndex _ _).
    destruct (playNextLine_keeps_recording st1) as (-> & _).
    split; [reflexivity|].
    apply playNextLine_keeps_recorder. eauto.
  - eauto.
  - unfold retakeImage. destruct (findIndex _ _); eauto.
  - unfold handleCaptureNext. destruct (isAutoPlaying st); cbn [stateOf]; eauto.
    set (st1 := set_currentLineIndex _ _).
    destruct (playNextLine_keeps_recording st1) as (-> & _).
    split; [reflexivity|].
    apply playNextLine_keeps_recorder. eauto.
  - destruct (nth_error (speechQueue st) i) as [u|]; eauto.
    unfold runCallback. destruct (isAutoTerminate (utterance_callback u)).
    + set (st1 := set_currentLineIndex _ _).
      destruct (playNextLine_keeps_recording st1) as (-> & _).
      split; [reflexivity|].
      apply playNextLine_keeps_recorder. eauto.
    + destruct (isCaptureMode (utterance_callback u)); cbn [stateOf];
        [destruct (showDocument (utterance_callback u))|]; eauto.
  - unfold onDataAvailable. destruct (0 <? length chunk); cbn;
      rewrite ?app_nil_r; eauto.
  - rewrite Hr. cbn. eauto.
Qed.

Lemma run_recordedChunks (events : list Event) (st : State) :
  start_btn_disabled (dom st) = true ->
  (exists r, mediaRecorder st = Some r) ->
  recordedChunks (run events st) = recordedChunks st ++ chunksOf events.
Proof.
  revert st. induction events as [|e events IH]; intros st Hb Hr.
  - cbn. rewrite app_nil_r. reflexivity.
  - destruct (step_recordedChunks st e Hb Hr) as [Hchunks Hr'].
    change (run (e :: events) st) with (run events (step st e)).
    rewrite IH by (auto using step_keeps_start_disabled).
    rewrite Hchunks, <- app_assoc. f_equal.
    unfold chunksOf. cbn [flat_map]. rewrite app_nil_r. reflexivity.
Qed.

Lemma startRecording_recording (st0 : State) :
  stream st0 = true ->
  controlsAgree (startRecording true st0) /\
  start_btn_disabled (dom (startRecording true st0)) = true /\
  (exists r, mediaRecorder (startRecording true st0) = Some r) /\
  recordedChunks (startRecording true st0) = [].
Proof.
  intros Hs. split; [|split; [apply startRecording_disables_start; exact Hs|]].
  - unfold startRecording. rewrite Hs. cbn [negb].
    set (st1 := set_currentLineIndex 0 _).
    assert (H1 : controlsAgree st1)
      by (unfold controlsAgree; subst st1; cbn; repeat split; auto).
    apply playNextLine_controls in H1.
    destruct (playNextLine st1); cbn [stateOf] in H1; exact H1.
  - unfold startRecording. rewrite Hs. cbn [negb].
    set (st1 := set_currentLineIndex 0 _).
    assert (Hr : exists r, mediaRecorder st1 = Some r) by (subst st1; cbn; eauto).
    apply playNextLine_keeps_recorder in Hr.
    destruct (playNextLine_keeps_recording st1) as (Hc & _).
    destruct (playNextLine st1); cbn [stateOf] in *; split; auto.
Qed.

Lemma step_settled (st : State) (e : Event) :
  settled st ->
  settled (step st e) /\
  videoBlob (step st e) = videoBlob st /\
  download_btn_disabled (dom (step st e)) = download_btn_disabled (dom st) /\
  metadata_form (dom (step st e)) = metadata_form (dom st).
Proof.
  intros Hs. pose proof Hs as (Hb & Hrec & Hp & r & Hr & Hdue).
  unfold step. destruct (deliverable e st) eqn:Hd; [|auto].
  destruct e as [response|ok| | |now frame| | |i|chunk|]; cbn [handle deliverable] in *.
  - destruct response; auto.
  - rewrite Hb in Hd. discriminate.
  - unfold stopRecording. rewrite Hr, Hrec. auto.
  - unfold handleNextQuestion. rewrite Hp. auto.
  - auto.
  - unfold retakeImage. destruct (findIndex _ _); auto.
  - unfold handleCaptureNext. rewrite Hp. auto.
  - destruct (nth_error (speechQueue st) i) as [u|]; [|auto].
    unfold runCallback. destruct (isAutoTerminate (utterance_callback u)).
    + rewrite playNextLine_not_playing by exact Hp. auto.
    + destruct (isCaptureMode (utterance_callback u)); cbn [stateOf];
        [destruct (showDocument (utterance_callback u))|]; auto.
  - unfold onDataAvailable. destruct (0 <? length chunk); auto.
  - rewrite Hr, Hdue in Hd. discriminate.
Qed.

Lemma run_settled (events : list Event) (st : State) :
  settled st ->
  videoBlob (run events st) = videoBlob st /\
  download_btn_disabled (dom (run events st)) = download_btn_disabled (dom st) /\
  metadata_form (dom (run events st)) = metadata_form (dom st).
Proof.
  revert st. induction events as [|e events IH]; intros st Hs; [auto|].
  destruct (step_settled st e Hs) as (Hs' & Hv & Hd & Hm).
  change (run (e :: events) st) with (run events (step st e)).
  destruct (IH _ Hs') as (Hv' & Hd' & Hm'). repeat split; congruence.
Qed.

(** X4. The video offered for download is the data the recorder
    delivered: when the recorder's stop event arrives, the blob is made of
    the non-empty chunks delivered since Start, in order of arrival, the
    Download button is enabled and the metadata form shown; nothing that
    happens afterwards changes the blob, and data delivered later is not
    part of it. *)
Theorem recorded_video_is_the_delivered_data
    (st0 : State) (before after : list Event) :
  stream st0 = true ->
  deliverable RecorderStop (run before (startRecording true st0)) = true ->
  let st := run (before ++ RecorderStop :: after) (startRecording true st0) in
  videoBlob st = Some (concat (chunksOf before)) /\
  download_btn_disabled (dom st) = false /\
  metadata_form (dom st) = true.
Proof.
  intros Hs Hd. cbv zeta.
  destruct (startRecording_recording st0 Hs) as (Hca & Hb & Hr & Hchunks).
  unfold run in *. rewrite fold_left_app. cbn [fold_left].
  fold (run before (startRecording true st0)) in *.
  set (st1 := run before (startRecording true st0)) in *.
  assert (Hca1 : controlsAgree st1) by (apply run_controls; exact Hca).
  assert (Hb1 : start_btn_disabled (dom st1) = true)
    by (apply run_keeps_start_disabled; exact Hb).
  assert (Hc1 : recordedChunks st1 = chunksOf before).
  { subst st1. rewrite run_recordedChunks by assumption. rewrite Hchunks. reflexivity. }
  fold (run after (step st1 RecorderStop)).
  unfold step. rewrite Hd. cbn [handle deliverable] in *.
  destruct Hca1 as (Ht & Hp & Hstop & Hm).
  destruct (mediaRecorder st1) as [r|] eqn:Hr1; [|discriminate].
  apply Nat.ltb_lt in Hd. destruct Hm as (_ & Hcalls & Hdue).
  destruct (isRecording st1) eqn:Hrec; [lia|].
  set (st2 := onStop _).
  assert (Hset : settled st2).
  { unfold settled. subst st2. cbn. repeat split; auto.
    eexists. split; [reflexivity|]. cbn. lia. }
  destruct (run_settled after st2 Hset) as (-> & -> & ->).
  subst st2. cbn. rewrite Hc1. auto.
Qed.

Lemma recorded_video_is_the_delivered_data_witness :
  let st :=
    run ([DataAvailable [1; 2]; DataAvailable []; SpeechEvent 0;
          DataAvailable [3]; ClickStop] ++
         RecorderStop :: [DataAvailable [9]; ClickStop])
      (startRecording true (readyPage demoScript)) in
  videoBlob st =
    Some (concat (chunksOf [DataAvailable [1; 2]; DataAvailable []; SpeechEvent 0;
                            DataAvailable [3]; ClickStop])) /\
  download_btn_disabled (dom st) = false /\
  metadata_form (dom st) = true.
Proof.
  apply (recorded_video_is_the_delivered_data (readyPage demoScript)
           [DataAvailable [1; 2]; DataAvailable []; SpeechEvent 0;
            DataAvailable [3]; ClickStop]
           [DataAvailable [9]; ClickStop]).
  - reflexivity.
  - vm_compute. reflexivity.
Defined.

(** ** The upload of the captured images *)

Lemma stopRecording_uploads (st : State) :
  captureUploads (stopRecording st) = captureUploads st \/
  (isRecording (stopRecording st) = false /\
   capturedImages st <> [] /\
   captureUploads (stopRecording st) = captureUploads st ++ [capturedImages st]).
Proof.
  stopRecording_cases st; cbn; auto.
  right. rewrite Himages. repeat split; auto. discriminate.
Qed.

Lemma stopRecording_idle_uploads (st : State) :
  isRecording st = false ->
  isRecording (stopRecording st) = false /\
  captureUploads (stopRecording st) = captureUploads st.
Proof.
  intros H. unfold stopRecording. rewrite H.
  destruct (mediaRecorder st); auto.
Qed.

Lemma playNextLine_uploads (st : State) :
  captureUploads (stateOf (playNextLine st)) = captureUploads st \/
  (isRecording (stateOf (playNextLine st)) = false /\
   capturedImages st <> [] /\
   captureUploads (stateOf (playNextLine st)) =
     captureUploads st ++ [capturedImages st]).
Proof.
  apply playNextLine_cases with
    (P := fun st c =>
       captureUploads (stateOf c) = captureUploads st \/
       (isRecording (stateOf c) = false /\
        capturedImages st <> [] /\
        captureUploads (stateOf c) = captureUploads st ++ [capturedImages st]));
    clear st; intros st; intros; cbn [stateOf]; auto.
  - left. unfold speakGroup. destruct (lastItem _) as [[lastLine lastIndex]|];
      cbn [stateOf]; auto.
    apply (speakGrouped_keeps_recording section
             (collectFrom (script_lines section) (currentLineIndex st))
             lastLine lastIndex st).
  - exact (stopRecording_uploads
             (hideAllOverlays (set_isAutoPlaying false (enterNextSection st)))).
Qed.

Lemma playNextLine_idle_uploads (st : State) :
  isRecording st = false ->
  isRecording (stateOf (playNextLine st)) = false /\
  captureUploads (stateOf (playNextLine st)) = captureUploads st.
Proof.
  apply playNextLine_cases with
    (P := fun st c =>
       isRecording st = false ->
       isRecording (stateOf c) = false /\
       captureUploads (stateOf c) = captureUploads st);
    clear st; intros st; intros; cbn [stateOf]; auto.
  - unfold speakGroup. destruct (lastItem _) as [[lastLine lastIndex]|];
      cbn [stateOf]; auto.
    pose proof (speakGrouped_keeps_recording section
                  (collectFrom (script_lines section) (currentLineIndex st))
                  lastLine lastIndex st) as Hk.
    pose proof (speakGrouped_fields section
                  (collectFrom (script_lines section) (currentLineIndex st))
                  lastLine lastIndex st) as Hf.
    cbv zeta in Hk, Hf. split; [|tauto].
    destruct Hf as (_ & _ & _ & -> & _). assumption.
  - apply (stopRecording_idle_uploads
             (hideAllOverlays (set_isAutoPlaying false (enterNextSection st)))).
    assumption.
Qed.

Lemma step_idle_uploads (st : State) (e : Event) :
  start_btn_disabled (dom st) = true -> isRecording st = false ->
  isRecording (step st e) = false /\
  captureUploads (step st e) = captureUploads st.
Proof.
  intros Hb Hrec. unfold step. destruct (deliverable e st) eqn:Hd; [|auto].
  destruct e as [response|ok| | |now frame| | |i|chunk|]; cbn [handle deliverable] in *.
  - destruct response; auto.
  - rewrite Hb in Hd. discriminate.
  - apply stopRecording_idle_uploads. exact Hrec.
  - unfold handleNextQuestion. destruct (isAutoPlaying st); [|auto].
    set (st1 := set_currentLineIndex _ _).
    apply (playNextLine_idle_uploads st1). exact Hrec.
  - auto.
  - unfold retakeImage. destruct (findIndex _ _); auto.
  - unfold handleCaptureNext. destruct (isAutoPlaying st); [|auto].
    set (st1 := set_currentLineIndex _ _).
    apply (playNextLine_idle_uploads st1). exact Hrec.
  - destruct (nth_error (speechQueue st) i) as [u|]; [|auto].
    unfold runCallback. destruct (isAutoTerminate (utterance_callback u)).
    + set (st1 := set_currentLineIndex _ _).
      apply (playNextLine_idle_uploads st1). exact Hrec.
    + destruct (isCaptureMode (utterance_callback u)); cbn [stateOf];
        [destruct (showDocument (utterance_callback u))|]; auto.
  - unfold onDataAvailable. destruct (0 <? length chunk); auto.
  - destruct (mediaRecorder st); auto.
Qed.

Lemma step_uploads (st : State) (e : Event) :
  start_btn_disabled (dom st) = true ->
  captureUploads (step st e) = captureUploads st \/
  (isRecording (step st e) = false /\
   exists images, images <> [] /\
     captureUploads (step st e) = captureUploads st ++ [images]).
Proof.
  intros Hb. unfold step. destruct (deliverable e st) eqn:Hd; [|auto].
  assert (Hplay : forall st1, captureUploads st1 = captureUploads st ->
            captureUploads (stateOf (playNextLine st1)) = captureUploads st \/
            (isRecording (stateOf (playNextLine st1)) = false /\
             exists images, images <> [] /\
               captureUploads (stateOf (playNextLine st1)) =
                 captureUploads st ++ [images])).
  { intros st1 H1. rewrite <- H1.
    destruct (playNextLine_uploads st1) as [H|(H & Hne & Hup)]; eauto. }
  destruct e as [response|ok| | |now frame| | |i|chunk|]; cbn [handle deliverable] in *.
  - destruct response; auto.
  - rewrite Hb in Hd. discriminate.
  - destruct (stopRecording_uploads st) as [H|(H & Hne & Hup)]; eauto.
  - unfold handleNextQuestion. destruct (isAutoPlaying st); [|auto].
    apply Hplay. reflexivity.
  - auto.
  - unfold retakeImage. destruct (findIndex _ _); auto.
  - unfold handleCaptureNext. destruct (isAutoPlaying st); [|auto].
    apply Hplay. reflexivity.
  - destruct (nth_error (speechQueue st) i) as [u|]; [|auto].
    unfold runCallback. destruct (isAutoTerminate (utterance_callback u)).
    + apply Hplay. reflexivity.
    + destruct (isCaptureMode (utterance_callback u)); cbn [stateOf];
        [destruct (showDocument (utterance_callback u))|]; auto.
  - unfold onDataAvailable. destruct (0 <? length chunk); auto.
  - destruct (mediaRecorder st); auto.
Qed.

Lemma run_uploadedOnce (base : list (list CapturedImage))
    (events : list Event) (st : State) :
  uploadedOnce base st -> uploadedOnce base (run events st).
Proof.
  revert st. induction events as [|e events IH]; intros st H; [exact H|].
  apply (IH (step st e)). destruct H as [Hb H].
  split; [apply step_keeps_start_disabled; exact Hb|].
  destruct H as [H|(Hrec & images & Hne & H)].
  - rewrite <- H. apply step_uploads. exact Hb.
  - right. destruct (step_idle_uploads st e Hb Hrec) as [Hrec' Hup].
    split; [exact Hrec'|]. exists images. split; [exact Hne|]. congruence.
Qed.

(** X5. In a session the captured images are sent to the server at most
    once, never as an empty list, and only when the recording is over:
    whatever events follow Start, the requests to [/api/save-captures] are
    those made before, with at most one more, which carries at least one
    image. *)
Theorem captured_images_are_uploaded_once (st0 : State) (events : list Event) :
  stream st0 = true ->
  let st := run events (startRecording true st0) in
  captureUploads st = captureUploads st0 \/
  (isRecording st = false /\
   exists images, images <> [] /\
     captureUploads st = captureUploads st0 ++ [images]).
Proof.
  intros Hs. cbv zeta.
  apply (run_uploadedOnce (captureUploads st0) events (startRecording true st0)).
  split; [apply startRecording_disables_start; exact Hs|].
  unfold startRecording. rewrite Hs. cbn [negb].
  set (st1 := set_currentLineIndex 0 _).
  change (captureUploads st0) with (captureUploads st1).
  destruct (playNextLine_uploads st1) as [H|(H & Hne & Hup)];
    destruct (playNextLine st1); cbn [stateOf] in *; eauto.
Qed.

Lemma captured_images_are_uploaded_once_witness :
  let st :=
    run [SpeechEvent 0; ClickNext; SpeechEvent 0; ClickCapture 7 "frame";
         ClickStop; ClickStop; SpeechEvent 0]
      (startRecording true (readyPage demoScript)) in
  captureUploads st = captureUploads (readyPage demoScript) \/
  (isRecording st = false /\
   exists images, images <> [] /\
     captureUploads st = captureUploads (readyPage demoScript) ++ [images]).
Proof.
  apply (captured_images_are_uploaded_once (readyPage demoScript)
           [SpeechEvent 0; ClickNext; SpeechEvent 0; ClickCapture 7 "frame";
            ClickStop; ClickStop; SpeechEvent 0]).
  reflexivity.
Defined.

(** ** What the page shows *)

(** A page that shows no overlay and has nothing to say satisfies
    [displaySound] once Start is disabled. *)
Lemma displaySound_hidden (st : State) :
  (start_btn_disabled (dom st) = false ->
   speechQueue st = [] /\ isAutoPlaying st = false) ->
  match speechQueue st with
  | [] | [_] => True
  | _ :: _ :: _ => False
  end ->
  video_overlay (dom st) = false -> capture_overlay (dom st) = false ->
  document_indicator (dom st) = false -> capture_status (dom st) = false ->
  displaySound st.
Proof.
  intros Hb Hq Hv Hco Hdi Hcs. unfold displaySound.
  split; [intros H; destruct (Hb H); auto|].
  split; [|split; [auto|split; [auto|congruence]]].
  destruct (speechQueue st) as [|u [|v q]]; auto.
Qed.

Lemma speakGrouped_hidden (section : ScriptSection)
    (groupedLines : list (Line * nat)) (lastLine : Line) (lastIndex : nat)
    (st : State) :
  let st' := speakGrouped section groupedLines lastLine lastIndex st in
  document_indicator (dom st') = false /\ capture_status (dom st') = false.
Proof.
  unfold speakGrouped.
  destruct (documentLoop groupedLines _) as [[showDoc [d|]] ct]; cbn; auto.
Qed.

Lemma stopRecording_hidden (st : State) :
  document_indicator (dom st) = false -> capture_status (dom st) = false ->
  document_indicator (dom (stopRecording st)) = false /\
  capture_status (dom (stopRecording st)) = false.
Proof. intros H1 H2. stopRecording_cases st; cbn; auto. Qed.

Lemma playNextLine_display (st : State) :
  start_btn_disabled (dom st) = true -> speechQueue st = [] ->
  video_overlay (dom st) = false -> capture_overlay (dom st) = false ->
  document_indicator (dom st) = false -> capture_status (dom st) = false ->
  displaySound (stateOf (playNextLine st)).
Proof.
  apply playNextLine_cases with
    (P := fun st c =>
       start_btn_disabled (dom st) = true -> speechQueue st = [] ->
       video_overlay (dom st) = false -> capture_overlay (dom st) = false ->
       document_indicator (dom st) = false -> capture_status (dom st) = false ->
       displaySound (stateOf c));
    clear st; intros st; intros; cbn [stateOf];
    try (apply displaySound_hidden; auto; try congruence;
         match goal with E : speechQueue st = [] |- _ => rewrite E; exact I end).
  - unfold speakGroup. destruct (lastItem _) as [[lastLine lastIndex]|];
      cbn [stateOf].
    + pose proof (speakGrouped_fields section
                    (collectFrom (script_lines section) (currentLineIndex st))
                    lastLine lastIndex st) as Hf.
      pose proof (speakGrouped_hidden section
                    (collectFrom (script_lines section) (currentLineIndex st))
                    lastLine lastIndex st) as Hh.
      cbv zeta in Hf, Hh.
      destruct Hf as (_ & _ & _ & _ & _ & _ & Hb & Hv & Hco & Hq & _).
      destruct Hh as (Hdi & Hcs).
      apply displaySound_hidden; auto; [congruence|].
      rewrite Hq.
      match goal with E : speechQueue st = [] |- _ => rewrite E end.
      exact I.
    + apply displaySound_hidden; auto; try congruence.
      match goal with E : speechQueue st = [] |- _ => rewrite E; exact I end.
  - destruct (finishScript_fields st) as (_ & _ & _ & _ & Hb & Hv & Hco & Hq).
    match goal with E : speechQueue st = [] |- _ => rewrite E in Hq end.
    apply map_eq_nil in Hq.
    destruct (stopRecording_hidden
                (hideAllOverlays (set_isAutoPlaying false (enterNextSection st))))
      as (Hdi & Hcs); [reflexivity | reflexivity |].
    apply displaySound_hidden; auto; [congruence|].
    rewrite Hq. exact I.
  - match goal with IH : _ -> _ -> _ -> _ -> _ -> _ -> displaySound _ |- _ =>
      apply IH; assumption end.
Qed.

Lemma stopRecording_hides (st : State) (r : MediaRecorder) :
  mediaRecorder st = Some r -> isRecording st = true ->
  video_overlay (dom (stopRecording st)) = false /\
  capture_overlay (dom (stopRecording st)) = false /\
  document_indicator (dom (stopRecording st)) = false /\
  capture_status (dom (stopRecording st)) = false /\
  start_btn_disabled (dom (stopRecording st)) = start_btn_disabled (dom st).
Proof.
  intros Hr Hrec. unfold stopRecording. rewrite Hr, Hrec. cbn.
  destruct (capturedImages st); repeat split.
Qed.

Lemma stopRecording_display (st : State) :
  displaySound st -> displaySound (stopRecording st).
Proof.
  intros H.
  destruct (mediaRecorder st) as [r|] eqn:Hr;
    [|rewrite stopRecording_when_idle by auto; exact H].
  destruct (isRecording st) eqn:Hrec;
    [|rewrite stopRecording_when_idle by auto; exact H].
  destruct H as (Hfresh & Hq & _).
  destruct (stopRecording_hides st r Hr Hrec) as (Hv & Hco & Hdi & Hcs & Hb).
  destruct (stopRecording_when_recording st r Hr Hrec) as (Hp & _ & _ & Hq').
  apply displaySound_hidden; auto.
  - rewrite Hb, Hq'. intros Hen. destruct (Hfresh Hen) as (-> & _). auto.
  - rewrite Hq'. destruct (speechQueue st) as [|u [|v q]]; cbn; auto.
Qed.

Lemma step_display (st : State) (e : Event) :
  displaySound st -> displaySound (step st e).
Proof.
  intros H. unfold step. destruct (deliverable e st) eqn:Hd; [|exact H].
  pose proof H as (Hfresh & Hq & Hex & Hhid & Hcap).
  destruct e as [response|ok| | |now frame| | |i|chunk|]; cbn [handle deliverable] in *.
  - destruct response; exact H.
  - (* start *)
    apply negb_true_iff in Hd.
    destruct (Hfresh Hd) as (Hq0 & Hp & Hv & Hco).
    destruct (Hhid Hco) as (Hdi & Hcs).
    unfold startRecording.
    destruct (stream st); cbn [negb]; [|exact H].
    destruct ok; cbn [negb].
    + set (st1 := set_currentLineIndex 0 _).
      pose proof (playNextLine_display st1 eq_refl Hq0 Hv Hco Hdi Hcs) as H1.
      destruct (playNextLine st1); cbn [stateOf] in H1; exact H1.
    + unfold displaySound. cbn. rewrite Hq0.
      repeat split; auto; congruence.
  - apply stopRecording_display. exact H.
  - (* next *)
    unfold handleNextQuestion. destruct (isAutoPlaying st); [|exact H].
    destruct (speechQueue st) as [|u [|v q]] eqn:Hq0;
      [|destruct Hq; congruence|contradiction].
    apply playNextLine_display; cbn; auto.
    destruct (start_btn_disabled (dom st)); [reflexivity|].
    destruct (Hfresh eq_refl) as (_ & _ & Hv & _). congruence.
  - (* capture *)
    apply andb_prop in Hd. destruct Hd as [Hco Hbtn].
    destruct (Hcap Hco) as (Hb1 & Hb2 & Hb3 & Hpend).
    unfold displaySound. cbn.
    split; [exact Hfresh|]. split; [exact Hq|]. split; [exact Hex|].
    split; [congruence|]. intros _. repeat split.
    intros _. unfold capturePending. cbn. eauto.
  - (* retake *)
    apply andb_prop in Hd. destruct Hd as [Hco Hbtn].
    unfold retakeImage, displaySound.
    destruct (findIndex _ _); cbn;
      (split; [exact Hfresh|]; split; [exact Hq|]; split; [exact Hex|];
       split; [congruence|]; intros _; repeat split; discriminate).
  - (* capture next *)
    apply andb_prop in Hd. destruct Hd as [Hco Hbtn].
    unfold handleCaptureNext. destruct (isAutoPlaying st); [|exact H].
    destruct (speechQueue st) as [|u [|v q]] eqn:Hq0;
      [|destruct Hq; congruence|contradiction].
    apply playNextLine_display; cbn; auto.
    destruct (start_btn_disabled (dom st)); [reflexivity|].
    destruct (Hfresh eq_refl) as (_ & _ & _ & Hco'). congruence.
  - (* speech event *)
    apply Nat.ltb_lt in Hd.
    destruct (speechQueue st) as [|u [|v q]] eqn:Hq0;
      [cbn in Hd; lia| |contradiction].
    destruct i as [|i]; [|cbn in Hd; lia].
    destruct Hq as (Hv & Hco). destruct (Hhid Hco) as (Hdi & Hcs).
    assert (Hb : start_btn_disabled (dom st) = true).
    { destruct (start_btn_disabled (dom st)); [reflexivity|].
      destruct (Hfresh eq_refl) as (? & _). discriminate. }
    cbn [nth_error splice1 firstn skipn app].
    unfold runCallback. destruct (isAutoTerminate (utterance_callback u)).
    + apply playNextLine_display; cbn; auto.
    + destruct (isCaptureMode (utterance_callback u)); cbn [stateOf].
      * unfold displaySound.
        destruct (showDocument (utterance_callback u)); cbn;
          (split; [congruence|]; split; [exact I|];
           split; [intros; congruence|];
           split; [discriminate|]; intros _; repeat split; discriminate).
      * unfold displaySound. cbn.
        split; [congruence|]. split; [exact I|]. split; [intros _; exact Hco|].
        split; [intros _; auto|]. congruence.
  - unfold onDataAvailable. destruct (0 <? length chunk); exact H.
  - destruct (mediaRecorder st); exact H.
Qed.

Lemma run_display (events : list Event) (st : State) :
  displaySound st -> displaySound (run events st).
Proof.
  revert st. induction events as [|e events IH]; intros st H; [exact H|].
  apply (IH (step st e)). apply step_display. exact H.
Qed.


Lemma findIndex_found {A} (p : A -> bool) (l : list A) (x : A) :
  In x l -> p x = true ->
  exists i, findIndex p l = Some i /\ i < length l.
Proof.
  induction l as [|y l IH]; intros Hin Hp; [contradiction|].
  cbn [findIndex length]. destruct (p y) eqn:Hy; [exists 0; split; [reflexivity | lia]|].
  destruct Hin as [->|Hin]; [congruence|].
  destruct (IH Hin Hp) as (i & -> & Hi). exists (S i). split; [reflexivity | lia].
Qed.

Lemma splice1_length {A} (i : nat) (l : list A) :
  i < length l -> length (splice1 i l) + 1 = length l.
Proof.
  intros Hi. unfold splice1.
  rewrite length_app, length_firstn, length_skipn. lia.
Qed.

(** X6. Whatever events arrive, Confirm and Retake can be clicked only
    when the last captured image is of the document being captured; a
    Retake then removes exactly one image. *)
Theorem confirm_needs_a_captured_image (events : list Event) (st : State) :
  displaySound st ->
  let final := run events st in
  (deliverable ClickCaptureNext final = true \/
   deliverable ClickRetake final = true ->
   capturePending final) /\
  (deliverable ClickRetake final = true ->
   length (capturedImages (step final ClickRetake)) + 1 =
   length (capturedImages final)).
Proof.
  intros H final. apply (run_display events) in H. fold final in H.
  destruct H as (_ & _ & _ & _ & Hcap).
  assert (Hpend : deliverable ClickCaptureNext final = true \/
                  deliverable ClickRetake final = true ->
                  capturePending final).
  { cbn [deliverable].
    intros [Hd|Hd]; apply andb_prop in Hd; destruct Hd as [Hco Hbtn];
      destruct (Hcap Hco) as (_ & Hretake & _ & Hpend); apply Hpend; congruence. }
  split; [exact Hpend|].
  intros Hd. destruct (Hpend (or_intror Hd)) as (images & image & Himages & Htype).
  unfold step. rewrite Hd. cbn [handle]. unfold retakeImage.
  destruct (findIndex_found
              (fun img => captureType_eqb (type img) (currentCaptureType final))
              (capturedImages final) image)
    as (i & -> & Hi).
  - rewrite Himages. apply in_or_app. right. left. reflexivity.
  - rewrite Htype. apply captureType_eqb_refl.
  - cbn. apply splice1_length. exact Hi.
Qed.

Lemma confirm_needs_a_captured_image_witness :
  let final :=
    run [ClickStart true; SpeechEvent 0; ClickNext; SpeechEvent 0;
         ClickCapture 7 "frame"]
      (readyPage demoScript) in
  (deliverable ClickCaptureNext final = true \/
   deliverable ClickRetake final = true ->
   capturePending final) /\
  (deliverable ClickRetake final = true ->
   length (capturedImages (step final ClickRetake)) + 1 =
   length (capturedImages final)).
Proof.
  apply (confirm_needs_a_captured_image
           [ClickStart true; SpeechEvent 0; ClickNext; SpeechEvent 0;
            ClickCapture 7 "frame"]
           (readyPage demoScript)).
  vm_compute. repeat split; discriminate.
Defined.

(** X7. Whatever events arrive, what the page shows fits what it is
    doing: the speech engine holds at most one utterance and no overlay is
    shown while it holds one; the Next overlay and the capture overlay are
    never shown together; the document indicator and the capture status
    appear only inside the capture overlay; and there either Capture alone
    is offered, or Retake and Confirm together with the status. *)
Theorem overlays_fit_the_session (events : list Event) (st : State) :
  displaySound st ->
  let final := run events st in
  length (speechQueue final) <= 1 /\
  (speechQueue final <> [] ->
   video_overlay (dom final) = false /\ capture_overlay (dom final) = false) /\
  video_overlay (dom final) && capture_overlay (dom final) = false /\
  (document_indicator (dom final) = true \/ capture_status (dom final) = true ->
   capture_overlay (dom final) = true) /\
  (capture_overlay (dom final) = true ->
   capture_btn (dom final) = negb (capture_next_btn (dom final)) /\
   retake_btn (dom final) = capture_next_btn (dom final) /\
   capture_status (dom final) = capture_next_btn (dom final)).
Proof.
  intros H final. apply (run_display events) in H. fold final in H.
  destruct H as (_ & Hq & Hex & Hhid & Hcap).
  split; [|split; [|split; [|split]]].
  - destruct (speechQueue final) as [|u [|v q]]; cbn; [lia | lia | contradiction].
  - intros Hne. destruct (speechQueue final) as [|u [|v q]];
      [contradiction | exact Hq | contradiction].
  - destruct (video_overlay (dom final)); [|reflexivity].
    rewrite (Hex eq_refl). reflexivity.
  - intros Hshown.
    destruct (capture_overlay (dom final)); [reflexivity|].
    destruct (Hhid eq_refl) as (Hdi & Hcs). destruct Hshown; congruence.
  - intros Hco. destruct (Hcap Hco) as (H1 & H2 & H3 & _). auto.
Qed.

Lemma overlays_fit_the_session_witness :
  let final :=
    run [ClickStart true; SpeechEvent 0; ClickNext; SpeechEvent 0;
         ClickCapture 7 "frame"; ClickStop; SpeechEvent 0]
      (readyPage demoScript) in
  length (speechQueue final) <= 1 /\
  (speechQueue final <> [] ->
   video_overlay (dom final) = false /\ capture_overlay (dom final) = false) /\
  video_overlay (dom final) && capture_overlay (dom final) = false /\
  (document_indicator (dom final) = true \/ capture_status (dom final) = true ->
   capture_overlay (dom final) = true) /\
  (capture_overlay (dom final) = true ->
   capture_btn (dom final) = negb (capture_next_btn (dom final)) /\
   retake_btn (dom final) = capture_next_btn (dom final) /\
   capture_status (dom final) = capture_next_btn (dom final)).
Proof.
  apply (overlays_fit_the_session
           [ClickStart true; SpeechEvent 0; ClickNext; SpeechEvent 0;
            ClickCapture 7 "frame"; ClickStop; SpeechEvent 0]
           (readyPage demoScript)).
  vm_compute. repeat split; discriminate.
Defined.


(** ** Narration texts with placeholders *)

Lemma replaceAll_from_plain (pat' rep a s : string) :
  bracketFree a = true ->
  replaceAll_from (String "[" pat') rep 0 (a ++ s) =
  (a ++ replaceAll_from (String "[" pat') rep 0 s)%string.
Proof.
  induction a as [|c a IH]; intros Hfree; [reflexivity|].
  cbn [bracketFree] in Hfree. apply andb_prop in Hfree. destruct Hfree as [Hc Ha].
  apply negb_true_iff in Hc. apply Ascii.eqb_neq in Hc.
  cbn [append replaceAll_from String.prefix].
  destruct (ascii_dec "[" c) as [E|_]; [congruence|].
  rewrite IH by exact Ha. reflexivity.
Qed.

Lemma replaceAll_from_skip (pat rep x s : string) :
  replaceAll_from pat rep (String.length x) (x ++ s) = replaceAll_from pat rep 0 s.
Proof. induction x as [|c x IH]; [reflexivity|]. cbn. exact IH. Qed.

Lemma prefix_append (pat s : string) : String.prefix pat (pat ++ s) = true.
Proof.
  induction pat as [|c pat IH]; [destruct s; reflexivity|].
  cbn. destruct (ascii_dec c c); [exact IH | congruence].
Qed.

Lemma replaceAll_from_match (c : ascii) (pat' rep s : string) :
  replaceAll_from (String c pat') rep 0 (String c pat' ++ s) =
  (rep ++ replaceAll_from (String c pat') rep 0 s)%string.
Proof.
  cbn [append replaceAll_from].
  change (String c (pat' ++ s)) with (String c pat' ++ s)%string.
  rewrite prefix_append.
  cbn [String.length Nat.sub]. rewrite Nat.sub_0_r, replaceAll_from_skip. reflexivity.
Qed.

(** A placeholder other than the one being replaced is copied. *)
Lemma replaceAll_from_other (pat' rep body s : string) :
  String.prefix (String "[" pat') (String "[" body ++ s) = false ->
  bracketFree body = true ->
  replaceAll_from (String "[" pat') rep 0 (String "[" body ++ s) =
  (String "[" body ++ replaceAll_from (String "[" pat') rep 0 s)%string.
Proof.
  intros Hpre Hfree.
  change (String "[" body ++ s)%string with (String "[" (body ++ s)) in *.
  cbn [replaceAll_from]. rewrite Hpre.
  rewrite replaceAll_from_plain by exact Hfree. reflexivity.
Qed.

Ltac replace_piece IH :=
  first
    [ rewrite replaceAll_from_match
    | rewrite replaceAll_from_other by reflexivity
    | rewrite replaceAll_from_plain by (assumption || reflexivity) ];
  rewrite IH by assumption; reflexivity.

Lemma pass_CustomerName (pieces : list Piece) :
  plainPieces pieces = true ->
  replaceAll "[Customer Name]" "valued customer" (joined (afterPass 0) pieces) =
  joined (afterPass 1) pieces.
Proof.
  unfold replaceAll. induction pieces as [|p pieces IH]; intros H; [reflexivity|].
  cbn [plainPieces forallb] in H. apply andb_prop in H. destruct H as [Hp H].
  fold (plainPieces pieces) in H.
  destruct p; cbn [joined fold_right afterPass Nat.leb written spoken];
    fold (joined (afterPass 0) pieces); fold (joined (afterPass 1) pieces);
    replace_piece IH.
Qed.

Lemma pass_BankName (pieces : list Piece) :
  plainPieces pieces = true ->
  replaceAll "[Bank Name]" "our bank" (joined (afterPass 1) pieces) =
  joined (afterPass 2) pieces.
Proof.
  unfold replaceAll. induction pieces as [|p pieces IH]; intros H; [reflexivity|].
  cbn [plainPieces forallb] in H. apply andb_prop in H. destruct H as [Hp H].
  fold (plainPieces pieces) in H.
  destruct p; cbn [joined fold_right afterPass Nat.leb written spoken];
    fold (joined (afterPass 1) pieces); fold (joined (afterPass 2) pieces);
    replace_piece IH.
Qed.

Lemma pass_BankNBFCName (pieces : list Piece) :
  plainPieces pieces = true ->
  replaceAll "[Bank/NBFC Name]" "our organization" (joined (afterPass 2) pieces) =
  joined (afterPass 3) pieces.
Proof.
  unfold replaceAll. induction pieces as [|p pieces IH]; intros H; [reflexivity|].
  cbn [plainPieces forallb] in H. apply andb_prop in H. destruct H as [Hp H].
  fold (plainPieces pieces) in H.
  destruct p; cbn [joined fold_right afterPass Nat.leb written spoken];
    fold (joined (afterPass 2) pieces); fold (joined (afterPass 3) pieces);
    replace_piece IH.
Qed.

Lemma pass_ReadAddress (pieces : list Piece) :
  plainPieces pieces = true ->
  replaceAll "[Read address]" "123 Main Street, Mumbai, Maharashtra, 400001"
    (joined (afterPass 3) pieces) =
  joined (afterPass 4) pieces.
Proof.
  unfold replaceAll. induction pieces as [|p pieces IH]; intros H; [reflexivity|].
  cbn [plainPieces forallb] in H. apply andb_prop in H. destruct H as [Hp H].
  fold (plainPieces pieces) in H.
  destruct p; cbn [joined fold_right afterPass Nat.leb written spoken];
    fold (joined (afterPass 3) pieces); fold (joined (afterPass 4) pieces);
    replace_piece IH.
Qed.

Lemma joined_ext (f g : Piece -> string) (pieces : list Piece) :
  (forall p, f p = g p) -> joined f pieces = joined g pieces.
Proof.
  intros H. unfold joined. induction pieces as [|p pieces IH]; [reflexivity|].
  cbn [fold_right]. rewrite H, IH. reflexivity.
Qed.

(** X8. A narration text in which every opening bracket starts one of the
    four placeholders is spoken with each placeholder replaced by its
    generic value and everything else unchanged, wherever and however often
    the placeholders occur; in particular a text without brackets is
    spoken as written. *)
Theorem placeholders_are_replaced (pieces : list Piece) (callback : Callback)
    (st : State) :
  plainPieces pieces = true ->
  replacePlaceholders (joined written pieces) = joined spoken pieces /\
  speechQueue (speakText (joined written pieces) callback st) =
    map cancelUtterance (speechQueue st) ++
    [mkUtterance (joined spoken pieces) callback false].
Proof.
  intros H.
  assert (Hrep : replacePlaceholders (joined written pieces) = joined spoken pieces).
  { unfold replacePlaceholders.
    rewrite (joined_ext written (afterPass 0)) by (intros []; reflexivity).
    rewrite pass_CustomerName, pass_BankName, pass_BankNBFCName, pass_ReadAddress
      by exact H.
    apply joined_ext. intros []; reflexivity. }
  split; [exact Hrep|].
  unfold speakText. cbn. rewrite Hrep. reflexivity.
Qed.

Lemma placeholders_are_replaced_witness :
  replacePlaceholders
    (joined written
       [Plain "Dear "; CustomerName; Plain ", welcome to "; BankName; Plain " and ";
        BankNBFCName; Plain ". Is "; ReadAddress; Plain " right, "; CustomerName;
        Plain "?"]) =
  joined spoken
    [Plain "Dear "; CustomerName; Plain ", welcome to "; BankName; Plain " and ";
     BankNBFCName; Plain ". Is "; ReadAddress; Plain " right, "; CustomerName;
     Plain "?"] /\
  speechQueue
    (speakText
       (joined written
          [Plain "Dear "; CustomerName; Plain ", welcome to "; BankName; Plain " and ";
           BankNBFCName; Plain ". Is "; ReadAddress; Plain " right, "; CustomerName;
           Plain "?"])
       (mkCallback 0 false false false) (pageLoaded true)) =
    map cancelUtterance (speechQueue (pageLoaded true)) ++
    [mkUtterance
       (joined spoken
          [Plain "Dear "; CustomerName; Plain ", welcome to "; BankName; Plain " and ";
           BankNBFCName; Plain ". Is "; ReadAddress; Plain " right, "; CustomerName;
           Plain "?"])
       (mkCallback 0 false false false) false].
Proof.
  apply (placeholders_are_replaced
           [Plain "Dear "; CustomerName; Plain ", welcome to "; BankName; Plain " and ";
            BankNBFCName; Plain ". Is "; ReadAddress; Plain " right, "; CustomerName;
            Plain "?"]
           (mkCallback 0 false false false) (pageLoaded true)).
  reflexivity.
Defined.

(** A bracket that starts no placeholder is outside the theorem, and the
    replacements then work on the raw text. *)
Example placeholders_ex :
  joined written [Plain "Hello "; CustomerName; Plain " of "; BankName] =
    "Hello [Customer Name] of [Bank Name]"%string /\
  replacePlaceholders "Hello [Customer Name] of [Bank Name]" =
    "Hello valued customer of our bank"%string /\
  replacePlaceholders "[[Bank Name]" = "[our bank"%string.
Proof. repeat split. Qed.


(** ** The timer display *)

Lemma padStart2_read (n : nat) :
  readNumber (padStart2 (numberToString n)) = Some n.
Proof.
  pose proof (DecimalString.NilEmpty.usu (Nat.to_uint n)) as Husu.
  pose proof (DecimalNat.Unsigned.of_to n) as Hof.
  fold (numberToString n) in Husu.
  unfold padStart2, readNumber.
  destruct (String.length (numberToString n)) as [|[|k]] eqn:Hlen.
  - destruct (numberToString n); [|discriminate].
    cbn in Husu. injection Husu as Husu. rewrite <- Husu in Hof.
    cbn in Hof. rewrite <- Hof. reflexivity.
  - cbn [DecimalString.NilEmpty.uint_of_string]. rewrite Husu.
    cbn. f_equal. exact Hof.
  - rewrite Husu. cbn. f_equal. exact Hof.
Qed.

Lemma padStart2_length (s : string) : 2 <= String.length (padStart2 s).
Proof.
  unfold padStart2. destruct (String.length s) as [|[|k]] eqn:Hlen; cbn; lia.
Qed.

Lemma padStart2_two_digits (n : nat) :
  n < 100 -> String.length (padStart2 (numberToString n)) = 2.
Proof.
  intros Hn.
  assert (Hall : forallb (fun k => String.length (padStart2 (numberToString k)) =? 2)
                   (seq 0 100) = true) by (vm_compute; reflexivity).
  rewrite forallb_forall in Hall.
  apply Nat.eqb_eq. apply Hall. apply in_seq. lia.
Qed.

(** X9. The timer shows minutes and seconds as decimal digits around a
    colon: the part after the colon has exactly two digits and reads as
    [seconds mod 60], the part before reads as [seconds / 60] and has two
    digits below one hundred minutes, more from then on. *)
Theorem timer_shows_minutes_and_seconds (seconds : nat) :
  exists mm ss,
    updateTimerDisplay seconds = (mm ++ ":" ++ ss)%string /\
    snd (updateTimer seconds) = updateTimerDisplay (S seconds) /\
    readNumber mm = Some (seconds / 60) /\
    readNumber ss = Some (seconds mod 60) /\
    String.length ss = 2 /\
    2 <= String.length mm /\
    (seconds < 100 * 60 -> String.length mm = 2).
Proof.
  exists (padStart2 (numberToString (seconds / 60))),
         (padStart2 (numberToString (seconds mod 60))).
  split; [reflexivity|]. split; [reflexivity|].
  split; [apply padStart2_read|]. split; [apply padStart2_read|].
  split; [|split; [apply padStart2_length|]].
  - apply padStart2_two_digits.
    pose proof (Nat.mod_upper_bound seconds 60). lia.
  - intros H. apply padStart2_two_digits.
    apply Nat.Div0.div_lt_upper_bound. lia.
Qed.

Example updateTimerDisplay_ex :
  updateTimerDisplay 0 = "00:00"%string /\
  updateTimerDisplay 75 = "01:15"%string /\
  updateTimerDisplay (99 * 60 + 59) = "99:59"%string /\
  updateTimerDisplay (100 * 60) = "100:00"%string.
Proof. vm_compute. repeat split. Qed.


(** ** The download *)

Lemma onStop_downloadReady (st : State) : downloadReady (onStop st).
Proof. intros _. cbn. eauto. Qed.

Lemma step_downloadReady (st : State) (e : Event) :
  downloadReady st -> downloadReady (step st e).
Proof.
  intros H. unfold step. destruct (deliverable e st) eqn:Hd; [|exact H].
  assert (Hplay : forall st1,
            videoBlob st1 = videoBlob st ->
            download_btn_disabled (dom st1) = download_btn_disabled (dom st) ->
            downloadReady (stateOf (playNextLine st1))).
  { intros st1 Hv Hb. unfold downloadReady.
    destruct (playNextLine_keeps_recording st1) as (_ & -> & -> & _).
    rewrite Hv, Hb. exact H. }
  destruct e as [response|ok| | |now frame| | |i|chunk|]; cbn [handle deliverable] in *.
  - destruct response; exact H.
  - unfold startRecording.
    destruct (stream st); cbn [negb]; [|exact H].
    destruct ok; cbn [negb]; [|exact H].
    set (st1 := set_currentLineIndex 0 _).
    pose proof (Hplay st1 eq_refl eq_refl) as H1.
    destruct (playNextLine st1); cbn [stateOf] in H1; exact H1.
  - unfold downloadReady.
    destruct (stopRecording_keeps_recording st) as (_ & -> & -> & _). exact H.
  - unfold handleNextQuestion. destruct (isAutoPlaying st); [|exact H].
    apply Hplay; reflexivity.
  - exact H.
  - unfold retakeImage. destruct (findIndex _ _); exact H.
  - unfold handleCaptureNext. destruct (isAutoPlaying st); [|exact H].
    apply Hplay; reflexivity.
  - destruct (nth_error (speechQueue st) i) as [u|]; [|exact H].
    unfold runCallback. destruct (isAutoTerminate (utterance_callback u)).
    + apply Hplay; reflexivity.
    + destruct (isCaptureMode (utterance_callback u)); cbn [stateOf];
        [destruct (showDocument (utterance_callback u))|]; exact H.
  - unfold onDataAvailable. destruct (0 <? length chunk); exact H.
  - destruct (mediaRecorder st); [apply onStop_downloadReady | exact H].
Qed.

(** X10. On a page whose Download button is enabled only when a video
    exists (as on the page just loaded, where it is disabled), whatever
    events arrive, a click on the enabled Download button never meets the
    alert for a missing video: it downloads the recorded blob under the
    name [video_kyc_<now>.webm]. *)
Theorem download_button_has_a_video (events : list Event) (st : State) (now : nat) :
  downloadReady st ->
  download_btn_disabled (dom (run events st)) = false ->
  exists blob,
    videoBlob (run events st) = Some blob /\
    downloadVideo now (run events st) =
      Downloaded ("video_kyc_" ++ numberToString now ++ ".webm")%string blob.
Proof.
  intros H Hb.
  assert (Hready : downloadReady (run events st)).
  { clear Hb. revert st H. induction events as [|e events IH]; intros st H; [exact H|].
    change (run (e :: events) st) with (run events (step st e)).
    apply IH. apply step_downloadReady. exact H. }
  destruct (Hready Hb) as (blob & Hblob).
  exists blob. split; [exact Hblob|].
  unfold downloadVideo. rewrite Hblob. reflexivity.
Qed.

Lemma download_button_has_a_video_witness :
  exists blob,
    videoBlob
      (run [ClickStart true; DataAvailable [4; 2]; ClickStop; RecorderStop]
         (readyPage demoScript)) = Some blob /\
    downloadVideo 1700
      (run [ClickStart true; DataAvailable [4; 2]; ClickStop; RecorderStop]
         (readyPage demoScript)) =
      Downloaded ("video_kyc_" ++ numberToString 1700 ++ ".webm")%string blob.
Proof.
  apply (download_button_has_a_video
           [ClickStart true; DataAvailable [4; 2]; ClickStop; RecorderStop]
           (readyPage demoScript) 1700).
  - vm_compute. discriminate.
  - vm_compute. reflexivity.
Defined.

Example downloadVideo_ex :
  downloadVideo 1700 (readyPage demoScript) = NoVideoAlert /\
  downloadVideo 1700
    (run [ClickStart true; DataAvailable [4; 2]; ClickStop; RecorderStop]
       (readyPage demoScript)) =
    Downloaded "video_kyc_1700.webm" [4; 2].
Proof. vm_compute. split; reflexivity. Qed.


(** ** The progress bars *)

Lemma following_within (sd : Script) (before : list (nat * nat)) (st : State) :
  following sd before st -> isAutoPlaying st = true -> withinSection sd st.
Proof.
  intros (_ & _ & rest & _ & _ & Hshape) Hp.
  destruct (Hshape Hp) as (_ & _ & section & Hsec & Hcur).
  unfold withinSection. rewrite Hsec.
  destruct (speechQueue st) as [|u [|v q]]; [| |contradiction].
  - destruct Hcur as (Hl & _). repeat split; [lia | lia | constructor].
  - destruct Hcur as (_ & _ & Hle & Hlast & _).
    repeat split; [lia | lia | constructor; [exact Hlast | constructor]].
Qed.

Lemma withinSection_same (sd : Script) (st st' : State) :
  cursor st' = cursor st ->
  map utterance_callback (speechQueue st') = map utterance_callback (speechQueue st) ->
  withinSection sd st -> withinSection sd st'.
Proof.
  intros Hc Hq H. unfold cursor in Hc. injection Hc as Hs Hl.
  unfold withinSection in *. rewrite Hs, Hl.
  destruct (nth_error (sections sd) (currentSectionIndex st)) as [section|]; [|exact I].
  destruct H as (H1 & H2 & H3). split; [exact H1|]. split; [exact H2|].
  rewrite <- (Forall_map utterance_callback
                (fun cb => lastLineIndex cb < length (script_lines section))) in *.
  rewrite Hq. exact H3.
Qed.

Lemma withinSection_finished (sd : Script) (st : State) :
  finished sd st -> withinSection sd st.
Proof.
  intros (_ & _ & _ & _ & _ & Hc). unfold cursor in Hc. injection Hc as Hs _.
  unfold withinSection. rewrite Hs.
  assert (H : nth_error (sections sd) (length (sections sd)) = None)
    by (apply nth_error_None; lia).
  rewrite H. exact I.
Qed.

(** [playNextLine] called from a playing page with nothing being spoken
    keeps the cursor inside its section. *)
Lemma playNextLine_within (sd : Script) (before : list (nat * nat)) (st : State) :
  playing sd st -> speechQueue st = [] ->
  start_btn_disabled (dom st) = true ->
  currentSectionIndex st < length (sections sd) ->
  narratedLines st ++ remaining sd (cursor st) = before ++ allLines sd ->
  withinSection sd (stateOf (playNextLine st)).
Proof.
  intros Hplay Hq Hb Hlt Hnar.
  pose proof (playNextLine_following sd before st Hplay Hq Hb Hlt Hnar) as Hf.
  destruct (playNextLine_advances sd st Hplay Hq Hlt)
    as (st' & Hret & [(_ & Hfin & _)|(u & n & section & Hplay' & _)]);
    rewrite Hret in *; cbn [stateOf] in *.
  - apply withinSection_finished. exact Hfin.
  - apply (following_within sd before); [exact Hf | apply Hplay'].
Qed.

Lemma splice1_In {A} (i : nat) (l : list A) (x : A) :
  In x (splice1 i l) -> In x l.
Proof.
  unfold splice1. intros H. apply in_app_or in H.
  rewrite <- (firstn_skipn i l). apply in_or_app.
  destruct H as [H|H]; [left; exact H|]. right.
  destruct (skipn i l) as [|y rest] eqn:E.
  - rewrite <- (firstn_skipn i l), E, app_nil_r in H.
    replace (skipn (S i) (firstn i l)) with (@nil A) in H; [contradiction|].
    symmetry. apply skipn_all2. rewrite length_firstn. lia.
  - replace (skipn (S i) l) with rest in H; [right; exact H|].
    change (S i) with (1 + i). rewrite <- skipn_skipn, E. reflexivity.
Qed.

Lemma step_within (sd : Script) (before : list (nat * nat))
    (st : State) (e : Event) :
  noScriptArrives e = true ->
  following sd before st -> withinSection sd st ->
  withinSection sd (step st e).
Proof.
  intros He Hf Hw. pose proof Hf as (Hsd & Hb & rest & Hnar & Hend & Hshape).
  unfold step. destruct (deliverable e st) eqn:Hd; [|exact Hw].
  assert (Hnext : isAutoPlaying st = true -> speechQueue st = [] ->
            withinSection sd
              (stateOf (playNextLine
                 (set_currentLineIndex (S (currentLineIndex (hideAllOverlays st)))
                    (hideAllOverlays st))))).
  { intros Hp Hq.
    destruct (Hshape Hp) as (Hrec & (r & Hm) & section & Hsec & Hcur).
    rewrite Hq in Hcur. destruct Hcur as (_ & ->).
    apply (playNextLine_within sd before); auto.
    - unfold playing. cbn. eauto.
    - cbn. apply nth_error_Some. congruence. }
  destruct e as [[sd'|]|ok| | |now frame| | |i|chunk|];
    cbn [handle deliverable] in *; try discriminate.
  - exact Hw.
  - rewrite Hb in Hd. discriminate.
  - destruct (stopRecording_fields st) as (Hc & _ & _ & _ & _ & _ & Hq & _).
    apply (withinSection_same sd st); assumption.
  - unfold handleNextQuestion. destruct (isAutoPlaying st) eqn:Hp; [|exact Hw].
    apply Hnext; [reflexivity|].
    destruct (Hshape eq_refl) as (_ & _ & section & _ & Hcur).
    destruct (speechQueue st) as [|u [|v q]]; [reflexivity| |contradiction].
    destruct Hcur as (Hv & _). congruence.
  - exact Hw.
  - unfold retakeImage. destruct (findIndex _ _); exact Hw.
  - unfold handleCaptureNext. destruct (isAutoPlaying st) eqn:Hp; [|exact Hw].
    apply Hnext; [reflexivity|].
    destruct (Hshape eq_refl) as (_ & _ & section & _ & Hcur).
    destruct (speechQueue st) as [|u [|v q]]; [reflexivity| |contradiction].
    destruct Hcur as (_ & Hco & _). rewrite Hco in Hd. discriminate.
  - (* speech event *)
    destruct (nth_error (speechQueue st) i) as [u|] eqn:Hu; [|exact Hw].
    assert (Hin : In u (speechQueue st)) by (eapply nth_error_In; exact Hu).
    unfold runCallback.
    destruct (isAutoPlaying st) eqn:Hp.
    + (* playing: the one utterance held *)
      destruct (Hshape eq_refl) as (Hrec & (r & Hm) & section & Hsec & Hcur).
      destruct (speechQueue st) as [|u' [|v q]] eqn:Hq; [contradiction| |contradiction].
      destruct Hin as [->|[]].
      destruct i as [|i]; [|destruct i; discriminate].
      destruct Hcur as (Hv & Hco & Hle & Hlast & Hrest).
      cbn [splice1 firstn skipn app].
      destruct (isAutoTerminate (utterance_callback u)).
      * apply (playNextLine_within sd before).
        -- unfold playing. cbn. eauto.
        -- reflexivity.
        -- exact Hb.
        -- cbn. apply nth_error_Some. congruence.
        -- unfold narratedLines, cursor in *.
           cbn [narrated currentSectionIndex currentLineIndex
                set_currentLineIndex set_speechQueue].
           rewrite <- Hrest. exact Hnar.
      * assert (Hres : withinSection sd
                         (set_currentLineIndex (lastLineIndex (utterance_callback u))
                            (set_speechQueue [] st))).
        { unfold withinSection. cbn. rewrite Hsec.
          repeat split; [lia | lia | constructor]. }
        destruct (isCaptureMode (utterance_callback u)); cbn [stateOf];
          [destruct (showDocument (utterance_callback u))|]; exact Hres.
    + (* not playing: a late callback *)
      unfold withinSection in Hw |- *.
      destruct (isAutoTerminate (utterance_callback u)).
      * rewrite playNextLine_not_playing by exact Hp. cbn.
        destruct (nth_error (sections sd) (currentSectionIndex st)) as [section|];
          [|exact I].
        destruct Hw as (H1 & H2 & H3). rewrite Forall_forall in H3.
        split; [exact H1|]. split; [apply (H3 u Hin)|].
        apply Forall_forall. intros x Hx. apply H3. eapply splice1_In. exact Hx.
      * assert (Hres : match nth_error (sections sd) (currentSectionIndex st) with
                       | Some section =>
                           0 < length (script_lines section) /\
                           lastLineIndex (utterance_callback u) <=
                             length (script_lines section) /\
                           Forall (fun u0 => lastLineIndex (utterance_callback u0) <
                                             length (script_lines section))
                             (splice1 i (speechQueue st))
                       | None => True
                       end).
        { destruct (nth_error (sections sd) (currentSectionIndex st)) as [section|];
            [|exact I].
          destruct Hw as (H1 & H2 & H3). rewrite Forall_forall in H3.
          split; [exact H1|]. split; [specialize (H3 u Hin); lia|].
          apply Forall_forall. intros x Hx. apply H3. eapply splice1_In. exact Hx. }
        destruct (isCaptureMode (utterance_callback u)); cbn [stateOf];
          [destruct (showDocument (utterance_callback u))|]; exact Hres.
  - unfold onDataAvailable. destruct (0 <? length chunk); exact Hw.
  - destruct (mediaRecorder st); exact Hw.
Qed.

Lemma run_within (sd : Script) (before : list (nat * nat))
    (events : list Event) (st : State) :
  forallb noScriptArrives events = true ->
  following sd before st -> withinSection sd st ->
  following sd before (run events st) /\ withinSection sd (run events st).
Proof.
  revert st. induction events as [|e events IH]; intros st Hev Hf Hw; [auto|].
  cbn in Hev. apply andb_prop in Hev. destruct Hev as [He Hev].
  change (run (e :: events) st) with (run events (step st e)).
  apply IH; [exact Hev | apply step_following | apply (step_within sd before)];
    assumption.
Qed.

Lemma combine_seq_nth {A} (l : list A) (a i : nat) (x : A) :
  In (i, x) (combine (seq a (length l)) l) ->
  a <= i /\ nth_error l (i - a) = Some x.
Proof.
  revert a. induction l as [|y l IH]; intros a H; [contradiction|].
  cbn in H. destruct H as [H|H].
  - injection H as <- <-. rewrite Nat.sub_diag. split; [lia | reflexivity].
  - apply IH in H. destruct H as [Hle Hnth]. split; [lia|].
    replace (i - a) with (S (i - S a)) by lia. exact Hnth.
Qed.

Lemma withinSection_bars (sd : Script) (st : State) :
  scriptData st = Some sd -> withinSection sd st ->
  exists widths,
    updateProgressBars st = Some widths /\
    length widths = length (sections sd) /\
    Forall properWidth widths.
Proof.
  intros Hsd Hw. unfold updateProgressBars. rewrite Hsd.
  eexists. split; [reflexivity|]. split.
  - rewrite length_map, length_combine, length_seq. lia.
  - apply Forall_forall. intros w Hin. apply in_map_iff in Hin.
    destruct Hin as ([i section] & <- & Hin).
    apply combine_seq_nth in Hin. destruct Hin as [_ Hnth].
    rewrite Nat.sub_0_r in Hnth.
    destruct (i <? currentSectionIndex st); [exact I|].
    destruct (Nat.eqb_spec i (currentSectionIndex st)) as [->|_]; [|exact I].
    unfold withinSection in Hw. rewrite Hnth in Hw. cbn. tauto.
Qed.

(** X11. In a session on a script loaded before Start, whatever events
    arrive, [updateProgressBars], at every tick of the timer and in
    [playNextLine], finds one width per section, and the width of the
    current section is a proper percentage: the section has at least one
    line, so the division is defined, and the line index does not exceed
    the number of lines, so the bar never passes 100%. *)
Theorem progress_bars_are_proper (sd : Script) (st0 : State) (events : list Event) :
  scriptData st0 = Some sd -> stream st0 = true -> speechQueue st0 = [] ->
  forallb noScriptArrives events = true ->
  exists widths,
    updateProgressBars (run events (startRecording true st0)) = Some widths /\
    length widths = length (sections sd) /\
    Forall properWidth widths.
Proof.
  intros Hsd Hs Hq Hev.
  destruct (sections sd) as [|section secs] eqn:Hsecs.
  - (* no section, no bar *)
    assert (Hsd' : scriptData (run events (startRecording true st0)) = Some sd).
    { assert (H0 : scriptData (startRecording true st0) = Some sd).
      { unfold startRecording. rewrite Hs. cbn [negb].
        set (st1 := set_currentLineIndex 0 _).
        pose proof (playNextLine_script st1) as H.
        destruct (playNextLine st1); cbn [stateOf] in H; cbn; rewrite H; exact Hsd. }
      revert H0. generalize (startRecording true st0). clear Hsd Hs Hq.
      induction events as [|e events IH]; intros st H; [exact H|].
      cbn in Hev. apply andb_prop in Hev. destruct Hev as [He Hev].
      change (run (e :: events) st) with (run events (step st e)).
      apply (IH Hev). rewrite step_script by exact He. exact H. }
    unfold updateProgressBars. rewrite Hsd', Hsecs.
    exists []. repeat split. constructor.
  - assert (Hne : sections sd <> []) by (rewrite Hsecs; discriminate).
    rewrite <- Hsecs.
    assert (Hw : withinSection sd (startRecording true st0)).
    { unfold startRecording. rewrite Hs. cbn [negb].
      set (st1 := set_currentLineIndex 0 _).
      assert (Hplay : playing sd st1) by (unfold playing; subst st1; cbn; eauto).
      assert (Hlt : currentSectionIndex st1 < length (sections sd))
        by (cbn; rewrite Hsecs; cbn; lia).
      pose proof (playNextLine_within sd (narratedLines st0) st1 Hplay Hq eq_refl Hlt)
        as H.
      destruct (playNextLine_advances sd st1 Hplay Hq Hlt) as (st' & Hret & _).
      rewrite Hret in *. apply H.
      change (cursor st1) with (0, 0). rewrite remaining_start by exact Hne.
      reflexivity. }
    destruct (run_within sd (narratedLines st0) events _ Hev
                (startRecording_following sd st0 Hne Hsd Hs Hq) Hw)
      as [(Hsd' & _) Hw'].
    apply withinSection_bars; assumption.
Qed.

Lemma progress_bars_are_proper_witness :
  exists widths,
    updateProgressBars
      (run [SpeechEvent 0; ClickNext; SpeechEvent 0; ClickStop; SpeechEvent 0]
         (startRecording true (readyPage demoScript))) = Some widths /\
    length widths = length (sections demoScript) /\
    Forall properWidth widths.
Proof.
  apply (progress_bars_are_proper demoScript (readyPage demoScript)
           [SpeechEvent 0; ClickNext; SpeechEvent 0; ClickStop; SpeechEvent 0]).
  - reflexivity.
  - reflexivity.
  - reflexivity.
  - reflexivity.
Defined.

(** The bars after the first unit of the demonstration script, and what a
    script arriving after Start can do: with an empty first section the
    current bar is [0 / 0]. *)
Example updateProgressBars_ex :
  updateProgressBars
    (run [SpeechEvent 0; ClickNext]
       (startRecording true (readyPage demoScript))) =
    Some [Full; Full; Part 0 2; Empty] /\
  updateProgressBars
    (run [ClickStart true; ScriptResponse (Some demoScript)] (pageLoaded true)) =
    Some [Part 0 2; Empty; Empty; Empty] /\
  updateProgressBars
    (run [ClickStart true;
          ScriptResponse (Some (mkScript [mkSection "Empty" false []]))]
       (pageLoaded true)) =
    Some [Part 0 0].
Proof. vm_compute. repeat split. Qed.
